(** * KatelyaTV: the user-data storage layer over two key-value backends

    A shallow embedding of
      - [src/lib/settings.ts]            ([mergeUserSettings]),
      - the Kvrocks adapter               ([KvrocksStorage], "backend A"),
      - the Upstash-Redis adapter         ([RedisStorage], "backend B"),
    together with the retry wrapper [withRetry] that both adapters carry.

    The adapters talk to a Redis-compatible server through the
    [@upstash/redis] client.  The server is modelled as a finite map from
    string keys to typed Redis values; every client command is a function
    on that map which may throw (WRONGTYPE), and the adapters are written
    in a small state-and-exception monad over it.  Keys are the strings the
    adapters build, and [KEYS] matches them against glob patterns, so that
    two calls meet on a key exactly when the code makes them meet.

    The client deserialises what it reads: a reply text is handed to
    [JSON.parse], so a string written by an adapter may come back as a
    number, a boolean, null, an array or an object.  [JSON.parse] and the
    client library are external; what they make of a text that looks like
    JSON is a parameter of the model ([Deserializer]).

    Left out: the console output of [withRetry]. *)

From Stdlib Require Import ZArith String Ascii List Bool Lia.
From stdpp Require Import base option list gmap strings fin_maps sorting.

Local Open Scope string_scope.
Local Open Scope Z_scope.

(** ** JavaScript values *)

(** Modelled from the spec: the record types of [./types] and
    [./admin.types] ([PlayRecord], [Favorite], [EpisodeSkipConfig],
    [AdminConfig]) are not part of the sources; the spec describes each of
    them as an "opaque JSON-serializable record".  They are JSON objects. *)
Unset Elimination Schemes.
Inductive json : Type :=
  | JNull
  | JBool (b : bool)
  | JNumber (n : Z)
  | JString (s : string)
  | JArray (items : list json)
  | JObject (fields : list (string * json)).
Set Elimination Schemes.

Definition JsonRecord : Type := list (string * json).
Definition PlayRecord : Type := JsonRecord.
Definition Favorite : Type := JsonRecord.
Definition EpisodeSkipConfig : Type := JsonRecord.
Definition AdminConfig : Type := JsonRecord.

(** [UserSettings] and [Partial<UserSettings>] (five fields, as used by
    [mergeUserSettings] and by the literals [defaultSettings]). *)
Record UserSettings : Type := mkUserSettings {
  filter_adult_content : bool;
  theme : string;
  language : string;
  auto_play : bool;
  video_quality : string;
}.

Record PartialUserSettings : Type := mkPartial {
  p_filter_adult_content : option bool;
  p_theme : option string;
  p_language : option string;
  p_auto_play : option bool;
  p_video_quality : option string;
}.

(** The account object that [KvrocksStorage.registerUser] builds:
    [{ username, password, created_at: Date.now() }]. *)
Record UserData : Type := mkUserData {
  username : string;
  password : string;
  created_at : Z;
}.

(** What the client can hand back (it deserialises JSON).  A number is
    given by the text that [Number.prototype.toString] prints for it, which
    tells two numbers apart (the two zeros excepted, which print alike). *)
Unset Elimination Schemes.
Inductive jsval : Type :=
  | VNull
  | VBool (b : bool)
  | VNumber (text : string)
  | VString (s : string)
  | VArray (items : list jsval)
  | VRecord (r : JsonRecord)
  | VUserData (u : UserData)
  | VSettings (s : UserSettings).
Set Elimination Schemes.

(** JavaScript truthiness, as tested by [val ? ... : ...] and [a && b]. *)
Definition truthy (v : jsval) : bool :=
  match v with
  | VNull => false
  | VBool b => b
  | VNumber text => negb (String.eqb text "0") && negb (String.eqb text "NaN")
  | VString s => negb (String.eqb s EmptyString)
  | VArray _ | VRecord _ | VUserData _ | VSettings _ => true
  end.

(** [items.join(',')] on the texts of the items. *)
Fixpoint join_comma (texts : list string) : string :=
  match texts with
  | [] => EmptyString
  | [t] => t
  | t :: rest => t +:+ "," +:+ join_comma rest
  end.

(** [String(value)]; an array prints its items separated by commas, null
    items as the empty text. *)
Fixpoint ensureString (value : jsval) : string :=
  match value with
  | VNull => "null"
  | VBool true => "true"
  | VBool false => "false"
  | VNumber text => text
  | VString s => s
  | VArray items =>
      join_comma (map (fun item => match item with
                                   | VNull => EmptyString
                                   | _ => ensureString item
                                   end) items)
  | VRecord _ | VUserData _ | VSettings _ => "[object Object]"
  end.

(** [value.map((item) => String(item))] *)
Definition ensureStringArray (value : list jsval) : list string :=
  map (fun item => ensureString item) value.

(** Property access on an object, seen through its JSON fields. *)
Fixpoint assoc (name : string) (fields : list (string * json)) : option json :=
  match fields with
  | [] => None
  | (k, v) :: rest => if String.eqb k name then Some v else assoc name rest
  end.

Fixpoint assoc_set (name : string) (v : json) (fields : list (string * json))
  : list (string * json) :=
  match fields with
  | [] => [(name, v)]
  | (k, w) :: rest =>
      if String.eqb k name then (k, v) :: rest else (k, w) :: assoc_set name v rest
  end.

Definition settings_fields (s : UserSettings) : list (string * json) :=
  [ ("filter_adult_content", JBool (filter_adult_content s));
    ("theme", JString (theme s));
    ("language", JString (language s));
    ("auto_play", JBool (auto_play s));
    ("video_quality", JString (video_quality s)) ].

Definition user_fields (u : UserData) : list (string * json) :=
  [ ("username", JString (username u));
    ("password", JString (password u));
    ("created_at", JNumber (created_at u)) ].

Definition get_prop (v : jsval) (name : string) : option json :=
  match v with
  | VRecord r => assoc name r
  | VUserData u => assoc name (user_fields u)
  | VSettings s => assoc name (settings_fields s)
  | VNull | VBool _ | VNumber _ | VString _ | VArray _ => None
  end.

(** ** Errors, results and the state monad *)

Record JsError : Type := mkError {
  message : option string;
  code : option string;
}.

Definition Error (msg : string) : JsError :=
  {| message := Some msg; code := None |}.

Inductive result (A : Type) : Type :=
  | Ok (a : A)
  | Throw (err : JsError).
Arguments Ok {A} a.
Arguments Throw {A} err.

Section StateMonad.
Context {St : Type}.

Definition M (A : Type) : Type := St -> result A * St.

Definition ret {A} (a : A) : M A := fun s => (Ok a, s).

Definition throw {A} (err : JsError) : M A := fun s => (Throw err, s).

Definition bind {A B} (c : M A) (k : A -> M B) : M B :=
  fun s =>
    match c s with
    | (Ok a, s') => k a s'
    | (Throw err, s') => (Throw err, s')
    end.
End StateMonad.
Arguments M St A : clear implicits.

Declare Scope js_scope.
Delimit Scope js_scope with js.
Notation "'await' x <- c ;; k" := (bind c (fun x => k))
  (at level 10, x name, c at level 99, k at level 200) : js_scope.
Notation "'await_' c ;; k" := (bind c (fun _ => k))
  (at level 10, c at level 99, k at level 200) : js_scope.
Local Open Scope js_scope.

(** ** The retry wrapper

    Both adapter files define the same [withRetry]; they differ only in the
    text of the console line printed before a retry, which is not modelled.
    [setTimeout_wait ms] stands for
    [await new Promise((r) => setTimeout(r, ms))]. *)

Fixpoint includes (s needle : string) : bool :=
  String.prefix needle s
  || match s with
     | EmptyString => false
     | String _ rest => includes rest needle
     end.

Definition opt_includes (s : option string) (needle : string) : bool :=
  match s with
  | Some m => includes m needle
  | None => false
  end.

Definition opt_is (s : option string) (lit : string) : bool :=
  match s with
  | Some c => String.eqb c lit
  | None => false
  end.

Definition isConnectionError (err : JsError) : bool :=
  opt_includes (message err) "Connection"
  || opt_includes (message err) "ECONNREFUSED"
  || opt_includes (message err) "ENOTFOUND"
  || opt_is (code err) "ECONNRESET"
  || opt_is (code err) "EPIPE".

Class Sleeper (St : Type) := setTimeout_wait : Z -> St -> St.

Section Retry.
Context {St : Type} {timer : Sleeper St} {A : Type}.
Variable operation : M St A.
Variable maxRetries : nat.

(** The [for (let i = 0; i < maxRetries; i++)] loop; [fuel] is
    [maxRetries - i], so the loop test is [fuel <> 0]. *)
Fixpoint retry_from (fuel : nat) (i : nat) (s : St) : result A * St :=
  match fuel with
  | O => (Throw (Error "Max retries exceeded"), s)
  | S fuel' =>
      match operation s with
      | (Ok v, s') => (Ok v, s')
      | (Throw err, s') =>
          let isLastAttempt := Nat.eqb i (maxRetries - 1)%nat in
          if isConnectionError err && negb isLastAttempt
          then retry_from fuel' (S i)
                 (setTimeout_wait (1000 * (Z.of_nat i + 1)) s')
          else (Throw err, s')
      end
  end.

Definition withRetry : M St A := retry_from maxRetries 0.
End Retry.

(** [maxRetries = 3] is the default argument; no call site overrides it. *)
Definition DEFAULT_MAX_RETRIES : nat := 3.
Abbreviation retry op := (withRetry op DEFAULT_MAX_RETRIES).

(** ** [src/lib/settings.ts] *)

(** [a ?? b] on an optional field. *)
Definition nullish {A} (a : option A) (b : A) : A :=
  match a with
  | Some v => v
  | None => b
  end.

(** [current?.field]: undefined when [current] is null or undefined.
    [current] is given with optional fields: a value read back from the
    store is only cast to [UserSettings], so a field of it may be missing;
    a well-typed [UserSettings] is the case where all five are present. *)
Definition opt_chain {A} (current : option PartialUserSettings)
    (field : PartialUserSettings -> option A) : option A :=
  match current with
  | Some c => field c
  | None => None
  end.

Definition mergeUserSettings (defaults : UserSettings)
    (current : option PartialUserSettings) (partial : PartialUserSettings)
  : UserSettings :=
  {| filter_adult_content :=
       nullish (p_filter_adult_content partial)
         (nullish (opt_chain current p_filter_adult_content)
            (filter_adult_content defaults));
     theme :=
       nullish (p_theme partial)
         (nullish (opt_chain current p_theme) (theme defaults));
     language :=
       nullish (p_language partial)
         (nullish (opt_chain current p_language) (language defaults));
     auto_play :=
       nullish (p_auto_play partial)
         (nullish (opt_chain current p_auto_play) (auto_play defaults));
     video_quality :=
       nullish (p_video_quality partial)
         (nullish (opt_chain current p_video_quality) (video_quality defaults));
  |}.

(** A value of type [UserSettings] seen as an object with all fields set. *)
Definition full (s : UserSettings) : PartialUserSettings :=
  {| p_filter_adult_content := Some (filter_adult_content s);
     p_theme := Some (theme s);
     p_language := Some (language s);
     p_auto_play := Some (auto_play s);
     p_video_quality := Some (video_quality s) |}.

Definition prop_bool (v : jsval) (name : string) : option bool :=
  match get_prop v name with
  | Some (JBool b) => Some b
  | _ => None
  end.

Definition prop_string (v : jsval) (name : string) : option string :=
  match get_prop v name with
  | Some (JString s) => Some s
  | _ => None
  end.

(** [current ?? undefined] followed by the unchecked view of the object as
    a settings record.  For a [VSettings] this is [full]; for any other
    object the five properties are looked up by name (a property of another
    JSON type is read as missing). *)
Definition as_current (v : jsval) : option PartialUserSettings :=
  match v with
  | VNull => None
  | VSettings s => Some (full s)
  | _ =>
      Some {| p_filter_adult_content := prop_bool v "filter_adult_content";
              p_theme := prop_string v "theme";
              p_language := prop_string v "language";
              p_auto_play := prop_bool v "auto_play";
              p_video_quality := prop_string v "video_quality" |}
  end.

(** ** The Redis-compatible server and the client commands

    The server and the [@upstash/redis] client are external to the
    repository; this is their command semantics as far as the adapters use
    it.  A key holds a string (a serialised JavaScript value), a list or a
    set; a list or set that becomes empty is removed. *)

Inductive rvalue : Type :=
  | RString (v : jsval)
  | RList (items : list string)
  | RSet (members : gset string).

Record world : Type := mkWorld {
  kv : gmap string rvalue;
  timers : list Z;   (* delays waited for by [setTimeout], latest first *)
  now : Z;           (* [Date.now()] *)
}.

Definition with_kv (f : gmap string rvalue -> gmap string rvalue) (w : world)
  : world :=
  {| kv := f (kv w); timers := timers w; now := now w |}.

#[global] Instance world_sleeper : Sleeper world :=
  fun ms w => {| kv := kv w; timers := ms :: timers w; now := now w + ms |}.

Definition WRONGTYPE : JsError :=
  Error "WRONGTYPE Operation against a key holding the wrong kind of value".

(** *** Glob patterns of [KEYS] *)

Inductive gtok : Type :=
  | GStar
  | GAny
  | GLit (c : ascii)
  | GClass (negated : bool) (ranges : list (ascii * ascii)).

Local Open Scope char_scope.

(** The body of a character class, up to the closing bracket (or to the
    end of the pattern when the bracket is missing). *)
Fixpoint parse_class (p : list ascii) (acc : list (ascii * ascii))
  : list (ascii * ascii) * list ascii :=
  match p with
  | [] => (acc, [])
  | c :: rest =>
      if Ascii.eqb c "]" then (acc, rest)
      else if Ascii.eqb c "\" then
        match rest with
        | c' :: rest' => parse_class rest' ((c', c') :: acc)
        | [] => parse_class rest ((c, c) :: acc)
        end
      else
        match rest with
        | dash :: d :: rest' =>
            if Ascii.eqb dash "-" then parse_class rest' ((c, d) :: acc)
            else parse_class rest ((c, c) :: acc)
        | _ => parse_class rest ((c, c) :: acc)
        end
  end.

Fixpoint tokenize (fuel : nat) (p : list ascii) : list gtok :=
  match fuel with
  | O => []
  | S fuel' =>
      match p with
      | [] => []
      | c :: rest =>
          if Ascii.eqb c "*" then GStar :: tokenize fuel' rest
          else if Ascii.eqb c "?" then GAny :: tokenize fuel' rest
          else if Ascii.eqb c "\" then
            match rest with
            | c' :: rest' => GLit c' :: tokenize fuel' rest'
            | [] => GLit c :: tokenize fuel' rest
            end
          else if Ascii.eqb c "[" then
            match rest with
            | c' :: rest' =>
                if Ascii.eqb c' "^" then
                  let '(ranges, rest'') := parse_class rest' [] in
                  GClass true ranges :: tokenize fuel' rest''
                else
                  let '(ranges, rest'') := parse_class rest [] in
                  GClass false ranges :: tokenize fuel' rest''
            | [] => [GClass false []]
            end
          else GLit c :: tokenize fuel' rest
      end
  end.

Definition in_range (c : ascii) (r : ascii * ascii) : bool :=
  let lo := N.min (N_of_ascii (fst r)) (N_of_ascii (snd r)) in
  let hi := N.max (N_of_ascii (fst r)) (N_of_ascii (snd r)) in
  (N.leb lo (N_of_ascii c) && N.leb (N_of_ascii c) hi)%N.

Definition tok_accepts (t : gtok) (c : ascii) : bool :=
  match t with
  | GStar | GAny => true
  | GLit d => Ascii.eqb d c
  | GClass negated ranges => xorb negated (existsb (in_range c) ranges)
  end.

Fixpoint tmatch (ts : list gtok) : list ascii -> bool :=
  match ts with
  | [] => fun s => match s with [] => true | _ :: _ => false end
  | GStar :: ts' =>
      fix star (s : list ascii) : bool :=
        tmatch ts' s
        || match s with
           | [] => false
           | _ :: s' => star s'
           end
  | t :: ts' =>
      fun s =>
        match s with
        | [] => false
        | c :: s' => tok_accepts t c && tmatch ts' s'
        end
  end.

Local Close Scope char_scope.

Definition glob (pattern key : string) : bool :=
  let p := list_ascii_of_string pattern in
  tmatch (tokenize (length p) p) (list_ascii_of_string key).

(** *** What the client makes of a reply

    [@upstash/redis] hands every reply text to [JSON.parse] and returns the
    text itself where [JSON.parse] throws; each item of a list reply is
    read in the same way.  A JSON text is one value between optional white
    space, and a value begins with a brace, a bracket, a double quote, a
    minus sign, a digit, or is one of the words [null], [true], [false].
    So a text that begins otherwise is returned as it is and the three
    words are read as what they name; what the client returns for the
    remaining texts is the parameter [deserialize_json]. *)

Class Deserializer := deserialize_json : string -> jsval.

Definition json_space (c : ascii) : bool :=
  (Ascii.eqb c " " || Ascii.eqb c "009" || Ascii.eqb c "010" || Ascii.eqb c "013")%char.

Fixpoint json_trim_start (s : list ascii) : list ascii :=
  match s with
  | c :: rest => if json_space c then json_trim_start rest else s
  | [] => []
  end.

Definition json_trim (text : string) : string :=
  string_of_list_ascii
    (rev (json_trim_start (rev (json_trim_start (list_ascii_of_string text))))).

(** The characters that begin an object, an array, a string or a number. *)
Definition json_opener (c : ascii) : bool :=
  (Ascii.eqb c "{" || Ascii.eqb c "[" || Ascii.eqb c "034" || Ascii.eqb c "-"
   || (N.leb 48 (N_of_ascii c) && N.leb (N_of_ascii c) 57))%char.

Definition parseResponse `{Deserializer} (text : string) : jsval :=
  let body := json_trim text in
  if String.eqb body "null" then VNull
  else if String.eqb body "true" then VBool true
  else if String.eqb body "false" then VBool false
  else match body with
       | String c _ => if json_opener c then deserialize_json text else VString text
       | EmptyString => VString text
       end.

(** A text that is no JSON text by its first character: the client returns
    it as it is, whatever the parameter. *)
Definition not_json (text : string) : bool :=
  let body := json_trim text in
  negb (String.eqb body "null") && negb (String.eqb body "true")
  && negb (String.eqb body "false")
  && match body with
     | String c _ => negb (json_opener c)
     | EmptyString => true
     end.

(** What the client returns for a value that was written with [set]: a
    string was sent as it is, and its text is read as above; any other
    value (a JSON value: null, a boolean, a number, an array or an object)
    was sent as [JSON.stringify] prints it and is parsed back to itself. *)
Definition read_back `{Deserializer} (value : jsval) : jsval :=
  match value with
  | VString text => parseResponse text
  | _ => value
  end.

(** *** Client commands *)

Definition Z_of_bool (b : bool) : Z := if b then 1 else 0.

(** The sub-list selected by Redis start/stop indices (negative indices
    count from the end; both ends are inclusive). *)
Definition lindex (len i : Z) : Z := if i <? 0 then Z.max 0 (len + i) else i.

Definition lslice {A} (l : list A) (start stop : Z) : list A :=
  let len := Z.of_nat (length l) in
  let a := lindex len start in
  let b := Z.min (lindex len stop) (len - 1) in
  take (Z.to_nat (b - a + 1)) (drop (Z.to_nat a) l).

Fixpoint remove_first_n (n : nat) (x : string) (l : list string) : list string :=
  match n, l with
  | O, _ => l
  | _, [] => []
  | S n', y :: l' =>
      if String.eqb y x then remove_first_n n' x l' else y :: remove_first_n n x l'
  end.

Definition lrem_list (count : Z) (x : string) (l : list string) : list string :=
  if count =? 0 then filter (fun y => y <> x) l
  else if 0 <? count then remove_first_n (Z.to_nat count) x l
  else rev (remove_first_n (Z.to_nat (- count)) x (rev l)).

(** Store a list or a set back, dropping the key when it is empty. *)
Definition put_list (key : string) (l : list string) (m : gmap string rvalue)
  : gmap string rvalue :=
  match l with
  | [] => delete key m
  | _ :: _ => <[key := RList l]> m
  end.

Definition put_set (key : string) (s : gset string) (m : gmap string rvalue)
  : gmap string rvalue :=
  if decide (s = ∅) then delete key m else <[key := RSet s]> m.

(** The keys of the store that match a pattern.  (The adapters' patterns
    begin with [u:], so do the keys that match them, and the client returns
    such texts as they are.) *)
Definition matching_keys (pattern : string) (m : gmap string rvalue) : list string :=
  filter (fun k => glob pattern k = true) (map fst (map_to_list m)).

(** The store without the given keys. *)
Definition deleted (keys : list string) (w : world) : world :=
  with_kv (fun m => foldr delete m keys) w.

Module client.
Section Commands.
Context `{Deserializer}.

Definition get (key : string) : M world jsval := fun w =>
  match kv w !! key with
  | None => (Ok VNull, w)
  | Some (RString v) => (Ok (read_back v), w)
  | Some _ => (Throw WRONGTYPE, w)
  end.

Definition set (key : string) (value : jsval) : M world unit := fun w =>
  (Ok tt, with_kv (insert key (RString value)) w).

Definition del (keys : list string) : M world Z := fun w =>
  (Ok (Z.of_nat (length (filter (fun k => is_Some (kv w !! k)) (remove_dups keys)))),
   deleted keys w).

Definition exists_ (key : string) : M world Z := fun w =>
  (Ok (Z_of_bool (bool_decide (is_Some (kv w !! key)))), w).

Definition keys (pattern : string) : M world (list string) := fun w =>
  (Ok (matching_keys pattern (kv w)), w).

Definition mget (keys : list string) : M world (list jsval) := fun w =>
  (Ok (map (fun k => match kv w !! k with
                     | Some (RString v) => read_back v
                     | _ => VNull
                     end) keys), w).

Definition lrange (key : string) (start stop : Z) : M world (list jsval) :=
  fun w =>
    match kv w !! key with
    | None => (Ok [], w)
    | Some (RList l) => (Ok (map parseResponse (lslice l start stop)), w)
    | Some _ => (Throw WRONGTYPE, w)
    end.

Definition lrem (key : string) (count : Z) (value : string) : M world Z :=
  fun w =>
    match kv w !! key with
    | None => (Ok 0, w)
    | Some (RList l) =>
        let l' := lrem_list count value l in
        (Ok (Z.of_nat (length l) - Z.of_nat (length l')),
         with_kv (put_list key l') w)
    | Some _ => (Throw WRONGTYPE, w)
    end.

Definition lpush (key : string) (value : string) : M world Z := fun w =>
  match kv w !! key with
  | None => (Ok 1, with_kv (insert key (RList [value])) w)
  | Some (RList l) =>
      (Ok (Z.of_nat (length l) + 1), with_kv (insert key (RList (value :: l))) w)
  | Some _ => (Throw WRONGTYPE, w)
  end.

Definition ltrim (key : string) (start stop : Z) : M world unit := fun w =>
  match kv w !! key with
  | None => (Ok tt, w)
  | Some (RList l) => (Ok tt, with_kv (put_list key (lslice l start stop)) w)
  | Some _ => (Throw WRONGTYPE, w)
  end.

Definition sadd (key : string) (member : string) : M world Z := fun w =>
  match kv w !! key with
  | None => (Ok 1, with_kv (insert key (RSet {[member]})) w)
  | Some (RSet s) =>
      (Ok (Z_of_bool (negb (bool_decide (member ∈ s)))),
       with_kv (insert key (RSet ({[member]} ∪ s))) w)
  | Some _ => (Throw WRONGTYPE, w)
  end.

Definition srem (key : string) (member : string) : M world Z := fun w =>
  match kv w !! key with
  | None => (Ok 0, w)
  | Some (RSet s) =>
      (Ok (Z_of_bool (bool_decide (member ∈ s))),
       with_kv (put_set key (s ∖ {[member]})) w)
  | Some _ => (Throw WRONGTYPE, w)
  end.

Definition smembers (key : string) : M world (list jsval) := fun w =>
  match kv w !! key with
  | None => (Ok [], w)
  | Some (RSet s) => (Ok (map parseResponse (elements s)), w)
  | Some _ => (Throw WRONGTYPE, w)
  end.

End Commands.
End client.

(** ** Helpers shared by the two adapters *)

(** [s.replace(pat, '')] with a string pattern: the first occurrence of
    [pat] is removed. *)
Fixpoint replace_first (s pat : string) : string :=
  if String.prefix pat s then String.substring (String.length pat)
                                (String.length s - String.length pat) s
  else match s with
       | EmptyString => EmptyString
       | String c rest => String c (replace_first rest pat)
       end.

(** [obj[name] = value] on an object that was created by the literal [{}],
    seen as the map of its own properties: the name [__proto__] is the
    accessor inherited from [Object.prototype], so assigning to it replaces
    the prototype (or does nothing) and creates no own property. *)
Definition assign_property (name : string) (value : jsval) (obj : gmap string jsval)
  : gmap string jsval :=
  if String.eqb name "__proto__" then obj else <[name := value]> obj.

(** The loop that fills [result] in the [getAll...] methods:
    [if (v) result[k.replace(prefix, '')] = v].  (Backend B passes the
    stripped key through [ensureString], which leaves a string as it is.) *)
Definition collect (prefix : string) (keys : list string) (values : list jsval)
  : gmap string jsval :=
  foldl (fun result kvp =>
           if truthy (snd kvp)
           then assign_property (replace_first (fst kvp) prefix) (snd kvp) result
           else result)
        ∅ (zip keys values).

Fixpoint forEach {A} (l : list A) (body : A -> M world unit) : M world unit :=
  match l with
  | [] => ret tt
  | x :: rest => await_ body x ;; forEach rest body
  end.

Definition Date_now : M world Z := fun w => (Ok (now w), w).

Definition TypeError (msg : string) : JsError := Error msg.

(** [userData.password = newPassword] (module code is strict: assigning a
    property of a primitive throws).  An array takes the property, but
    [JSON.stringify] prints the items of an array only, so what [setUser]
    then writes is the array as it was. *)
Definition assign_password (userData : jsval) (newPassword : string)
  : M world jsval :=
  match userData with
  | VUserData u =>
      ret (VUserData {| username := username u; password := newPassword;
                        created_at := created_at u |})
  | VRecord r => ret (VRecord (assoc_set "password" (JString newPassword) r))
  | VSettings s =>
      ret (VRecord (assoc_set "password" (JString newPassword) (settings_fields s)))
  | VArray items => ret (VArray items)
  | VNull | VBool _ | VNumber _ | VString _ =>
      throw (TypeError "Cannot create property 'password'")
  end.

(** [userData.password === password] *)
Definition password_is (userData : jsval) (pwd : string) : bool :=
  match get_prop userData "password" with
  | Some (JString p) => String.eqb p pwd
  | _ => false
  end.

(** [if (query)] on an optional string argument. *)
Definition given (query : option string) : bool :=
  match query with
  | Some q => negb (String.eqb q EmptyString)
  | None => false
  end.

Definition is_empty {A} (l : list A) : bool :=
  match l with
  | [] => true
  | _ :: _ => false
  end.

(** ** Backend A: [KvrocksStorage] *)

Module KvrocksStorage.
Section Adapter.
Context `{Deserializer}.

Definition SEARCH_HISTORY_LIMIT : Z := 20.

(* ---------- play records ---------- *)
Definition prKey (user key : string) : string := "u:" +:+ user +:+ ":pr:" +:+ key.

Definition getPlayRecord (userName key : string) : M world jsval :=
  await val <- retry (client.get (prKey userName key)) ;;
  ret (if truthy val then val else VNull).

Definition setPlayRecord (userName key : string) (record : PlayRecord)
  : M world unit :=
  await_ retry (client.set (prKey userName key) (VRecord record)) ;;
  ret tt.

Definition getAllPlayRecords (userName : string) : M world (gmap string jsval) :=
  let pattern := "u:" +:+ userName +:+ ":pr:*" in
  await keys <- retry (client.keys pattern) ;;
  if is_empty keys then ret ∅
  else
    await values <- retry (client.mget keys) ;;
    ret (collect ("u:" +:+ userName +:+ ":pr:") keys values).

Definition deletePlayRecord (userName key : string) : M world unit :=
  await_ retry (client.del [prKey userName key]) ;;
  ret tt.

(* ---------- favourites ---------- *)
Definition favKey (user key : string) : string := "u:" +:+ user +:+ ":fav:" +:+ key.

Definition getFavorite (userName key : string) : M world jsval :=
  await val <- retry (client.get (favKey userName key)) ;;
  ret (if truthy val then val else VNull).

Definition setFavorite (userName key : string) (favorite : Favorite)
  : M world unit :=
  await_ retry (client.set (favKey userName key) (VRecord favorite)) ;;
  ret tt.

Definition getAllFavorites (userName : string) : M world (gmap string jsval) :=
  let pattern := "u:" +:+ userName +:+ ":fav:*" in
  await keys <- retry (client.keys pattern) ;;
  if is_empty keys then ret ∅
  else
    await values <- retry (client.mget keys) ;;
    ret (collect ("u:" +:+ userName +:+ ":fav:") keys values).

Definition deleteFavorite (userName key : string) : M world unit :=
  await_ retry (client.del [favKey userName key]) ;;
  ret tt.

(* ---------- search history ---------- *)
Definition searchHistoryKey (user : string) : string :=
  "u:" +:+ user +:+ ":search_history".

Definition getSearchHistory (userName : string) : M world (list string) :=
  await items <- retry (client.lrange (searchHistoryKey userName) 0 (-1)) ;;
  ret (ensureStringArray items).

Definition addSearchHistory (userName query : string) : M world unit :=
  let key := searchHistoryKey userName in
  retry (await_ client.lrem key 0 query ;;
         await_ client.lpush key query ;;
         await_ client.ltrim key 0 (SEARCH_HISTORY_LIMIT - 1) ;;
         ret tt).

Definition deleteSearchHistory (userName : string) (query : option string)
  : M world unit :=
  let key := searchHistoryKey userName in
  if given query
  then await_ retry (client.lrem key 0 (default EmptyString query)) ;; ret tt
  else await_ retry (client.del [key]) ;; ret tt.

(* ---------- skip configs ---------- *)
Definition skipConfigKey (userName key : string) : string :=
  "u:" +:+ userName +:+ ":skip_config:" +:+ key.

Definition getSkipConfig (userName key : string) : M world jsval :=
  await val <- retry (client.get (skipConfigKey userName key)) ;;
  ret (if truthy val then val else VNull).

Definition setSkipConfig (userName key : string) (config : EpisodeSkipConfig)
  : M world unit :=
  await_ retry (client.set (skipConfigKey userName key) (VRecord config)) ;;
  ret tt.

Definition deleteSkipConfig (userName key : string) : M world unit :=
  await_ retry (client.del [skipConfigKey userName key]) ;;
  ret tt.

Definition getAllSkipConfigs (userName : string) : M world (gmap string jsval) :=
  let pattern := "u:" +:+ userName +:+ ":skip_config:*" in
  await keys <- retry (client.keys pattern) ;;
  if is_empty keys then ret ∅
  else
    await values <- retry (client.mget keys) ;;
    ret (collect ("u:" +:+ userName +:+ ":skip_config:") keys values).

(* ---------- users ---------- *)
Definition userKey (userName : string) : string := "user:" +:+ userName.
Definition userListKey : string := "user_list".

Definition getUser (userName : string) : M world jsval :=
  await val <- retry (client.get (userKey userName)) ;;
  ret (if truthy val then val else VNull).

Definition setUser (userName : string) (userData : jsval) : M world unit :=
  retry (await_ client.set (userKey userName) userData ;;
         await_ client.sadd userListKey userName ;;
         ret tt).

Definition registerUser (userName pwd : string) : M world unit :=
  await t <- Date_now ;;
  let userData :=
    VUserData {| username := userName; password := pwd; created_at := t |} in
  setUser userName userData.

Definition verifyUser (userName pwd : string) : M world jsval :=
  await userData <- getUser userName ;;
  ret (if truthy userData then VBool (password_is userData pwd) else userData).

Definition checkUserExist (userName : string) : M world bool :=
  await userData <- getUser userName ;;
  ret (match userData with VNull => false | _ => true end).

Definition changePassword (userName newPassword : string) : M world unit :=
  await userData <- getUser userName ;;
  if truthy userData
  then await userData' <- assign_password userData newPassword ;;
       setUser userName userData'
  else ret tt.

Definition deleteUser (userName : string) : M world unit :=
  retry (await_ client.del [userKey userName] ;;
         await_ client.srem userListKey userName ;;
         let patterns :=
           [ "u:" +:+ userName +:+ ":pr:*";
             "u:" +:+ userName +:+ ":fav:*";
             "u:" +:+ userName +:+ ":search_history";
             "u:" +:+ userName +:+ ":skip_config:*" ] in
         forEach patterns (fun pattern =>
           await keys <- client.keys pattern ;;
           if is_empty keys then ret tt
           else await_ client.del keys ;; ret tt)).

(* ---------- admin config ---------- *)
Definition adminConfigKey : string := "admin_config".

Definition getAdminConfig : M world jsval :=
  await val <- retry (client.get adminConfigKey) ;;
  ret (if truthy val then val else VNull).

Definition setAdminConfig (config : AdminConfig) : M world unit :=
  await_ retry (client.set adminConfigKey (VRecord config)) ;;
  ret tt.

(* ---------- user settings ---------- *)
Definition userSettingsKey (userName : string) : string :=
  "u:" +:+ userName +:+ ":settings".

Definition getUserSettings (userName : string) : M world jsval :=
  await val <- retry (client.get (userSettingsKey userName)) ;;
  ret (if truthy val then val else VNull).

Definition setUserSettings (userName : string) (settings : UserSettings)
  : M world unit :=
  await_ retry (client.set (userSettingsKey userName) (VSettings settings)) ;;
  ret tt.

Definition defaultSettings : UserSettings :=
  {| filter_adult_content := true;
     theme := "auto";
     language := "zh-CN";
     auto_play := false;
     video_quality := "auto" |}.

Definition updateUserSettings (userName : string) (settings : PartialUserSettings)
  : M world unit :=
  await current <- getUserSettings userName ;;
  let updated := mergeUserSettings defaultSettings (as_current current) settings in
  setUserSettings userName updated.

End Adapter.
End KvrocksStorage.

(** ** Backend B: [RedisStorage] *)

Module RedisStorage.
Section Adapter.
Context `{Deserializer}.

Definition SEARCH_HISTORY_LIMIT : Z := 20.

(* ---------- play records ---------- *)
Definition prKey (user key : string) : string := "u:" +:+ user +:+ ":pr:" +:+ key.

Definition getPlayRecord (userName key : string) : M world jsval :=
  await val <- retry (client.get (prKey userName key)) ;;
  ret (if truthy val then val else VNull).

Definition setPlayRecord (userName key : string) (record : PlayRecord)
  : M world unit :=
  await_ retry (client.set (prKey userName key) (VRecord record)) ;;
  ret tt.

Definition getAllPlayRecords (userName : string) : M world (gmap string jsval) :=
  let pattern := "u:" +:+ userName +:+ ":pr:*" in
  await keys <- retry (client.keys pattern) ;;
  if is_empty keys then ret ∅
  else
    await values <- retry (client.mget keys) ;;
    ret (collect ("u:" +:+ userName +:+ ":pr:") keys values).

Definition deletePlayRecord (userName key : string) : M world unit :=
  await_ retry (client.del [prKey userName key]) ;;
  ret tt.

(* ---------- favourites ---------- *)
Definition favKey (user key : string) : string := "u:" +:+ user +:+ ":fav:" +:+ key.

Definition getFavorite (userName key : string) : M world jsval :=
  await val <- retry (client.get (favKey userName key)) ;;
  ret (if truthy val then val else VNull).

Definition setFavorite (userName key : string) (favorite : Favorite)
  : M world unit :=
  await_ retry (client.set (favKey userName key) (VRecord favorite)) ;;
  ret tt.

Definition getAllFavorites (userName : string) : M world (gmap string jsval) :=
  let pattern := "u:" +:+ userName +:+ ":fav:*" in
  await keys <- retry (client.keys pattern) ;;
  if is_empty keys then ret ∅
  else
    await values <- retry (client.mget keys) ;;
    ret (collect ("u:" +:+ userName +:+ ":fav:") keys values).

Definition deleteFavorite (userName key : string) : M world unit :=
  await_ retry (client.del [favKey userName key]) ;;
  ret tt.

(* ---------- key builders used before their declaration ---------- *)
Definition userPwdKey (user : string) : string := "u:" +:+ user +:+ ":pwd".
Definition shKey (user : string) : string := "u:" +:+ user +:+ ":sh".
Definition userSettingsKey (user : string) : string := "u:" +:+ user +:+ ":settings".

(* ---------- register / login ---------- *)
Definition registerUser (userName pwd : string) : M world unit :=
  await_ retry (client.set (userPwdKey userName) (VString pwd)) ;;
  ret tt.

Definition verifyUser (userName pwd : string) : M world bool :=
  await stored <- retry (client.get (userPwdKey userName)) ;;
  ret (if truthy stored then String.eqb (ensureString stored) pwd else false).

Definition checkUserExist (userName : string) : M world bool :=
  await exists_ <- retry (client.exists_ (userPwdKey userName)) ;;
  ret (exists_ =? 1).

Definition changePassword (userName newPassword : string) : M world unit :=
  await_ retry (client.set (userPwdKey userName) (VString newPassword)) ;;
  ret tt.

Definition deleteUser (userName : string) : M world unit :=
  await_ retry (client.del [userPwdKey userName]) ;;
  await_ retry (client.del [shKey userName]) ;;
  let playRecordPattern := "u:" +:+ userName +:+ ":pr:*" in
  await playRecordKeys <- retry (client.keys playRecordPattern) ;;
  await_ (if is_empty playRecordKeys then ret tt
          else await_ retry (client.del playRecordKeys) ;; ret tt) ;;
  let favoritePattern := "u:" +:+ userName +:+ ":fav:*" in
  await favoriteKeys <- retry (client.keys favoritePattern) ;;
  await_ (if is_empty favoriteKeys then ret tt
          else await_ retry (client.del favoriteKeys) ;; ret tt) ;;
  await_ retry (client.del [userSettingsKey userName]) ;;
  ret tt.

(* ---------- user settings ---------- *)
Definition defaultSettings : UserSettings :=
  {| filter_adult_content := true;
     theme := "auto";
     language := "zh-CN";
     auto_play := true;
     video_quality := "auto" |}.

Definition getUserSettings (userName : string) : M world jsval :=
  await data <- retry (client.get (userSettingsKey userName)) ;;
  if truthy data then ret data
  else ret (VSettings defaultSettings).

Definition setUserSettings (userName : string) (settings : UserSettings)
  : M world unit :=
  await_ retry (client.set (userSettingsKey userName) (VSettings settings)) ;;
  ret tt.

Definition updateUserSettings (userName : string) (settings : PartialUserSettings)
  : M world unit :=
  await current <- getUserSettings userName ;;
  let updated := mergeUserSettings defaultSettings (as_current current) settings in
  setUserSettings userName updated.

(* ---------- search history ---------- *)
Definition getSearchHistory (userName : string) : M world (list string) :=
  await list <- retry (client.lrange (shKey userName) 0 (-1)) ;;
  ret (ensureStringArray list).

Definition addSearchHistory (userName keyword : string) : M world unit :=
  let key := shKey userName in
  await_ retry (client.lrem key 0 keyword) ;;
  await_ retry (client.lpush key keyword) ;;
  await_ retry (client.ltrim key 0 (SEARCH_HISTORY_LIMIT - 1)) ;;
  ret tt.

Definition deleteSearchHistory (userName : string) (keyword : option string)
  : M world unit :=
  let key := shKey userName in
  if given keyword
  then await_ retry (client.lrem key 0 (default EmptyString keyword)) ;; ret tt
  else await_ retry (client.del [key]) ;; ret tt.

(* ---------- admin config ---------- *)
Definition adminConfigKey : string := "admin:config".

Definition getAdminConfig : M world jsval :=
  await val <- retry (client.get adminConfigKey) ;;
  ret (if truthy val then val else VNull).

Definition setAdminConfig (config : AdminConfig) : M world unit :=
  await_ retry (client.set adminConfigKey (VRecord config)) ;;
  ret tt.

(* ---------- skip configs ---------- *)
Definition skipConfigKey (userName key : string) : string :=
  "katelyatv:skip_config:" +:+ userName +:+ ":" +:+ key.
Definition skipConfigsKey (userName : string) : string :=
  "katelyatv:skip_configs:" +:+ userName.

Definition getSkipConfig (userName key : string) : M world jsval :=
  await data <- retry (client.get (skipConfigKey userName key)) ;;
  ret (if truthy data then data else VNull).

Definition setSkipConfig (userName key : string) (config : EpisodeSkipConfig)
  : M world unit :=
  retry (await_ client.set (skipConfigKey userName key) (VRecord config) ;;
         await_ client.sadd (skipConfigsKey userName) key ;;
         ret tt).

(** [for (const k of keys) { ...; if (data) configs[k] = data }]; a member
    that is no string is turned into one where it is put into the key
    template and where it names the property. *)
Fixpoint collectConfigs (userName : string) (keys : list jsval)
    (configs : gmap string jsval) : M world (gmap string jsval) :=
  match keys with
  | [] => ret configs
  | k :: rest =>
      await data <- retry (client.get (skipConfigKey userName (ensureString k))) ;;
      collectConfigs userName rest
        (if truthy data then assign_property (ensureString k) data configs
         else configs)
  end.

Definition getAllSkipConfigs (userName : string) : M world (gmap string jsval) :=
  await keys <- retry (client.smembers (skipConfigsKey userName)) ;;
  collectConfigs userName keys ∅.

Definition deleteSkipConfig (userName key : string) : M world unit :=
  retry (await_ client.del [skipConfigKey userName key] ;;
         await_ client.srem (skipConfigsKey userName) key ;;
         ret tt).

End Adapter.
End RedisStorage.

Definition empty_world : world := {| kv := ∅; timers := []; now := 0 |}.

(** State after a call, whatever it returned. *)
Definition after {A} (c : M world A) (w : world) : world := snd (c w).
Definition value_of {A} (c : M world A) (w : world) : result A := fst (c w).

(** ** Observing a run of [withRetry]

    To count attempts and waits, the wrapped operation and the timer are
    instrumented with a log: the state becomes a pair of the original state
    and the list of events so far.  [withRetry] itself is unchanged. *)

Inductive event (A : Type) : Type :=
  | EvAttempt (outcome : result A)
  | EvWait (ms : Z).
Arguments EvAttempt {A} outcome.
Arguments EvWait {A} ms.

Definition traced {St A} (operation : M St A) : M (St * list (event A)) A :=
  fun sl =>
    match operation (fst sl) with
    | (r, s') => (r, (s', (snd sl ++ [EvAttempt r])%list))
    end.

Definition traced_sleeper {St A} {timer : Sleeper St} : Sleeper (St * list (event A)) :=
  fun ms sl => (setTimeout_wait ms (fst sl), (snd sl ++ [EvWait ms])%list).

Definition attempts {A} (log : list (event A)) : nat :=
  fold_right (fun ev n => match ev with EvAttempt _ => S n | EvWait _ => n end)
    O log.

Definition total_wait {A} (log : list (event A)) : Z :=
  fold_right (fun ev acc => match ev with EvWait ms => ms + acc | EvAttempt _ => acc end)
    0 log.

Definition not_transient {A} (r : result A) : Prop :=
  match r with
  | Ok _ => True
  | Throw err => isConnectionError err = false
  end.

(** The three possible runs under the default cap, with the value returned. *)
Definition default_run {A} (log : list (event A)) (r : result A) : Prop :=
  match log with
  | [EvAttempt o1] => r = o1 /\ not_transient o1
  | [EvAttempt (Throw e1); EvWait d1; EvAttempt o2] =>
      isConnectionError e1 = true /\ d1 = 1000 /\ r = o2 /\ not_transient o2
  | [EvAttempt (Throw e1); EvWait d1; EvAttempt (Throw e2); EvWait d2; EvAttempt o3] =>
      isConnectionError e1 = true /\ d1 = 1000 /\
      isConnectionError e2 = true /\ d2 = 2000 /\ r = o3
  | _ => False
  end.

(** An operation whose failures are never connection errors. *)
Definition steady {St A} (operation : M St A) : Prop :=
  forall s err s', operation s = (Throw err, s') -> isConnectionError err = false.

(** ** Vocabulary for the statements *)

(** The five settings fields and the values they hold. *)
Inductive field : Type :=
  | FilterAdultContent
  | Theme
  | Language
  | AutoPlay
  | VideoQuality.

Inductive fvalue : Type :=
  | FBool (b : bool)
  | FString (s : string).

Definition field_of (f : field) (s : UserSettings) : fvalue :=
  match f with
  | FilterAdultContent => FBool (filter_adult_content s)
  | Theme => FString (theme s)
  | Language => FString (language s)
  | AutoPlay => FBool (auto_play s)
  | VideoQuality => FString (video_quality s)
  end.

Definition partial_field_of (f : field) (p : PartialUserSettings) : option fvalue :=
  match f with
  | FilterAdultContent => FBool <$> p_filter_adult_content p
  | Theme => FString <$> p_theme p
  | Language => FString <$> p_language p
  | AutoPlay => FBool <$> p_auto_play p
  | VideoQuality => FString <$> p_video_quality p
  end.

(** The precedence rule in the words of the specification: the value of
    [partial] if defined, else the value of [current] if [current] exists
    and has the field, else the default. *)
Definition resolved (f : field) (defaults : UserSettings)
    (current : option PartialUserSettings) (partial : PartialUserSettings)
  : fvalue :=
  match partial_field_of f partial with
  | Some v => v
  | None =>
      match current with
      | Some c =>
          match partial_field_of f c with
          | Some v => v
          | None => field_of f defaults
          end
      | None => field_of f defaults
      end
  end.

Definition no_update : PartialUserSettings :=
  {| p_filter_adult_content := None; p_theme := None; p_language := None;
     p_auto_play := None; p_video_quality := None |}.

Definition only_theme (t : string) : PartialUserSettings :=
  {| p_filter_adult_content := None; p_theme := Some t; p_language := None;
     p_auto_play := None; p_video_quality := None |}.

(** What a string key holds, if it holds a string value. *)
Definition stored (w : world) (key : string) : option jsval :=
  match kv w !! key with
  | Some (RString v) => Some v
  | _ => None
  end.

(** The list held by a key (empty when the key is absent). *)
Definition list_at (w : world) (key : string) : list string :=
  match kv w !! key with
  | Some (RList l) => l
  | _ => []
  end.

(** The set held by a key (empty when the key is absent). *)
Definition set_at (w : world) (key : string) : gset string :=
  match kv w !! key with
  | Some (RSet s) => s
  | _ => ∅
  end.

(** A key that a list (resp. set) command accepts. *)
Definition list_or_free (w : world) (key : string) : Prop :=
  match kv w !! key with
  | None | Some (RList _) => True
  | Some _ => False
  end.

Definition set_or_free (w : world) (key : string) : Prop :=
  match kv w !! key with
  | None | Some (RSet _) => True
  | Some _ => False
  end.

(** *** Search-history calls *)

Inductive hist_call : Type :=
  | Add (query : string)
  | Delete (query : option string).

Definition kvrocks_call `{Deserializer} (userName : string) (c : hist_call) : M world unit :=
  match c with
  | Add q => KvrocksStorage.addSearchHistory userName q
  | Delete q => KvrocksStorage.deleteSearchHistory userName q
  end.

Definition redis_call `{Deserializer} (userName : string) (c : hist_call) : M world unit :=
  match c with
  | Add q => RedisStorage.addSearchHistory userName q
  | Delete q => RedisStorage.deleteSearchHistory userName q
  end.

(** The effect of one call on the stored list: [addSearchHistory] removes
    the query, pushes it at the head and trims to the limit;
    [deleteSearchHistory] removes one query, or the whole list when no
    (or an empty) query is given. *)
Definition hist_step (h : list string) (c : hist_call) : list string :=
  match c with
  | Add q => take 20 (q :: filter (fun y => y <> q) h)
  | Delete q =>
      if given q then filter (fun y => y <> default EmptyString q) h else []
  end.

Definition hist_after (calls : list hist_call) : list string :=
  fold_left hist_step calls [].

(** The text that [getSearchHistory] returns for a stored query: the client
    reads the stored text, and [ensureStringArray] makes a string of what
    the client made of it. *)
Definition shown `{Deserializer} (query : string) : string :=
  ensureString (parseResponse query).

Definition set_list (key : string) (l : list string) (w : world) : world :=
  with_kv (put_list key l) w.

(** The position (counted from 1) of the last [Add q] among the calls made
    so far; 0 when [q] was never added. *)
Fixpoint last_added_from (n : nat) (calls : list hist_call) (q : string) : nat :=
  match calls with
  | [] => O
  | c :: rest =>
      match last_added_from (S n) rest q with
      | O => match c with
             | Add q' => if String.eqb q' q then S n else O
             | Delete _ => O
             end
      | S m => S m
      end
  end.

Definition last_added (calls : list hist_call) (q : string) : nat :=
  last_added_from 0 calls q.

(** Most-recent-first: every entry was added at some point, and an entry
    that comes earlier in the list was last added later. *)
Definition recent_first (calls : list hist_call) (h : list string) : Prop :=
  forall i j a b,
    h !! i = Some a -> h !! j = Some b -> (i < j)%nat ->
    (0 < last_added calls b < last_added calls a)%nat.

(** The invariant carried along a sequence of calls. *)
Definition hist_inv (calls : list hist_call) (h : list string) : Prop :=
  (length h <= 20)%nat
  /\ NoDup h
  /\ Forall (fun a => (0 < last_added calls a)%nat) h
  /\ StronglySorted (fun a b => (last_added calls b < last_added calls a)%nat) h.

(** *** Cascading deletion *)

(** No key of the store matches the pattern. *)
Definition gone (pattern : string) (w : world) : Prop :=
  forall k, glob pattern k = true -> kv w !! k = None.

(** The second store has no key that the first one lacks. *)
Definition no_new_keys (w w' : world) : Prop :=
  forall k, kv w !! k = None -> kv w' !! k = None.

(** Characters with a special meaning in a [KEYS] pattern. *)
Definition is_meta (c : ascii) : bool :=
  (Ascii.eqb c "*" || Ascii.eqb c "?" || Ascii.eqb c "[" || Ascii.eqb c "\")%char.

Definition plain (s : string) : bool :=
  forallb (fun c => negb (is_meta c)) (list_ascii_of_string s).

(** *** Skip-config index of backend B *)

Definition index_exact (w : world) (userName : string) : Prop :=
  set_or_free w (RedisStorage.skipConfigsKey userName)
  /\ forall k, k ∈ set_at w (RedisStorage.skipConfigsKey userName)
               <-> is_Some (kv w !! RedisStorage.skipConfigKey userName k).

(** *** Stores that backend B can produce *)

(** The calls of [RedisStorage] that write. *)
Inductive redis_write : Type :=
  | SetPlayRecord (u k : string) (r : PlayRecord)
  | DeletePlayRecord (u k : string)
  | SetFavorite (u k : string) (r : Favorite)
  | DeleteFavorite (u k : string)
  | RegisterUser (u p : string)
  | ChangePassword (u p : string)
  | DeleteUser (u : string)
  | SetUserSettings (u : string) (s : UserSettings)
  | UpdateUserSettings (u : string) (p : PartialUserSettings)
  | AddSearchHistory (u q : string)
  | DeleteSearchHistory (u : string) (q : option string)
  | SetAdminConfig (c : AdminConfig)
  | SetSkipConfig (u k : string) (c : EpisodeSkipConfig)
  | DeleteSkipConfig (u k : string).

Definition redis_do `{Deserializer} (c : redis_write) : M world unit :=
  match c with
  | SetPlayRecord u k r => RedisStorage.setPlayRecord u k r
  | DeletePlayRecord u k => RedisStorage.deletePlayRecord u k
  | SetFavorite u k r => RedisStorage.setFavorite u k r
  | DeleteFavorite u k => RedisStorage.deleteFavorite u k
  | RegisterUser u p => RedisStorage.registerUser u p
  | ChangePassword u p => RedisStorage.changePassword u p
  | DeleteUser u => RedisStorage.deleteUser u
  | SetUserSettings u s => RedisStorage.setUserSettings u s
  | UpdateUserSettings u p => RedisStorage.updateUserSettings u p
  | AddSearchHistory u q => RedisStorage.addSearchHistory u q
  | DeleteSearchHistory u q => RedisStorage.deleteSearchHistory u q
  | SetAdminConfig c => RedisStorage.setAdminConfig c
  | SetSkipConfig u k c => RedisStorage.setSkipConfig u k c
  | DeleteSkipConfig u k => RedisStorage.deleteSkipConfig u k
  end.

(** The store after a series of calls; a call that throws keeps the
    writes it made before throwing. *)
Definition redis_store `{Deserializer} (calls : list redis_write) : world :=
  fold_left (fun w c => after (redis_do c) w) calls empty_world.

(** Every skip-config index key holds a set or nothing. *)
Definition indexes_ok (w : world) : Prop :=
  forall u, set_or_free w (RedisStorage.skipConfigsKey u).

(** A computation that keeps [indexes_ok], however it ends. *)
Definition keeps_indexes {A} (c : M world A) : Prop :=
  forall w, indexes_ok w -> indexes_ok (snd (c w)).

(** A key that is no skip-config index key. *)
Definition not_index (key : string) : Prop :=
  forall u, key <> RedisStorage.skipConfigsKey u.

(** *** Sample data of the scenarios *)

Definition sample_config : EpisodeSkipConfig :=
  [ ("introEnd", JNumber 90); ("outroStart", JNumber 1300) ].

Definition ECONNRESET : JsError :=
  {| message := Some "socket hang up"; code := Some "ECONNRESET" |}.

(** An operation that fails with ECONNRESET until two waits have been
    made, and then reads a key. *)
Definition flaky_get `{Deserializer} (key : string) : M world jsval := fun w =>
  if (length (timers w) <? 2)%nat then (Throw ECONNRESET, w)
  else client.get key w.

(** ** Further vocabulary *)

(** A computation that changes no key outside [K], however it ends. *)
Definition writes_within (K : string -> Prop) {A} (c : M world A) : Prop :=
  forall w k, ~ K k -> kv (snd (c w)) !! k = kv w !! k.

(** A computation that creates no key, however it ends. *)
Definition creates_nothing {A} (c : M world A) : Prop :=
  forall w, no_new_keys w (snd (c w)).

(** The field-wise effect of a partial update on a stored record. *)
Definition updated_field (f : field) (s : UserSettings) (p : PartialUserSettings)
  : fvalue :=
  match partial_field_of f p with
  | Some v => v
  | None => field_of f s
  end.

(** The keys that the cascade of [deleteUser] can delete or change. *)
Definition kvrocks_cascade (u : string) (k : string) : Prop :=
  k = KvrocksStorage.userKey u
  \/ k = KvrocksStorage.userListKey
  \/ glob ("u:" +:+ u +:+ ":pr:*") k = true
  \/ glob ("u:" +:+ u +:+ ":fav:*") k = true
  \/ glob ("u:" +:+ u +:+ ":search_history") k = true
  \/ glob ("u:" +:+ u +:+ ":skip_config:*") k = true.

Definition redis_cascade (u : string) (k : string) : Prop :=
  k = RedisStorage.userPwdKey u
  \/ k = RedisStorage.shKey u
  \/ glob ("u:" +:+ u +:+ ":pr:*") k = true
  \/ glob ("u:" +:+ u +:+ ":fav:*") k = true
  \/ k = RedisStorage.userSettingsKey u.


(** *** Users and their keys *)

(** A user name without the separator of the key scheme. *)
Definition colon_free (s : string) : bool :=
  forallb (fun c => negb (Ascii.eqb c ":")) (list_ascii_of_string s).

(** The user on whose behalf a call writes (none for the admin config). *)
Definition caller (c : redis_write) : option string :=
  match c with
  | SetPlayRecord u _ _ | DeletePlayRecord u _
  | SetFavorite u _ _ | DeleteFavorite u _
  | RegisterUser u _ | ChangePassword u _ | DeleteUser u
  | SetUserSettings u _ | UpdateUserSettings u _
  | AddSearchHistory u _ | DeleteSearchHistory u _
  | SetSkipConfig u _ _ | DeleteSkipConfig u _ => Some u
  | SetAdminConfig _ => None
  end.

(** [deleteUser] builds [KEYS] patterns from the user name; the other calls
    use it in literal keys only. *)
Definition pattern_safe (c : redis_write) : Prop :=
  match c with
  | DeleteUser u => plain u = true
  | _ => True
  end.

(** The same calls on backend A: the two classes implement one interface. *)
Definition kvrocks_do `{Deserializer} (c : redis_write) : M world unit :=
  match c with
  | SetPlayRecord u k r => KvrocksStorage.setPlayRecord u k r
  | DeletePlayRecord u k => KvrocksStorage.deletePlayRecord u k
  | SetFavorite u k r => KvrocksStorage.setFavorite u k r
  | DeleteFavorite u k => KvrocksStorage.deleteFavorite u k
  | RegisterUser u p => KvrocksStorage.registerUser u p
  | ChangePassword u p => KvrocksStorage.changePassword u p
  | DeleteUser u => KvrocksStorage.deleteUser u
  | SetUserSettings u s => KvrocksStorage.setUserSettings u s
  | UpdateUserSettings u p => KvrocksStorage.updateUserSettings u p
  | AddSearchHistory u q => KvrocksStorage.addSearchHistory u q
  | DeleteSearchHistory u q => KvrocksStorage.deleteSearchHistory u q
  | SetAdminConfig c => KvrocksStorage.setAdminConfig c
  | SetSkipConfig u k c => KvrocksStorage.setSkipConfig u k c
  | DeleteSkipConfig u k => KvrocksStorage.deleteSkipConfig u k
  end.

(** The keys a call can change, read off its body. *)
Definition redis_footprint (c : redis_write) (k : string) : Prop :=
  match c with
  | SetPlayRecord u x _ | DeletePlayRecord u x => k = RedisStorage.prKey u x
  | SetFavorite u x _ | DeleteFavorite u x => k = RedisStorage.favKey u x
  | RegisterUser u _ | ChangePassword u _ => k = RedisStorage.userPwdKey u
  | DeleteUser u => redis_cascade u k
  | SetUserSettings u _ | UpdateUserSettings u _ => k = RedisStorage.userSettingsKey u
  | AddSearchHistory u _ | DeleteSearchHistory u _ => k = RedisStorage.shKey u
  | SetAdminConfig _ => k = RedisStorage.adminConfigKey
  | SetSkipConfig u x _ | DeleteSkipConfig u x =>
      k = RedisStorage.skipConfigKey u x \/ k = RedisStorage.skipConfigsKey u
  end.

Definition kvrocks_footprint (c : redis_write) (k : string) : Prop :=
  match c with
  | SetPlayRecord u x _ | DeletePlayRecord u x => k = KvrocksStorage.prKey u x
  | SetFavorite u x _ | DeleteFavorite u x => k = KvrocksStorage.favKey u x
  | RegisterUser u _ | ChangePassword u _ =>
      k = KvrocksStorage.userKey u \/ k = KvrocksStorage.userListKey
  | DeleteUser u => kvrocks_cascade u k
  | SetUserSettings u _ | UpdateUserSettings u _ => k = KvrocksStorage.userSettingsKey u
  | AddSearchHistory u _ | DeleteSearchHistory u _ => k = KvrocksStorage.searchHistoryKey u
  | SetAdminConfig _ => k = KvrocksStorage.adminConfigKey
  | SetSkipConfig u x _ | DeleteSkipConfig u x => k = KvrocksStorage.skipConfigKey u x
  end.

(** The keys that belong to a user. *)
Definition redis_owned (u k : string) : Prop :=
  (exists rest, k = "u:" +:+ u +:+ ":" +:+ rest)
  \/ (exists x, k = RedisStorage.skipConfigKey u x)
  \/ k = RedisStorage.skipConfigsKey u.

Definition kvrocks_owned (u k : string) : Prop :=
  (exists rest, k = "u:" +:+ u +:+ ":" +:+ rest)
  \/ k = KvrocksStorage.userKey u.

(** A computation that keeps every member of the user list of backend A
    other than [u], and adds none. *)
Definition keeps_other_users (u : string) {A} (c : M world A) : Prop :=
  forall w v, v <> u ->
    (v ∈ set_at (snd (c w)) KvrocksStorage.userListKey
     <-> v ∈ set_at w KvrocksStorage.userListKey).

(** *** Enumerations *)

(** What [mget] answers for one key. *)
Definition mget_value `{Deserializer} (w : world) (k : string) : jsval :=
  match kv w !! k with
  | Some (RString v) => read_back v
  | _ => VNull
  end.

(** What a read of the key returns, where it holds a string value. *)
Definition reads `{Deserializer} (w : world) (key : string) (v : jsval) : Prop :=
  exists written, stored w key = Some written /\ v = read_back written.

(** The map holds, under each sub-key other than [__proto__], the truthy
    value read at the key built from it, and nothing else. *)
Definition lists_exactly `{Deserializer} (w : world) (key_of : string -> string)
    (m : gmap string jsval) : Prop :=
  forall x v,
    m !! x = Some v
    <-> x <> "__proto__" /\ reads w (key_of x) v /\ truthy v = true.

(** A key that [get] accepts. *)
Definition string_or_free (w : world) (key : string) : Prop :=
  match kv w !! key with
  | None | Some (RString _) => True
  | Some _ => False
  end.

(** ** Listing the users *)

(** [try { body } catch { handler }] *)
Definition try_catch {St A} (body : M St A) (handler : JsError -> M St A) : M St A :=
  fun s =>
    match body s with
    | (Ok a, s') => (Ok a, s')
    | (Throw err, s') => handler err s'
    end.

(** [process.env.NAME || fallback]: an unset or empty variable gives the
    fallback. *)
Definition env_or (value : option string) (fallback : string) : string :=
  match value with
  | Some s => if String.eqb s EmptyString then fallback else s
  | None => fallback
  end.

(** Truthiness of a property value. *)
Definition json_truthy (x : json) : bool :=
  match x with
  | JNull => false
  | JBool b => b
  | JNumber n => negb (n =? 0)
  | JString s => negb (String.eqb s EmptyString)
  | JArray _ | JObject _ => true
  end.

(** [{ username, role, created_at }].  The declared type of [username] is
    [string]; backend B puts there what its regular expression captured,
    backend A what the client returned for a member of the user list. *)
Record UserOf (Name : Type) : Type := mkUser {
  user_username : Name;
  user_role : string;
  user_created_at : string;
}.
Arguments mkUser {Name} user_username user_role user_created_at.
Arguments user_username {Name} u.
Arguments user_role {Name} u.
Arguments user_created_at {Name} u.

Definition User : Type := UserOf string.

Definition RangeError (msg : string) : JsError := Error msg.

(** [Promise.all(l.map(async (x) => f x))].  The callbacks of the two
    adapters only read the store, so they are run one after the other, in
    the order of the list, which is the order of the results. *)
Fixpoint Promise_all_map {A B} (f : A -> M world B) (l : list A) : M world (list B) :=
  match l with
  | [] => ret []
  | x :: rest =>
      await y <- f x ;;
      await ys <- Promise_all_map f rest ;;
      ret (y :: ys)
  end.

Fixpoint strip_prefix (p s : list ascii) : option (list ascii) :=
  match p, s with
  | [], _ => Some s
  | _ :: _, [] => None
  | a :: p', b :: s' => if Ascii.eqb a b then strip_prefix p' s' else None
  end.

Definition strip_suffix (p s : list ascii) : option (list ascii) :=
  @rev ascii <$> strip_prefix (rev p) (rev s).

(** The characters that [.] does not match in a regular expression
    (strings are sequences of 8-bit characters here, so of the four line
    terminators only LF and CR occur). *)
Definition is_line_terminator (c : ascii) : bool :=
  Ascii.eqb c "010"%char || Ascii.eqb c "013"%char.

(** A user name that the regular expression of [getAllUsers] can capture. *)
Definition capturable (s : list ascii) : bool :=
  negb (is_empty s) && forallb (fun c => negb (is_line_terminator c)) s.

(** [k.match(/^u:(.+?):pwd$/)], then [match[1]].  Both ends are anchored,
    so the lazy group can only capture what lies between the prefix [u:]
    and the suffix [:pwd]; it has to be non-empty and free of line
    terminators. *)
Definition match_pwd_key (k : string) : option string :=
  match strip_prefix (list_ascii_of_string "u:") (list_ascii_of_string k) with
  | Some rest =>
      match strip_suffix (list_ascii_of_string ":pwd") rest with
      | Some mid => if capturable mid then Some (string_of_list_ascii mid) else None
      | None => None
      end
  | None => None
  end.

Section AllUsers.
Context `{Deserializer}.

(** [new Date(x).toISOString()], which throws a [RangeError] on an invalid
    date ([None]); [parseInt], which returns [NaN] ([None]) where no number
    is read; and [process.env.USERNAME]. *)
Variable toISOString : json -> option string.
Variable parseInt : string -> option Z.
Variable USERNAME : option string.

Definition ownerUsername : string := env_or USERNAME "admin".

Definition role_of (username : string) : string :=
  if String.eqb username ownerUsername then "owner" else "user".

Definition Date_toISOString (x : json) : M world string :=
  match toISOString x with
  | Some iso => ret iso
  | None => throw (RangeError "Invalid time value")
  end.

(** [username === ownerUsername] on a member as the client returned it:
    only a string is identical to the owner's name. *)
Definition role_of_member (username : jsval) : string :=
  match username with
  | VString name => role_of name
  | _ => "user"
  end.

(** Backend A: the [try] block of the callback.  [getUser] puts its
    argument into the key template, which turns it into a string. *)
Definition kvrocks_created_at (username : jsval) : M world string :=
  try_catch
    (await userData <- KvrocksStorage.getUser (ensureString username) ;;
     match get_prop userData "created_at" with
     | Some x => if json_truthy x then Date_toISOString x else ret EmptyString
     | None => ret EmptyString
     end)
    (fun _ => ret EmptyString).

Definition kvrocks_getAllUsers : M world (list (UserOf jsval)) :=
  await usernames <- retry (client.smembers KvrocksStorage.userListKey) ;;
  Promise_all_map
    (fun username =>
       await created_at <- kvrocks_created_at username ;;
       ret {| user_username := username;
              user_role := role_of_member username;
              user_created_at := created_at |})
    usernames.

(** Backend B: the [try] block of the callback. *)
Definition redis_created_at (username : string) : M world string :=
  let createdAtKey := "u:" +:+ username +:+ ":created_at" in
  try_catch
    (await timestamp <- retry (client.get createdAtKey) ;;
     if truthy timestamp
     then match parseInt (ensureString timestamp) with
          | Some n => Date_toISOString (JNumber n)
          | None => throw (RangeError "Invalid time value")
          end
     else ret EmptyString)
    (fun _ => ret EmptyString).

Definition redis_getAllUsers : M world (list User) :=
  await keys <- retry (client.keys "u:*:pwd") ;;
  let usernames := omap match_pwd_key keys in
  Promise_all_map
    (fun username =>
       await created_at <- redis_created_at username ;;
       ret {| user_username := username;
              user_role := role_of username;
              user_created_at := created_at |})
    usernames.

End AllUsers.

(** The members of the user list of backend A that the client returns as
    the texts they are. *)
Definition names_read_as_written `{Deserializer} (w : world) : Prop :=
  forall u, u ∈ set_at w KvrocksStorage.userListKey -> parseResponse u = VString u.

(** ** The client singletons *)

(** The client object, as far as the adapters see it: it was made from a
    URL and a token. *)
Record Redis : Type := mkRedis {
  url : string;
  token : string;
}.

(** The process: its environment variables and the properties of [global]
    that are keyed by a registered symbol ([Symbol.for(name)] gives the
    same symbol for the same name). *)
Record process : Type := mkProcess {
  env : string -> option string;
  global : gmap string Redis;
}.

(** [!value] on an environment variable. *)
Definition unset (value : option string) : bool :=
  match value with
  | Some s => String.eqb s EmptyString
  | None => true
  end.

Section Singletons.

(** [new Redis({ url, token })] is the constructor of the client library:
    it returns the client object or throws (a release may reject a URL
    that it finds malformed).  What it throws for a URL and a token, if
    anything, is a parameter. *)
Variable constructor_throws : string -> string -> option JsError.

Definition new_Redis (url token : string) : result Redis :=
  match constructor_throws url token with
  | Some err => Throw err
  | None => Ok {| url := url; token := token |}
  end.

Definition getUpstashKvrocks : M process Redis := fun p =>
  let globalKey := "__KATELYATV_KVROCKS_UPSTASH__" in
  match global p !! globalKey with
  | Some client => (Ok client, p)
  | None =>
      let url := env p "KVROCKS_URL" in
      let token := env p "KVROCKS_TOKEN" in
      if unset url || unset token
      then (Throw (Error "KVROCKS_URL 和 KVROCKS_TOKEN 必须配置"), p)
      else
        match new_Redis (default EmptyString url) (default EmptyString token) with
        | Ok client =>
            (Ok client, {| env := env p; global := <[globalKey := client]> (global p) |})
        | Throw err => (Throw err, p)
        end
  end.

Definition getUpstashRedis : M process Redis := fun p =>
  let globalKey := "__KATELYATV_UPSTASH_REDIS__" in
  match global p !! globalKey with
  | Some client => (Ok client, p)
  | None =>
      let url := env p "REDIS_URL" in
      let token := env p "REDIS_TOKEN" in
      if unset url || unset token
      then (Throw (Error "REDIS_URL 和 REDIS_TOKEN 必须配置"), p)
      else
        match new_Redis (default EmptyString url) (default EmptyString token) with
        | Ok client =>
            (Ok client, {| env := env p; global := <[globalKey := client]> (global p) |})
        | Throw err => (Throw err, p)
        end
  end.

End Singletons.

(** The process with another environment. *)
Definition with_env (e : string -> option string) (p : process) : process :=
  {| env := e; global := global p |}.

(** *** Stores produced by calls for well-formed user names *)

(** Calls made for user names without the separator. *)
Definition colon_free_calls (calls : list redis_write) : Prop :=
  Forall (fun c => forall v, caller c = Some v -> colon_free v = true) calls.

(** The skip-config keys of a user on backend B: the config keys and the
    index key. *)
Definition skip_key (u k : string) : Prop :=
  (exists x, k = RedisStorage.skipConfigKey u x) \/ k = RedisStorage.skipConfigsKey u.

(** The content keys under which the calls write skip configs. *)
Definition skip_keys_of (calls : list redis_write) : list string :=
  omap (fun c => match c with
                 | SetSkipConfig _ k _ => Some k
                 | _ => None
                 end) calls.

(** A content key is listed by [getAllSkipConfigs] of backend B when some
    member of the index is shown as it. *)
Definition indexed_as `{Deserializer} (w : world) (u x : string) : Prop :=
  exists k, k ∈ set_at w (RedisStorage.skipConfigsKey u) /\ shown k = x.

(** The calls that write skip configs. *)
Definition skip_call (c : redis_write) : bool :=
  match c with
  | SetSkipConfig _ _ _ | DeleteSkipConfig _ _ => true
  | _ => false
  end.

(** ** The authentication middleware ([src/middleware.ts])

    Strings are sequences of 8-bit characters.  [decodeURIComponent],
    [JSON.parse] and the HMAC verification of [crypto.subtle] are external;
    they are parameters of the model ([None] where they throw). *)

(** [s.split(sep)] for a separator of one character: the pieces between
    the separators, so one more piece than there are separators. *)
Fixpoint split_on (sep : ascii) (s : string) : list string :=
  match s with
  | EmptyString => [EmptyString]
  | String c rest =>
      if Ascii.eqb c sep then EmptyString :: split_on sep rest
      else match split_on sep rest with
           | piece :: pieces => String c piece :: pieces
           | [] => [String c EmptyString]
           end
  end.

(** White space and line terminators, as [trim] removes them. *)
Definition is_space (c : ascii) : bool :=
  let n := N_of_ascii c in
  ((9 <=? n) && (n <=? 13) || (n =? 32) || (n =? 160))%N.

Fixpoint trim_start (s : list ascii) : list ascii :=
  match s with
  | c :: rest => if is_space c then trim_start rest else s
  | [] => []
  end.

Definition trim (s : string) : string :=
  string_of_list_ascii
    (rev (trim_start (rev (trim_start (list_ascii_of_string s))))).

Definition startsWith (s prefix : string) : bool := String.prefix prefix s.

(** A string without the given character, and one without white space. *)
Definition no_char (c : ascii) (s : string) : bool :=
  forallb (fun x => negb (Ascii.eqb x c)) (list_ascii_of_string s).

Definition no_space (s : string) : bool :=
  forallb (fun x => negb (is_space x)) (list_ascii_of_string s).

Record NextRequest : Type := mkRequest {
  request_origin : string;
  nextUrl_pathname : string;
  nextUrl_search : string;
  headers_cookie : option string;
}.

(** [NextResponse.next()], [NextResponse.redirect(url)] for a URL of the
    request's origin with the given path and search parameters, and
    [new NextResponse(body, { status })]. *)
Inductive NextResponse : Type :=
  | Next
  | Redirect (origin pathname : string) (searchParams : list (string * string))
  | Response (body : string) (status : Z).

Definition shouldSkipAuth (pathname : string) : bool :=
  existsb (fun p => startsWith pathname p)
    [ "/_next"; "/favicon.ico"; "/robots.txt"; "/manifest.json"; "/icons/";
      "/logo.png"; "/screenshot.png" ].

Definition handleAuthFailure (req : NextRequest) (pathname : string) : NextResponse :=
  if startsWith pathname "/api" then Response "Unauthorized" 401
  else Redirect (request_origin req) "/login"
         [ ("redirect", pathname +:+ nextUrl_search req) ].

(** Property access on a parsed JSON value; a primitive or an array has
    none of the properties read here. *)
Definition json_prop (x : json) (name : string) : option json :=
  match x with
  | JObject fields => assoc name fields
  | _ => None
  end.

(** [!value] on a property that may be missing. *)
Definition missing_or_falsy (x : option json) : bool :=
  match x with
  | Some v => negb (json_truthy v)
  | None => true
  end.

Section Middleware.

Variable decodeURIComponent : string -> option string.
Variable JSON_parse : string -> option json.
(** [crypto.subtle.verify] on the key imported from the secret, the
    signature decoded from its hexadecimal digits, and the encoded data. *)
Variable subtle_verify : string -> string -> json -> bool.
Variable PASSWORD : option string.
Variable NEXT_PUBLIC_STORAGE_TYPE : option string.

(** The body of the [forEach] of [parseCookie], on the object built so
    far. *)
Definition parseCookie_step (obj : gmap string string) (c : string)
  : option (gmap string string) :=
  match split_on "="%char (trim c) with
  | k :: rest =>
      let v := match rest with
               | v :: _ => v
               | [] => EmptyString
               end in
      match decodeURIComponent k, decodeURIComponent v with
      | Some k', Some v' => Some (<[k' := v']> obj)
      | _, _ => None
      end
  | [] => None
  end.

(** The object [obj] after the [forEach] over the entries of the header;
    [None] where an entry made [decodeURIComponent] throw. *)
Definition parseCookie_object (cookie : string) : option (gmap string string) :=
  foldl (fun acc c => acc ≫= fun obj => parseCookie_step obj c)
        (Some ∅) (split_on ";"%char cookie).

(** [parseCookie]: null ([JNull]) where anything throws. *)
Definition parseCookie (cookie : string) : json :=
  match parseCookie_object cookie with
  | Some obj =>
      let auth := match obj !! "auth" with
                  | Some a => if String.eqb a EmptyString then "{}" else a
                  | None => "{}"
                  end in
      default JNull (JSON_parse auth)
  | None => JNull
  end.

(** [verifySignature]: [signature.match(/.{1,2}/g)] is null exactly when
    the signature has no character other than line terminators, and is no
    function when the signature is not a string. *)
Definition verifySignature (data signature : json) (secret : string) : result bool :=
  match signature with
  | JString sig =>
      if forallb is_line_terminator (list_ascii_of_string sig) then Ok false
      else Ok (subtle_verify secret sig data)
  | _ => Throw (TypeError "signature.match is not a function")
  end.

Definition middleware (request : NextRequest) : result NextResponse :=
  let pathname := nextUrl_pathname request in
  if shouldSkipAuth pathname then Ok Next
  else
    let storageType := env_or NEXT_PUBLIC_STORAGE_TYPE "localstorage" in
    if unset PASSWORD
    then Ok (Redirect (request_origin request) "/warning" [])
    else
      let password := default EmptyString PASSWORD in
      let authInfo := parseCookie (env_or (headers_cookie request) EmptyString) in
      if negb (json_truthy authInfo) then Ok (handleAuthFailure request pathname)
      else if String.eqb storageType "localstorage"
      then
        match json_prop authInfo "password" with
        | Some (JString p) =>
            if String.eqb p password then Ok Next
            else Ok (handleAuthFailure request pathname)
        | _ => Ok (handleAuthFailure request pathname)
        end
      else
        if missing_or_falsy (json_prop authInfo "username")
           || missing_or_falsy (json_prop authInfo "signature")
        then Ok (handleAuthFailure request pathname)
        else
          match verifySignature (default JNull (json_prop authInfo "username"))
                  (default JNull (json_prop authInfo "signature")) password with
          | Ok true => Ok Next
          | Ok false => Ok (handleAuthFailure request pathname)
          | Throw err => Throw err
          end.

End Middleware.

(** ** Key families and the kind of value they hold *)

Inductive key_kind : Type := KString | KList | KSet.

Definition kind_of (x : rvalue) : key_kind :=
  match x with
  | RString _ => KString
  | RList _ => KList
  | RSet _ => KSet
  end.

(** The key is free or holds a value of the kind. *)
Definition holds_kind (w : world) (k : string) (t : key_kind) : Prop :=
  match kv w !! k with
  | None => True
  | Some x => kind_of x = t
  end.

(** Every key holds what its family expects. *)
Definition well_typed (expects : string -> key_kind -> Prop) (w : world) : Prop :=
  forall k t, expects k t -> holds_kind w k t.

Definition keeps_typed (expects : string -> key_kind -> Prop) {A} (c : M world A)
  : Prop :=
  forall w, well_typed expects w -> well_typed expects (snd (c w)).

(** A key that no family expects to hold another kind. *)
Definition may_hold (expects : string -> key_kind -> Prop) (key : string)
    (t : key_kind) : Prop :=
  forall t', expects key t' -> t' = t.

(** The families of backend B, for user names free of the separator (the
    skip-config keys have a prefix of their own and need no proviso). *)
Definition redis_expects (k : string) (t : key_kind) : Prop :=
  match t with
  | KString =>
      (exists u x, colon_free u = true /\ k = RedisStorage.prKey u x)
      \/ (exists u x, colon_free u = true /\ k = RedisStorage.favKey u x)
      \/ (exists u, colon_free u = true /\ k = RedisStorage.userPwdKey u)
      \/ (exists u, colon_free u = true /\ k = RedisStorage.userSettingsKey u)
      \/ k = RedisStorage.adminConfigKey
      \/ (exists u x, k = RedisStorage.skipConfigKey u x)
  | KList => exists u, colon_free u = true /\ k = RedisStorage.shKey u
  | KSet => exists u, k = RedisStorage.skipConfigsKey u
  end.

(** The computation returns normally on the store. *)
Definition returns {A} (c : M world A) (w : world) : Prop :=
  exists a, value_of c w = Ok a.

(** The families of backend A. *)
Definition kvrocks_expects (k : string) (t : key_kind) : Prop :=
  match t with
  | KString =>
      (exists u x, colon_free u = true /\ k = KvrocksStorage.prKey u x)
      \/ (exists u x, colon_free u = true /\ k = KvrocksStorage.favKey u x)
      \/ (exists u x, colon_free u = true /\ k = KvrocksStorage.skipConfigKey u x)
      \/ (exists u, colon_free u = true /\ k = KvrocksStorage.userSettingsKey u)
      \/ (exists u, k = KvrocksStorage.userKey u)
      \/ k = KvrocksStorage.adminConfigKey
  | KList => exists u, colon_free u = true /\ k = KvrocksStorage.searchHistoryKey u
  | KSet => k = KvrocksStorage.userListKey
  end.

(** Every account key holds an account object. *)
Definition accounts_ok (w : world) : Prop :=
  forall u v, stored w (KvrocksStorage.userKey u) = Some v -> exists d, v = VUserData d.

(** The store of backend A after a series of calls. *)
Definition kvrocks_store `{Deserializer} (calls : list redis_write) : world :=
  fold_left (fun w c => after (kvrocks_do c) w) calls empty_world.

(** ** A client for the scenarios

    The scenarios at the end are runs on concrete stores, which need a
    concrete client.  This one gives the answers of [JSON.parse] on the
    three JSON texts that occur in them; the other texts of the scenarios
    are no JSON texts, so that it is never asked about them. *)
Definition scenario_client : Deserializer := fun text =>
  if String.eqb text "0" then VNumber "0"
  else if String.eqb text "1" then VNumber "1"
  else if String.eqb text "[1]" then VArray [VNumber "1"]
  else VString text.
(** * Properties *)

#[local] Set Warnings "-clear-no-such-hyp".

(** Everything below holds for every client: whatever it makes of the
    reply texts that look like JSON. *)
Section Verification.
Context {the_client : Deserializer}.

(** ** The retry wrapper *)

Section RetryFacts.
Context {St : Type} {timer : Sleeper St} {A : Type}.

Lemma withRetry_not_transient (operation : M St A) (n : nat) (s : St) :
  n <> O -> not_transient (fst (operation s)) ->
  withRetry operation n s = operation s.
Proof.
  intros Hn Hp. destruct n as [|n]; [congruence|].
  unfold withRetry. simpl.
  destruct (operation s) as [[a|err] s']; simpl in *; [reflexivity|].
  rewrite Hp. reflexivity.
Qed.

Lemma retry_steady (operation : M St A) (s : St) :
  steady operation -> retry operation s = operation s.
Proof.
  intros Hs. apply withRetry_not_transient; [discriminate|].
  destruct (operation s) as [[a|err] s'] eqn:E; simpl; [exact I|].
  eapply Hs; eauto.
Qed.

End RetryFacts.

Lemma steady_ret {St A} (a : A) : steady (St := St) (ret a).
Proof. intros s err s' E. discriminate. Qed.

Lemma steady_bind {St A B} (c : M St A) (k : A -> M St B) :
  steady c -> (forall a, steady (k a)) -> steady (bind c k).
Proof.
  intros Hc Hk s err s' E. unfold bind in E.
  destruct (c s) as [[a|e] s1] eqn:Ec.
  - eapply Hk; eauto.
  - inversion E; subst. eapply Hc; eauto.
Qed.

Lemma steady_if {St A} (b : bool) (c1 c2 : M St A) :
  steady c1 -> steady c2 -> steady (if b then c1 else c2).
Proof. destruct b; auto. Qed.

Lemma opt_includes_spec (m : option string) (needle : string) :
  opt_includes m needle = true <-> exists text, m = Some text /\ includes text needle = true.
Proof.
  destruct m as [text|]; simpl.
  - split; [eauto | intros (t & [= <-] & Ht); exact Ht].
  - split; [discriminate | intros (t & E & _); discriminate].
Qed.

Lemma opt_is_spec (c : option string) (lit : string) :
  opt_is c lit = true <-> c = Some lit.
Proof.
  destruct c as [x|]; simpl.
  - rewrite String.eqb_eq. split; [intros ->; reflexivity | intros [= ->]; reflexivity].
  - split; discriminate.
Qed.

(** The classification of the source: a failure is a connection error when
    its message includes [Connection], [ECONNREFUSED] or [ENOTFOUND], or
    its code is [ECONNRESET] or [EPIPE]. *)
Lemma isConnectionError_spec (err : JsError) :
  isConnectionError err = true
  <-> (exists text, message err = Some text
                    /\ (includes text "Connection" = true
                        \/ includes text "ECONNREFUSED" = true
                        \/ includes text "ENOTFOUND" = true))
      \/ code err = Some "ECONNRESET"
      \/ code err = Some "EPIPE".
Proof.
  unfold isConnectionError. rewrite !orb_true_iff, !opt_includes_spec, !opt_is_spec.
  split.
  - intros [[[[(t & E & Ht) | (t & E & Ht)] | (t & E & Ht)] | Hc] | Hc]; eauto 8.
  - intros [(t & E & [Ht | [Ht | Ht]]) | [Hc | Hc]]; eauto 8.
Qed.

(** Claim C6.  [withRetry] under the default cap of three, for any
    operation over any state.  The instrumented run returns exactly what
    the plain run returns; it makes at least one and at most three attempts;
    and it is one of the three runs of [default_run]: an attempt is followed
    by another one only after a connection error with attempts left, the
    wait before the n-th retry is 1000 ms times n, a failure that is not a
    connection error and any failure of the third attempt are returned as
    they are, and a success of any attempt is returned as it is.  The waits
    add up to 1000 * (n - 1) * n / 2 for n attempts, so a success on the
    third attempt comes after 1000 + 2000 ms of waiting.

    A failure counts as a connection error exactly as the source
    classifies it (by the words in its message or by its code); such
    failures are retried: after connection errors on the first and on the
    second attempt the third attempt is made, after waits of 1000 and 2000
    ms, and its outcome is the outcome of the wrapper, a success as well as
    a failure (also another connection error, which is not retried); after
    a connection error on the first attempt only, the outcome of the second
    attempt is returned unless it is a connection error.  On the model
    server, a read that fails with ECONNRESET until two waits were made
    returns the value read, 3000 ms later. *)
Theorem withRetry_default_contract {St : Type} {timer : Sleeper St} {A : Type}
    (operation : M St A) (s : St) :
  (exists r s' log,
    withRetry (timer := traced_sleeper) (traced operation) 3 (s, []) = (r, (s', log))
    /\ withRetry operation 3 s = (r, s')
    /\ default_run log r
    /\ (1 <= attempts log <= 3)%nat
    /\ total_wait log
       = 1000 * (Z.of_nat (attempts log) - 1) * Z.of_nat (attempts log) / 2
    /\ (attempts log = 3%nat -> total_wait log = 1000 + 2000))
  /\ (forall err,
        isConnectionError err = true
        <-> (exists text, message err = Some text
                          /\ (includes text "Connection" = true
                              \/ includes text "ECONNREFUSED" = true
                              \/ includes text "ENOTFOUND" = true))
            \/ code err = Some "ECONNRESET"
            \/ code err = Some "EPIPE")
  /\ (forall e1 s1 e2 s2,
        operation s = (Throw e1, s1) -> isConnectionError e1 = true ->
        operation (setTimeout_wait 1000 s1) = (Throw e2, s2) ->
        isConnectionError e2 = true ->
        withRetry operation 3 s = operation (setTimeout_wait 2000 s2)
        /\ withRetry (timer := traced_sleeper) (traced operation) 3 (s, [])
           = (fst (operation (setTimeout_wait 2000 s2)),
              (snd (operation (setTimeout_wait 2000 s2)),
               [EvAttempt (Throw e1); EvWait 1000; EvAttempt (Throw e2); EvWait 2000;
                EvAttempt (fst (operation (setTimeout_wait 2000 s2)))])))
  /\ (forall e1 s1,
        operation s = (Throw e1, s1) -> isConnectionError e1 = true ->
        not_transient (fst (operation (setTimeout_wait 1000 s1))) ->
        withRetry operation 3 s = operation (setTimeout_wait 1000 s1))
  /\ retry (flaky_get "k")
       {| kv := {[ "k" := RString (VRecord sample_config) ]}; timers := []; now := 0 |}
     = (Ok (VRecord sample_config),
        {| kv := {[ "k" := RString (VRecord sample_config) ]}; timers := [2000; 1000];
           now := 3000 |}).
Proof.
  split; [|split; [exact isConnectionError_spec|split; [|split]]].
  - unfold withRetry, traced, traced_sleeper. simpl.
    change (1000 * (Z.of_nat 0 + 1)) with 1000.
    change (1000 * (Z.of_nat 1 + 1)) with 2000.
    cbv [setTimeout_wait].
    destruct (operation s) as [[a1|e1] s1] eqn:E1; simpl.
    { do 3 eexists. repeat split; simpl; solve [auto | lia | reflexivity]. }
    rewrite andb_true_r.
    destruct (isConnectionError e1) eqn:C1; simpl.
    2:{ do 3 eexists. repeat split; simpl; solve [auto | lia | reflexivity]. }
    destruct (operation (timer 1000 s1)) as [[a2|e2] s2] eqn:E2; simpl.
    { do 3 eexists. repeat split; simpl; solve [auto | lia | reflexivity]. }
    rewrite andb_true_r.
    destruct (isConnectionError e2) eqn:C2; simpl.
    2:{ do 3 eexists. repeat split; simpl; solve [auto | lia | reflexivity]. }
    destruct (operation (timer 2000 s2)) as [[a3|e3] s3] eqn:E3; simpl.
    { do 3 eexists. repeat split; simpl; solve [auto | lia | reflexivity]. }
    rewrite andb_false_r.
    do 3 eexists. repeat split; simpl; solve [auto | lia | reflexivity].
  - intros e1 s1 e2 s2 E1 C1 E2 C2.
    unfold withRetry, traced, traced_sleeper. simpl.
    change (1000 * (Z.of_nat 0 + 1)) with 1000.
    change (1000 * (Z.of_nat 1 + 1)) with 2000.
    cbv [setTimeout_wait] in *.
    rewrite E1. simpl. rewrite C1. simpl.
    rewrite E2. simpl. rewrite C2. simpl.
    destruct (operation (timer 2000 s2)) as [[a3|e3] s3]; simpl.
    + split; reflexivity.
    + rewrite andb_false_r. split; reflexivity.
  - intros e1 s1 E1 C1 Hn.
    unfold withRetry. simpl.
    change (1000 * (Z.of_nat 0 + 1)) with 1000.
    cbv [setTimeout_wait] in *.
    rewrite E1, C1. simpl.
    destruct (operation (timer 1000 s1)) as [[a2|e2] s2]; simpl in *;
      [reflexivity|].
    rewrite Hn. reflexivity.
  - vm_compute. reflexivity.
Qed.

Lemma attempts_app {A} (l1 l2 : list (event A)) :
  attempts (l1 ++ l2)%list = (attempts l1 + attempts l2)%nat.
Proof.
  induction l1 as [|ev l1 IH]; [reflexivity|].
  simpl. destruct ev; rewrite IH; reflexivity.
Qed.

(** Under any cap, the wrapper makes at most that many attempts. *)
Lemma withRetry_attempts_bound {St : Type} {timer : Sleeper St} {A : Type}
    (operation : M St A) (maxRetries : nat) (s : St) :
  (attempts (snd (snd (withRetry (timer := traced_sleeper) (traced operation)
                         maxRetries (s, []))))
   <= maxRetries)%nat.
Proof.
  unfold withRetry.
  assert (Hgen : forall fuel i sl,
    (attempts (snd (snd (retry_from (timer := traced_sleeper) (traced operation)
                           maxRetries fuel i sl)))
     <= attempts (snd sl) + fuel)%nat).
  { induction fuel as [|fuel IH]; intros i [s0 log]; simpl; [lia|].
    unfold traced at 1. simpl.
    destruct (operation s0) as [[a|err] s1]; simpl;
      [rewrite attempts_app; simpl; lia|].
    destruct (isConnectionError err && negb (i =? maxRetries - 1)%nat).
    - etransitivity; [apply IH|]. unfold setTimeout_wait, traced_sleeper. simpl.
      rewrite !attempts_app. simpl. lia.
    - simpl. rewrite attempts_app. simpl. lia. }
  specialize (Hgen maxRetries 0%nat (s, [])). simpl in Hgen. exact Hgen.
Qed.

(** A run of the wrapper on the model server: two connection resets, then
    the read succeeds; the value read is returned and 3000 ms were waited. *)
Example withRetry_flaky_get :
  retry (flaky_get "k")
    {| kv := {[ "k" := RString (VString "v") ]}; timers := []; now := 0 |}
  = (Ok (VString "v"),
     {| kv := {[ "k" := RString (VString "v") ]}; timers := [2000; 1000];
        now := 3000 |}).
Proof. vm_compute. reflexivity. Qed.

(** ** Client commands never raise connection errors in the model *)

Lemma WRONGTYPE_not_transient : isConnectionError WRONGTYPE = false.
Proof. reflexivity. Qed.

Create HintDb steady.

Ltac steady_cmd :=
  let w := fresh "w" in
  let err := fresh "err" in
  let w' := fresh "w'" in
  let E := fresh "E" in
  intros w err w' E; cbv beta delta [client.get client.set client.del
    client.exists_ client.keys client.mget client.lrange client.lrem
    client.lpush client.ltrim client.sadd client.srem client.smembers] in E;
  repeat case_match; inversion E; subst; exact WRONGTYPE_not_transient.

Lemma steady_get key : steady (client.get key).
Proof. steady_cmd. Qed.
Lemma steady_set key v : steady (client.set key v).
Proof. steady_cmd. Qed.
Lemma steady_del keys : steady (client.del keys).
Proof. steady_cmd. Qed.
Lemma steady_exists key : steady (client.exists_ key).
Proof. steady_cmd. Qed.
Lemma steady_keys pattern : steady (client.keys pattern).
Proof. steady_cmd. Qed.
Lemma steady_mget keys : steady (client.mget keys).
Proof. steady_cmd. Qed.
Lemma steady_lrange key a b : steady (client.lrange key a b).
Proof. steady_cmd. Qed.
Lemma steady_lrem key n v : steady (client.lrem key n v).
Proof. steady_cmd. Qed.
Lemma steady_lpush key v : steady (client.lpush key v).
Proof. steady_cmd. Qed.
Lemma steady_ltrim key a b : steady (client.ltrim key a b).
Proof. steady_cmd. Qed.
Lemma steady_sadd key v : steady (client.sadd key v).
Proof. steady_cmd. Qed.
Lemma steady_srem key v : steady (client.srem key v).
Proof. steady_cmd. Qed.
Lemma steady_smembers key : steady (client.smembers key).
Proof. steady_cmd. Qed.

Lemma steady_forEach {A} (l : list A) (body : A -> M world unit) :
  (forall x, steady (body x)) -> steady (forEach l body).
Proof.
  intros Hb. induction l as [|x l IH]; simpl.
  - apply steady_ret.
  - apply steady_bind; [apply Hb | intros _; exact IH].
Qed.

#[local] Hint Resolve steady_get steady_set steady_del steady_exists
  steady_keys steady_mget steady_lrange steady_lrem steady_lpush steady_ltrim
  steady_sadd steady_srem steady_smembers steady_ret : steady.
#[local] Hint Extern 2 (steady (bind _ _)) =>
  (apply steady_bind; [ | intros ? ]) : steady.
#[local] Hint Extern 2 (steady (if _ then _ else _)) =>
  (apply steady_if) : steady.
#[local] Hint Extern 2 (steady (forEach _ _)) =>
  (apply steady_forEach; intros ?) : steady.

(** Symbolic execution of adapter code: unfold one monadic step at a time,
    keeping the operations under [retry] folded until they are stripped. *)
Lemma bind_run {St A B} (c : M St A) (k : A -> M St B) (s : St) :
  bind c k s = match c s with
               | (Ok a, s') => k a s'
               | (Throw err, s') => (Throw err, s')
               end.
Proof. reflexivity. Qed.

Lemma ret_run {St A} (a : A) (s : St) : ret a s = (Ok a, s).
Proof. reflexivity. Qed.

Lemma set_run key v w :
  client.set key v w = (Ok tt, with_kv (insert key (RString v)) w).
Proof. reflexivity. Qed.

Lemma del_run keys w :
  client.del keys w =
  (Ok (Z.of_nat (length (filter (fun k => is_Some (kv w !! k)) (remove_dups keys)))),
   deleted keys w).
Proof. reflexivity. Qed.

Lemma keys_run pattern w :
  client.keys pattern w = (Ok (matching_keys pattern (kv w)), w).
Proof. reflexivity. Qed.

Ltac unretry :=
  repeat match goal with
         | |- context [withRetry ?op DEFAULT_MAX_RETRIES ?w] =>
             rewrite (retry_steady op w) by (cbv zeta; eauto 30 with steady)
         end.

Ltac run :=
  unfold after, value_of;
  repeat first
    [ progress unretry
    | rewrite bind_run
    | rewrite ret_run
    | rewrite set_run
    | rewrite del_run
    | rewrite keys_run
    | progress cbn beta iota delta [fst snd] ].

Lemma kv_with_kv f w : kv (with_kv f w) = f (kv w).
Proof. reflexivity. Qed.

(** ** Settings merge *)

(** Claim C8.  Every one of the five fields of
    [mergeUserSettings defaults current partial] is resolved on its own by
    the precedence partial, then current, then defaults. *)
Theorem mergeUserSettings_precedence
    (defaults : UserSettings) (current : option PartialUserSettings)
    (partial : PartialUserSettings) (f : field) :
  field_of f (mergeUserSettings defaults current partial)
  = resolved f defaults current partial.
Proof.
  unfold resolved.
  destruct f, partial as [pf pt pl pa pq], current as [[cf ct cl ca cq]|];
    simpl;
    repeat match goal with
           | |- context [nullish ?x _] => is_var x; destruct x; simpl
           end;
    reflexivity.
Qed.

(** ** Reading a key back *)

Lemma parseResponse_not_json text :
  not_json text = true -> parseResponse text = VString text.
Proof.
  unfold not_json, parseResponse. cbv zeta.
  destruct (String.eqb (json_trim text) "null"); [discriminate|].
  destruct (String.eqb (json_trim text) "true"); [discriminate|].
  destruct (String.eqb (json_trim text) "false"); [discriminate|].
  destruct (json_trim text) as [|c rest]; [reflexivity|].
  simpl. destruct (json_opener c); [discriminate|reflexivity].
Qed.

Lemma get_stored key v w :
  stored w key = Some v -> client.get key w = (Ok (read_back v), w).
Proof.
  intros Hs. unfold stored in Hs. unfold client.get.
  destruct (kv w !! key) as [[x|l|s]|]; simplify_eq; reflexivity.
Qed.

Lemma get_free key w :
  kv w !! key = None -> client.get key w = (Ok VNull, w).
Proof. intros Hn. unfold client.get. rewrite Hn. reflexivity. Qed.

Lemma stored_insert key v w :
  stored (with_kv (insert key (RString v)) w) key = Some v.
Proof. unfold stored. rewrite kv_with_kv, lookup_insert_eq. reflexivity. Qed.

Lemma skipConfig_keys_differ u k u' :
  RedisStorage.skipConfigKey u k <> RedisStorage.skipConfigsKey u'.
Proof. intros E. cbv in E. congruence. Qed.

(** [setSkipConfig] of backend B leaves the config at its key, whether or
    not the index update goes through. *)
Lemma redis_setSkipConfig_stored u k c w :
  stored (after (RedisStorage.setSkipConfig u k c) w) (RedisStorage.skipConfigKey u k)
  = Some (VRecord c).
Proof.
  unfold RedisStorage.setSkipConfig. run. unfold client.sadd.
  rewrite kv_with_kv, lookup_insert_ne by apply skipConfig_keys_differ.
  destruct (kv w !! RedisStorage.skipConfigsKey u) as [[v|l|s]|]; run;
    unfold stored; rewrite ?kv_with_kv;
    rewrite ?(lookup_insert_ne _ (RedisStorage.skipConfigsKey u))
      by (apply not_eq_sym, skipConfig_keys_differ);
    rewrite lookup_insert_eq; reflexivity.
Qed.

Lemma redis_deleteSkipConfig_free u k w :
  kv (after (RedisStorage.deleteSkipConfig u k) w) !! RedisStorage.skipConfigKey u k
  = None.
Proof.
  unfold RedisStorage.deleteSkipConfig. run. unfold deleted, client.srem.
  rewrite kv_with_kv. simpl.
  rewrite lookup_delete_ne by apply skipConfig_keys_differ.
  destruct (kv w !! RedisStorage.skipConfigsKey u) as [[v|l|s]|]; run;
    rewrite ?kv_with_kv; simpl; try apply lookup_delete_eq.
  unfold put_set. case_decide.
  - rewrite lookup_delete_ne by (apply not_eq_sym, skipConfig_keys_differ).
    apply lookup_delete_eq.
  - rewrite lookup_insert_ne by (apply not_eq_sym, skipConfig_keys_differ).
    apply lookup_delete_eq.
Qed.

Ltac set_then_get :=
  run; rewrite get_stored with (v := VRecord _) by apply stored_insert;
  run; reflexivity.

Ltac delete_then_get :=
  run; unfold deleted;
  rewrite get_free by (rewrite kv_with_kv; simpl; apply lookup_delete_eq);
  run; reflexivity.

(** Claim C9.  For play records, favourites and skip configs, on both
    backends, for every user name, content key, record and store: reading
    the key after [set] returns the record written, and reading it after
    [delete] returns null. *)
Theorem set_get_and_delete_get (u k : string) (r : JsonRecord) (w : world) :
  (value_of (KvrocksStorage.getPlayRecord u k)
     (after (KvrocksStorage.setPlayRecord u k r) w) = Ok (VRecord r)
   /\ value_of (KvrocksStorage.getPlayRecord u k)
        (after (KvrocksStorage.deletePlayRecord u k) w) = Ok VNull)
  /\ (value_of (KvrocksStorage.getFavorite u k)
        (after (KvrocksStorage.setFavorite u k r) w) = Ok (VRecord r)
      /\ value_of (KvrocksStorage.getFavorite u k)
           (after (KvrocksStorage.deleteFavorite u k) w) = Ok VNull)
  /\ (value_of (KvrocksStorage.getSkipConfig u k)
        (after (KvrocksStorage.setSkipConfig u k r) w) = Ok (VRecord r)
      /\ value_of (KvrocksStorage.getSkipConfig u k)
           (after (KvrocksStorage.deleteSkipConfig u k) w) = Ok VNull)
  /\ (value_of (RedisStorage.getPlayRecord u k)
        (after (RedisStorage.setPlayRecord u k r) w) = Ok (VRecord r)
      /\ value_of (RedisStorage.getPlayRecord u k)
           (after (RedisStorage.deletePlayRecord u k) w) = Ok VNull)
  /\ (value_of (RedisStorage.getFavorite u k)
        (after (RedisStorage.setFavorite u k r) w) = Ok (VRecord r)
      /\ value_of (RedisStorage.getFavorite u k)
           (after (RedisStorage.deleteFavorite u k) w) = Ok VNull)
  /\ (value_of (RedisStorage.getSkipConfig u k)
        (after (RedisStorage.setSkipConfig u k r) w) = Ok (VRecord r)
      /\ value_of (RedisStorage.getSkipConfig u k)
           (after (RedisStorage.deleteSkipConfig u k) w) = Ok VNull).
Proof.
  repeat split.
  - unfold KvrocksStorage.getPlayRecord, KvrocksStorage.setPlayRecord. set_then_get.
  - unfold KvrocksStorage.getPlayRecord, KvrocksStorage.deletePlayRecord. delete_then_get.
  - unfold KvrocksStorage.getFavorite, KvrocksStorage.setFavorite. set_then_get.
  - unfold KvrocksStorage.getFavorite, KvrocksStorage.deleteFavorite. delete_then_get.
  - unfold KvrocksStorage.getSkipConfig, KvrocksStorage.setSkipConfig. set_then_get.
  - unfold KvrocksStorage.getSkipConfig, KvrocksStorage.deleteSkipConfig. delete_then_get.
  - unfold RedisStorage.getPlayRecord, RedisStorage.setPlayRecord. set_then_get.
  - unfold RedisStorage.getPlayRecord, RedisStorage.deletePlayRecord. delete_then_get.
  - unfold RedisStorage.getFavorite, RedisStorage.setFavorite. set_then_get.
  - unfold RedisStorage.getFavorite, RedisStorage.deleteFavorite. delete_then_get.
  - unfold RedisStorage.getSkipConfig. unfold value_of. rewrite bind_run. unretry.
    rewrite get_stored with (v := VRecord r) by apply redis_setSkipConfig_stored.
    reflexivity.
  - unfold RedisStorage.getSkipConfig. unfold value_of. rewrite bind_run. unretry.
    rewrite get_free by apply redis_deleteSkipConfig_free.
    reflexivity.
Qed.

(** ** User settings *)

Lemma settings_keys_agree u :
  KvrocksStorage.userSettingsKey u = RedisStorage.userSettingsKey u.
Proof. reflexivity. Qed.

(** Claim C2: backend A has no defaults to answer with.  When nothing is
    stored under the settings key of a user, [getUserSettings] of backend B
    returns its full default record, and [getUserSettings] of backend A,
    on the same store, returns null. *)
Theorem getUserSettings_nothing_stored (u : string) (w : world) :
  kv w !! RedisStorage.userSettingsKey u = None ->
  RedisStorage.getUserSettings u w = (Ok (VSettings RedisStorage.defaultSettings), w)
  /\ KvrocksStorage.getUserSettings u w = (Ok VNull, w).
Proof.
  intros Hn. split.
  - unfold RedisStorage.getUserSettings. run. rewrite get_free by assumption.
    reflexivity.
  - unfold KvrocksStorage.getUserSettings. run.
    rewrite get_free by (rewrite settings_keys_agree; assumption).
    reflexivity.
Qed.

(** On both backends a stored settings record is returned as it is. *)
Lemma getUserSettings_stored (u : string) (s : UserSettings) (w : world) :
  stored w (RedisStorage.userSettingsKey u) = Some (VSettings s) ->
  RedisStorage.getUserSettings u w = (Ok (VSettings s), w)
  /\ KvrocksStorage.getUserSettings u w = (Ok (VSettings s), w).
Proof.
  intros Hs. split.
  - unfold RedisStorage.getUserSettings. run.
    rewrite get_stored with (v := VSettings s) by assumption. reflexivity.
  - unfold KvrocksStorage.getUserSettings. run.
    rewrite get_stored with (v := VSettings s)
      by (rewrite settings_keys_agree; assumption).
    reflexivity.
Qed.

(** Backend B never answers null. *)
Lemma redis_getUserSettings_not_null (u : string) (w : world) :
  value_of (RedisStorage.getUserSettings u) w <> Ok VNull.
Proof.
  unfold RedisStorage.getUserSettings. run. unfold client.get.
  destruct (kv w !! RedisStorage.userSettingsKey u) as [[v|l|s]|]; simpl;
    try discriminate.
  destruct (truthy (read_back v)) eqn:E; simpl; [|discriminate].
  intros [= Hv]. rewrite Hv in E. discriminate.
Qed.

(** Claim C4: the two backends do not write the same record.  For a user
    with nothing stored, [updateUserSettings] with only [theme = "dark"]
    writes [auto_play = false] on backend A and [auto_play = true] on
    backend B. *)
Theorem updateUserSettings_defaults_differ :
  stored (after (KvrocksStorage.updateUserSettings "u" (only_theme "dark")) empty_world)
         (KvrocksStorage.userSettingsKey "u")
  = Some (VSettings {| filter_adult_content := true; theme := "dark";
                       language := "zh-CN"; auto_play := false;
                       video_quality := "auto" |})
  /\ stored (after (RedisStorage.updateUserSettings "u" (only_theme "dark")) empty_world)
            (RedisStorage.userSettingsKey "u")
     = Some (VSettings {| filter_adult_content := true; theme := "dark";
                          language := "zh-CN"; auto_play := true;
                          video_quality := "auto" |}).
Proof. split; vm_compute; reflexivity. Qed.

Lemma merge_over_full (d d' s : UserSettings) (p : PartialUserSettings) :
  mergeUserSettings d (Some (full s)) p = mergeUserSettings d' (Some (full s)) p.
Proof. reflexivity. Qed.

(** Where a settings record is stored, the defaults play no part and the
    two backends write the same record. *)
Lemma updateUserSettings_agree_when_stored
    (u : string) (s : UserSettings) (p : PartialUserSettings) (w : world) :
  stored w (RedisStorage.userSettingsKey u) = Some (VSettings s) ->
  after (KvrocksStorage.updateUserSettings u p) w
  = after (RedisStorage.updateUserSettings u p) w.
Proof.
  intros Hs. destruct (getUserSettings_stored u s w Hs) as [Hb Ha].
  unfold KvrocksStorage.updateUserSettings, RedisStorage.updateUserSettings.
  unfold after. rewrite !bind_run, Ha, Hb. simpl.
  rewrite (merge_over_full KvrocksStorage.defaultSettings RedisStorage.defaultSettings).
  reflexivity.
Qed.

(** ** Accounts *)

(** Claim C5: [verifyUser] is not the equality test of the claim.  On
    backend B a registered empty password is never accepted, although the
    account exists and the stored password equals the one given (backend A
    accepts it); on backend A the answer for an unknown user is null, not
    the boolean false. *)
Theorem verifyUser_divergences :
  let w := after (RedisStorage.registerUser "alice" EmptyString) empty_world in
  value_of (RedisStorage.checkUserExist "alice") w = Ok true
  /\ stored w (RedisStorage.userPwdKey "alice") = Some (VString EmptyString)
  /\ value_of (RedisStorage.verifyUser "alice" EmptyString) w = Ok false
  /\ value_of (KvrocksStorage.verifyUser "alice" EmptyString)
       (after (KvrocksStorage.registerUser "alice" EmptyString) empty_world)
     = Ok (VBool true)
  /\ value_of (KvrocksStorage.verifyUser "nobody" "x") empty_world = Ok VNull.
Proof. repeat split; vm_compute; reflexivity. Qed.

(** The scenario of the specification holds on both backends. *)
Example alice_changes_password :
  let a1 := after (KvrocksStorage.registerUser "alice" "p1") empty_world in
  let a2 := after (KvrocksStorage.changePassword "alice" "p2") a1 in
  let b1 := after (RedisStorage.registerUser "alice" "p1") empty_world in
  let b2 := after (RedisStorage.changePassword "alice" "p2") b1 in
  (value_of (KvrocksStorage.verifyUser "alice" "p1") a1 = Ok (VBool true)
   /\ value_of (KvrocksStorage.verifyUser "alice" "p1") a2 = Ok (VBool false)
   /\ value_of (KvrocksStorage.verifyUser "alice" "p2") a2 = Ok (VBool true))
  /\ (value_of (RedisStorage.verifyUser "alice" "p1") b1 = Ok true
      /\ value_of (RedisStorage.verifyUser "alice" "p1") b2 = Ok false
      /\ value_of (RedisStorage.verifyUser "alice" "p2") b2 = Ok true).
Proof. repeat split; vm_compute; reflexivity. Qed.

(** What [verifyUser] computes from the stored credential. *)
Lemma redis_verifyUser_stored (u p s : string) (w : world) :
  stored w (RedisStorage.userPwdKey u) = Some (VString s) ->
  RedisStorage.verifyUser u p w
  = (Ok (truthy (parseResponse s)
         && String.eqb (ensureString (parseResponse s)) p), w).
Proof.
  intros Hs. unfold RedisStorage.verifyUser. run.
  rewrite get_stored with (v := VString s) by assumption. run. simpl.
  destruct (truthy (parseResponse s)); reflexivity.
Qed.

Lemma redis_verifyUser_unknown (u p : string) (w : world) :
  kv w !! RedisStorage.userPwdKey u = None ->
  RedisStorage.verifyUser u p w = (Ok false, w).
Proof.
  intros Hn. unfold RedisStorage.verifyUser. run.
  rewrite get_free by assumption. reflexivity.
Qed.

Lemma kvrocks_verifyUser_stored (u p : string) (d : UserData) (w : world) :
  stored w (KvrocksStorage.userKey u) = Some (VUserData d) ->
  KvrocksStorage.verifyUser u p w = (Ok (VBool (String.eqb (password d) p)), w).
Proof.
  intros Hs. unfold KvrocksStorage.verifyUser, KvrocksStorage.getUser. run.
  rewrite get_stored with (v := VUserData d) by assumption. reflexivity.
Qed.

Lemma kvrocks_verifyUser_unknown (u p : string) (w : world) :
  kv w !! KvrocksStorage.userKey u = None ->
  KvrocksStorage.verifyUser u p w = (Ok VNull, w).
Proof.
  intros Hn. unfold KvrocksStorage.verifyUser, KvrocksStorage.getUser. run.
  rewrite get_free by assumption. reflexivity.
Qed.

Lemma stored_is_Some key v w : stored w key = Some v -> is_Some (kv w !! key).
Proof.
  unfold stored. destruct (kv w !! key) as [x|]; [eauto | discriminate].
Qed.

Lemma exists_present key w :
  is_Some (kv w !! key) -> client.exists_ key w = (Ok 1, w).
Proof.
  intros Hs. unfold client.exists_. rewrite bool_decide_eq_true_2 by assumption.
  reflexivity.
Qed.

(** [checkUserExist] answers false on backend A exactly when [getUser]
    comes back with null. *)
Lemma kvrocks_no_account (u : string) (w : world) :
  value_of (KvrocksStorage.checkUserExist u) w = Ok false ->
  KvrocksStorage.getUser u w = (Ok VNull, w).
Proof.
  unfold KvrocksStorage.checkUserExist, KvrocksStorage.getUser. run.
  unfold client.get.
  destruct (kv w !! KvrocksStorage.userKey u) as [[v|l|s]|]; simpl;
    try discriminate; try reflexivity.
  destruct (truthy (read_back v)) eqn:T; [|reflexivity].
  destruct (read_back v); simpl in *; discriminate.
Qed.

Lemma redis_no_account (u : string) (w : world) :
  value_of (RedisStorage.checkUserExist u) w = Ok false ->
  kv w !! RedisStorage.userPwdKey u = None.
Proof.
  unfold RedisStorage.checkUserExist. run. unfold client.exists_. simpl.
  destruct (kv w !! RedisStorage.userPwdKey u) as [x|] eqn:E; [|reflexivity].
  rewrite bool_decide_eq_true_2 by eauto. discriminate.
Qed.


(** ** Search history *)

(** *** List commands on a key that holds a list or nothing *)

Lemma lslice_all {A} (l : list A) : lslice l 0 (-1) = l.
Proof.
  unfold lslice, lindex. simpl.
  destruct l as [|x l]; [reflexivity|].
  replace (Z.to_nat _) with (length (x :: l)).
  - rewrite drop_0. apply firstn_all.
  - simpl length. lia.
Qed.

Lemma lslice_limit {A} (l : list A) : lslice l 0 (20 - 1) = take 20 l.
Proof.
  unfold lslice, lindex. simpl. rewrite drop_0.
  destruct (decide (length l <= 20)%nat) as [Hle|Hgt].
  - rewrite (take_ge l 20) by lia. apply take_ge. lia.
  - f_equal. lia.
Qed.

Lemma with_kv_id (f : gmap string rvalue -> gmap string rvalue) (w : world) :
  f (kv w) = kv w -> with_kv f w = w.
Proof. intros E. destruct w. unfold with_kv. simpl in *. rewrite E. reflexivity. Qed.

Lemma set_list_free key w : kv w !! key = None -> set_list key [] w = w.
Proof. intros Hn. apply with_kv_id. simpl. apply delete_id. exact Hn. Qed.

Lemma list_at_set_list key l w : list_at (set_list key l w) key = l.
Proof.
  unfold list_at, set_list. rewrite kv_with_kv.
  destruct l; simpl; [rewrite lookup_delete_eq | rewrite lookup_insert_eq]; reflexivity.
Qed.

Lemma list_or_free_set_list key l w : list_or_free (set_list key l w) key.
Proof.
  unfold list_or_free, set_list. rewrite kv_with_kv.
  destruct l; simpl; [rewrite lookup_delete_eq | rewrite lookup_insert_eq]; exact I.
Qed.

Lemma lrem_all_run key q w :
  list_or_free w key ->
  exists n, client.lrem key 0 q w
            = (Ok n, set_list key (filter (fun y => y <> q) (list_at w key)) w).
Proof.
  unfold list_or_free, list_at, client.lrem. intros Hl.
  destruct (kv w !! key) as [[v|l|s]|] eqn:E; try contradiction.
  - eexists. reflexivity.
  - exists 0. rewrite filter_nil, set_list_free by assumption. reflexivity.
Qed.

Lemma lpush_run key q w :
  list_or_free w key ->
  exists n, client.lpush key q w = (Ok n, set_list key (q :: list_at w key) w).
Proof.
  unfold list_or_free, list_at, client.lpush. intros Hl.
  destruct (kv w !! key) as [[v|l|s]|] eqn:E; try contradiction;
    eexists; reflexivity.
Qed.

Lemma ltrim_limit_run key w :
  list_or_free w key ->
  client.ltrim key 0 (20 - 1) w = (Ok tt, set_list key (take 20 (list_at w key)) w).
Proof.
  unfold list_or_free, list_at, client.ltrim. intros Hl.
  destruct (kv w !! key) as [[v|l|s]|] eqn:E; try contradiction.
  - rewrite lslice_limit. reflexivity.
  - rewrite set_list_free by assumption. reflexivity.
Qed.

Lemma lrange_all_run key w :
  list_or_free w key ->
  client.lrange key 0 (-1) w = (Ok (map parseResponse (list_at w key)), w).
Proof.
  unfold list_or_free, list_at, client.lrange. intros Hl.
  destruct (kv w !! key) as [[v|l|s]|] eqn:E; try contradiction.
  - rewrite lslice_all. reflexivity.
  - reflexivity.
Qed.

Lemma set_list_twice key l1 l2 w :
  set_list key l2 (set_list key l1 w) = set_list key l2 w.
Proof.
  unfold set_list, with_kv. simpl. f_equal.
  destruct l1, l2; simpl;
    rewrite ?delete_delete_eq, ?insert_delete_eq, ?delete_insert_eq,
      ?insert_insert_eq; reflexivity.
Qed.

(** *** One call, on either backend *)

Lemma ensureStringArray_shown l :
  ensureStringArray (map parseResponse l) = map shown l.
Proof. unfold ensureStringArray. rewrite map_map. reflexivity. Qed.

Lemma shown_all (l : list string) :
  Forall (fun q => parseResponse q = VString q) l -> map shown l = l.
Proof.
  induction 1 as [|q l Hq _ IH]; [reflexivity|].
  simpl. unfold shown at 1. rewrite Hq. simpl. f_equal. exact IH.
Qed.

Lemma shown_not_json q : not_json q = true -> shown q = q.
Proof. intros Hq. unfold shown. rewrite parseResponse_not_json by exact Hq. reflexivity. Qed.

Lemma kvrocks_call_step u c w :
  list_or_free w (KvrocksStorage.searchHistoryKey u) ->
  kvrocks_call u c w
  = (Ok tt, set_list (KvrocksStorage.searchHistoryKey u)
              (hist_step (list_at w (KvrocksStorage.searchHistoryKey u)) c) w).
Proof.
  intros Hl. destruct c as [q|q]; simpl.
  - unfold KvrocksStorage.addSearchHistory. run.
    destruct (lrem_all_run _ q w Hl) as [n1 E1]. rewrite E1. run.
    match goal with
    | |- context [client.lpush ?k ?x ?w'] =>
        destruct (lpush_run k x w' (list_or_free_set_list _ _ _)) as [n2 E2]
    end.
    rewrite E2. run. unfold KvrocksStorage.SEARCH_HISTORY_LIMIT.
    rewrite ltrim_limit_run by apply list_or_free_set_list. run.
    rewrite !list_at_set_list, !set_list_twice. reflexivity.
  - unfold KvrocksStorage.deleteSearchHistory. destruct (given q); run.
    + destruct (lrem_all_run _ (default EmptyString q) w Hl) as [n1 E1].
      rewrite E1. reflexivity.
    + reflexivity.
Qed.

Lemma redis_call_step u c w :
  list_or_free w (RedisStorage.shKey u) ->
  redis_call u c w
  = (Ok tt, set_list (RedisStorage.shKey u)
              (hist_step (list_at w (RedisStorage.shKey u)) c) w).
Proof.
  intros Hl. destruct c as [q|q]; simpl.
  - unfold RedisStorage.addSearchHistory. run.
    destruct (lrem_all_run _ q w Hl) as [n1 E1]. rewrite E1. run.
    match goal with
    | |- context [client.lpush ?k ?x ?w'] =>
        destruct (lpush_run k x w' (list_or_free_set_list _ _ _)) as [n2 E2]
    end.
    rewrite E2. run. unfold RedisStorage.SEARCH_HISTORY_LIMIT.
    rewrite ltrim_limit_run by apply list_or_free_set_list. run.
    rewrite !list_at_set_list, !set_list_twice. reflexivity.
  - unfold RedisStorage.deleteSearchHistory. destruct (given q); run.
    + destruct (lrem_all_run _ (default EmptyString q) w Hl) as [n1 E1].
      rewrite E1. reflexivity.
    + reflexivity.
Qed.

(** *** A sequence of calls *)

Lemma calls_run (call : hist_call -> M world unit) (key : string) :
  (forall c w, list_or_free w key ->
               call c w = (Ok tt, set_list key (hist_step (list_at w key) c) w)) ->
  forall calls w,
    list_or_free w key ->
    exists w',
      forEach calls call w = (Ok tt, w')
      /\ list_or_free w' key
      /\ list_at w' key = fold_left hist_step calls (list_at w key).
Proof.
  intros Hcall calls. induction calls as [|c calls IH]; intros w Hl.
  - exists w. repeat split; assumption.
  - simpl. rewrite bind_run, (Hcall c w Hl).
    destruct (IH (set_list key (hist_step (list_at w key) c) w)
                (list_or_free_set_list _ _ _)) as (w' & E & Hl' & Hat).
    exists w'. rewrite E. rewrite list_at_set_list in Hat. auto.
Qed.

(** *** The list after a sequence of calls *)

Lemma last_added_from_snoc n calls c q :
  last_added_from n (calls ++ [c])%list q
  = match c with
    | Add q' =>
        if String.eqb q' q then S (n + length calls) else last_added_from n calls q
    | Delete _ => last_added_from n calls q
    end.
Proof.
  revert n. induction calls as [|c0 calls IH]; intros n; simpl.
  - destruct c as [q'|d]; [|reflexivity].
    destruct (String.eqb q' q); [f_equal; lia | reflexivity].
  - rewrite IH. destruct c as [q'|d]; [|reflexivity].
    destruct (String.eqb q' q); [f_equal; lia | reflexivity].
Qed.

Lemma last_added_from_le n calls q :
  (last_added_from n calls q <= n + length calls)%nat.
Proof.
  revert n. induction calls as [|c0 calls IH]; intros n; simpl; [lia|].
  specialize (IH (S n)).
  destruct (last_added_from (S n) calls q); [|lia].
  destruct c0 as [q'|d]; [|lia]. destruct (String.eqb q' q); lia.
Qed.

Lemma last_added_snoc_add calls q :
  last_added (calls ++ [Add q])%list q = S (length calls).
Proof.
  unfold last_added. rewrite last_added_from_snoc, String.eqb_refl. reflexivity.
Qed.

Lemma last_added_snoc_other calls c x :
  (forall q, c = Add q -> q <> x) ->
  last_added (calls ++ [c])%list x = last_added calls x.
Proof.
  intros Hc. unfold last_added. rewrite last_added_from_snoc.
  destruct c as [q'|d]; [|reflexivity].
  destruct (String.eqb q' x) eqn:E; [|reflexivity].
  apply String.eqb_eq in E. exfalso. eapply Hc; eauto.
Qed.

Lemma last_added_le calls q : (last_added calls q <= length calls)%nat.
Proof. apply (last_added_from_le 0). Qed.

Lemma Forall_of_sublist {A} (P : A -> Prop) (l1 l2 : list A) :
  l1 `sublist_of` l2 -> Forall P l2 -> Forall P l1.
Proof.
  induction 1 as [|x l1 l2 Hsub IH|x l1 l2 Hsub IH]; intros Hall.
  - constructor.
  - apply Forall_cons in Hall as [Hx Hall]. constructor; auto.
  - apply Forall_cons in Hall as [_ Hall]. auto.
Qed.

Lemma filter_keeps_all {A} (P : A -> Prop) `{forall x, Decision (P x)} (l : list A) :
  Forall P l -> filter P l = l.
Proof.
  induction 1 as [|x l Hx Hall IH]; [reflexivity|].
  rewrite filter_cons_True by assumption. f_equal. exact IH.
Qed.

Lemma StronglySorted_sublist {A} (R : A -> A -> Prop) (l1 l2 : list A) :
  l1 `sublist_of` l2 -> StronglySorted R l2 -> StronglySorted R l1.
Proof.
  induction 1 as [|x l1 l2 Hsub IH|x l1 l2 Hsub IH]; intros Hs.
  - constructor.
  - apply StronglySorted_cons in Hs as [Hall Hs].
    apply StronglySorted_cons. split; [|auto].
    eapply Forall_of_sublist; eauto.
  - apply StronglySorted_cons in Hs as [_ Hs]. auto.
Qed.

Lemma StronglySorted_change {A} (R R' : A -> A -> Prop) (l : list A) :
  (forall a b, a ∈ l -> b ∈ l -> R a b -> R' a b) ->
  StronglySorted R l -> StronglySorted R' l.
Proof.
  induction l as [|x l IH]; intros Himp Hs; [constructor|].
  apply StronglySorted_cons in Hs as [Hall Hs].
  apply StronglySorted_cons. split.
  - rewrite Forall_forall in *. intros b Hb.
    apply Himp; [left | right | ]; auto.
  - apply IH; [|assumption]. intros a b Ha Hb. apply Himp; right; assumption.
Qed.

Lemma StronglySorted_lookup {A} (R : A -> A -> Prop) (l : list A) i j a b :
  StronglySorted R l -> l !! i = Some a -> l !! j = Some b -> (i < j)%nat -> R a b.
Proof.
  revert i j. induction l as [|x l IH]; intros i j Hs Hi Hj Hlt; [discriminate|].
  apply StronglySorted_cons in Hs as [Hall Hs].
  destruct j as [|j]; [lia|]. simpl in Hj.
  destruct i as [|i]; simpl in Hi.
  - injection Hi as ->. rewrite Forall_forall in Hall. apply Hall.
    eapply list_elem_of_lookup_2; eauto.
  - eapply IH; eauto. lia.
Qed.

Lemma hist_inv_nil : hist_inv [] [].
Proof. repeat split; simpl; try lia; constructor. Qed.

Lemma hist_inv_sublist calls h h' :
  h' `sublist_of` h -> hist_inv calls h -> hist_inv calls h'.
Proof.
  intros Hsub (Hlen & Hnd & Hpos & Hsort). repeat split.
  - apply sublist_length in Hsub. lia.
  - eapply sublist_NoDup; [exact Hnd | exact Hsub].
  - eapply Forall_of_sublist; eauto.
  - eapply StronglySorted_sublist; eauto.
Qed.

Lemma hist_inv_delete calls h d :
  hist_inv calls h -> hist_inv (calls ++ [Delete d])%list h.
Proof.
  intros (Hlen & Hnd & Hpos & Hsort).
  assert (Hsame : forall x, last_added (calls ++ [Delete d])%list x = last_added calls x)
    by (intros x; apply last_added_snoc_other; discriminate).
  repeat split; try assumption.
  - eapply Forall_impl; [exact Hpos|]. intros a Ha. simpl. rewrite Hsame. exact Ha.
  - eapply StronglySorted_change; [|exact Hsort].
    intros a b _ _ Hab. simpl. rewrite !Hsame. exact Hab.
Qed.

Lemma hist_inv_step calls h c :
  hist_inv calls h -> hist_inv (calls ++ [c])%list (hist_step h c).
Proof.
  intros Hinv. destruct c as [q|d]; unfold hist_step.
  - destruct Hinv as (Hlen & Hnd & Hpos & Hsort).
    assert (Hother : forall x, x <> q ->
              last_added (calls ++ [Add q])%list x = last_added calls x).
    { intros x Hx. apply last_added_snoc_other. intros q' [= ->]. congruence. }
    assert (Hin : forall x, x ∈ filter (fun y => y <> q) h -> x <> q /\ x ∈ h)
      by (intros x Hx; apply list_elem_of_filter in Hx; exact Hx).
    repeat split.
    + rewrite length_take. lia.
    + eapply sublist_NoDup; [|apply sublist_take].
      apply NoDup_cons. split.
      * intros Hq. apply Hin in Hq as [Hq _]. congruence.
      * apply NoDup_filter. exact Hnd.
    + eapply Forall_of_sublist; [apply sublist_take|].
      apply Forall_cons. split.
      * rewrite last_added_snoc_add. lia.
      * rewrite Forall_forall. intros x Hx. apply Hin in Hx as [Hne Hx].
        rewrite Hother by assumption.
        rewrite Forall_forall in Hpos. auto.
    + eapply StronglySorted_sublist; [apply sublist_take|].
      apply StronglySorted_cons. split.
      * rewrite Forall_forall. intros x Hx. apply Hin in Hx as [Hne Hx].
        rewrite Hother by assumption. rewrite last_added_snoc_add.
        pose proof (last_added_le calls x). lia.
      * eapply StronglySorted_change;
          [|eapply StronglySorted_sublist; [apply sublist_filter; apply _|exact Hsort]].
        intros a b Ha Hb Hab. apply Hin in Ha as [Ha _]. apply Hin in Hb as [Hb _].
        simpl. rewrite !Hother by assumption. exact Hab.
  - apply hist_inv_delete. destruct (given d).
    + eapply hist_inv_sublist; [apply sublist_filter; apply _|exact Hinv].
    + eapply hist_inv_sublist; [apply sublist_nil_l|exact Hinv].
Qed.

Lemma hist_after_snoc calls c :
  hist_after (calls ++ [c])%list = hist_step (hist_after calls) c.
Proof. unfold hist_after. rewrite fold_left_app. reflexivity. Qed.

Lemma hist_inv_after calls : hist_inv calls (hist_after calls).
Proof.
  induction calls as [|c calls IH] using rev_ind.
  - apply hist_inv_nil.
  - rewrite hist_after_snoc. apply hist_inv_step. exact IH.
Qed.

Lemma hist_inv_recent_first calls h : hist_inv calls h -> recent_first calls h.
Proof.
  intros (_ & _ & Hpos & Hsort) i j a b Hi Hj Hlt. split.
  - rewrite Forall_forall in Hpos. apply Hpos.
    eapply list_elem_of_lookup_2; eauto.
  - exact (StronglySorted_lookup _ h i j a b Hsort Hi Hj Hlt).
Qed.

(** A query just added is at the front, once. *)
Lemma hist_after_add_front calls q :
  exists t, hist_after (calls ++ [Add q])%list = q :: t /\ q ∉ t.
Proof.
  rewrite hist_after_snoc. simpl.
  eexists. split; [reflexivity|].
  intros Hq. apply elem_of_take in Hq as (i & Hi & _).
  apply list_elem_of_lookup_2 in Hi. apply list_elem_of_filter in Hi as [Hne _].
  congruence.
Qed.

(** Distinct queries: the list is the latest twenty, latest first. *)
Lemma hist_after_distinct qs :
  NoDup qs -> hist_after (map Add qs) = take 20 (rev qs).
Proof.
  induction qs as [|q qs IH] using rev_ind; intros Hnd; [reflexivity|].
  apply NoDup_app in Hnd as (Hnd & Hnotin & _).
  rewrite map_app. simpl map. rewrite hist_after_snoc, IH by assumption.
  rewrite rev_unit. simpl.
  rewrite filter_keeps_all.
  - rewrite take_take. reflexivity.
  - apply Forall_forall. intros x Hx Heq. subst x.
    apply elem_of_take in Hx as (i & Hi & _).
    apply list_elem_of_lookup_2 in Hi.
    apply list_elem_of_In, in_rev, list_elem_of_In in Hi.
    apply (Hnotin q Hi). left.
Qed.

Lemma getSearchHistory_kvrocks u w :
  list_or_free w (KvrocksStorage.searchHistoryKey u) ->
  KvrocksStorage.getSearchHistory u w
  = (Ok (map shown (list_at w (KvrocksStorage.searchHistoryKey u))), w).
Proof.
  intros Hl. unfold KvrocksStorage.getSearchHistory. run.
  rewrite lrange_all_run by assumption. run.
  rewrite ensureStringArray_shown. reflexivity.
Qed.

Lemma getSearchHistory_redis u w :
  list_or_free w (RedisStorage.shKey u) ->
  RedisStorage.getSearchHistory u w
  = (Ok (map shown (list_at w (RedisStorage.shKey u))), w).
Proof.
  intros Hl. unfold RedisStorage.getSearchHistory. run.
  rewrite lrange_all_run by assumption. run.
  rewrite ensureStringArray_shown. reflexivity.
Qed.

Lemma free_list_or_free key w : kv w !! key = None -> list_or_free w key.
Proof. intros Hn. unfold list_or_free. rewrite Hn. exact I. Qed.

Lemma free_list_at key w : kv w !! key = None -> list_at w key = [].
Proof. intros Hn. unfold list_at. rewrite Hn. reflexivity. Qed.

(** What holds of the search history.  Start from a store in which the
    user has no history and make any sequence of [addSearchHistory] and
    [deleteSearchHistory] calls for that user.  On both backends every call
    returns and the key then holds one and the same list [h] of queries: it
    has at most 20 entries, no entry twice, and is ordered
    most-recent-first; if the last call added [q], then [q] is at the front
    and nowhere else; and if the calls added pairwise distinct queries, [h]
    is the latest twenty of them, latest first.  [getSearchHistory] returns
    the entries of [h] as the client shows them, so it returns [h] itself
    where every entry is returned as the text that was written. *)
Theorem search_history_invariant
    (u : string) (calls : list hist_call) (wa wb : world) :
  kv wa !! KvrocksStorage.searchHistoryKey u = None ->
  kv wb !! RedisStorage.shKey u = None ->
  exists h : list string,
    (value_of (forEach calls (kvrocks_call u)) wa = Ok tt
     /\ list_at (after (forEach calls (kvrocks_call u)) wa)
          (KvrocksStorage.searchHistoryKey u) = h
     /\ value_of (KvrocksStorage.getSearchHistory u)
          (after (forEach calls (kvrocks_call u)) wa) = Ok (map shown h))
    /\ (value_of (forEach calls (redis_call u)) wb = Ok tt
        /\ list_at (after (forEach calls (redis_call u)) wb) (RedisStorage.shKey u) = h
        /\ value_of (RedisStorage.getSearchHistory u)
             (after (forEach calls (redis_call u)) wb) = Ok (map shown h))
    /\ (length (map shown h) <= 20)%nat
    /\ NoDup h
    /\ recent_first calls h
    /\ (forall calls' q, calls = (calls' ++ [Add q])%list ->
          exists t, h = q :: t /\ q ∉ t)
    /\ (forall qs, calls = map Add qs -> NoDup qs -> h = take 20 (rev qs))
    /\ (Forall (fun q => parseResponse q = VString q) h -> map shown h = h).
Proof.
  intros Ha Hb. exists (hist_after calls).
  destruct (calls_run (kvrocks_call u) (KvrocksStorage.searchHistoryKey u)
              (kvrocks_call_step u) calls wa (free_list_or_free _ _ Ha))
    as (wa' & Ea & Hla & Hata).
  destruct (calls_run (redis_call u) (RedisStorage.shKey u)
              (redis_call_step u) calls wb (free_list_or_free _ _ Hb))
    as (wb' & Eb & Hlb & Hatb).
  rewrite (free_list_at _ wa Ha) in Hata. rewrite (free_list_at _ wb Hb) in Hatb.
  pose proof (hist_inv_after calls) as Hinv.
  split; [|split; [|split; [|split; [|split; [|split; [|split]]]]]].
  - unfold value_of, after. rewrite Ea. cbn [fst snd].
    rewrite getSearchHistory_kvrocks by assumption. cbn [fst snd].
    rewrite Hata. auto.
  - unfold value_of, after. rewrite Eb. cbn [fst snd].
    rewrite getSearchHistory_redis by assumption. cbn [fst snd].
    rewrite Hatb. auto.
  - rewrite length_map. apply Hinv.
  - apply Hinv.
  - apply hist_inv_recent_first. exact Hinv.
  - intros calls' q ->. apply hist_after_add_front.
  - intros qs -> Hnd. apply hist_after_distinct. exact Hnd.
  - apply shown_all.
Qed.

(** Claim C7: the history that [getSearchHistory] returns can hold a string
    twice, and need not hold the query that was added last.  The stored
    list is freed of the query text before it is pushed, but the client
    parses every entry it returns and [ensureStringArray] prints what the
    client made of it: the queries [true] and [true] followed by a blank
    are two stored entries and both come back as [true] (on both backends,
    whatever the client makes of other texts); and where the client reads
    [1] as the number and [[1]] as the array of it, the queries [1] and
    [[1]] both come back as [1]. *)
Theorem search_history_duplicates :
  let calls := [Add "true"; Add "true "] in
  let ones := [Add "1"; Add "[1]"] in
  (list_at (after (forEach calls (kvrocks_call "alice")) empty_world)
     (KvrocksStorage.searchHistoryKey "alice") = ["true "; "true"]
   /\ value_of (KvrocksStorage.getSearchHistory "alice")
        (after (forEach calls (kvrocks_call "alice")) empty_world)
      = Ok ["true"; "true"]
   /\ list_at (after (forEach calls (redis_call "alice")) empty_world)
        (RedisStorage.shKey "alice") = ["true "; "true"]
   /\ value_of (RedisStorage.getSearchHistory "alice")
        (after (forEach calls (redis_call "alice")) empty_world)
      = Ok ["true"; "true"])
  /\ (deserialize_json "1" = VNumber "1" ->
      deserialize_json "[1]" = VArray [VNumber "1"] ->
      value_of (KvrocksStorage.getSearchHistory "alice")
        (after (forEach ones (kvrocks_call "alice")) empty_world)
      = Ok ["1"; "1"]
      /\ value_of (RedisStorage.getSearchHistory "alice")
           (after (forEach ones (redis_call "alice")) empty_world)
         = Ok ["1"; "1"]).
Proof.
  cbv zeta. split.
  - repeat split; vm_compute; reflexivity.
  - intros H1 H2.
    assert (Hs : map shown ["[1]"; "1"] = ["1"; "1"]).
    { unfold shown, parseResponse. simpl. rewrite H1, H2. reflexivity. }
    split.
    + replace (after (forEach [Add "1"; Add "[1]"] (kvrocks_call "alice")) empty_world)
        with (set_list (KvrocksStorage.searchHistoryKey "alice") ["[1]"; "1"] empty_world)
        by (vm_compute; reflexivity).
      unfold value_of. rewrite getSearchHistory_kvrocks by apply list_or_free_set_list.
      cbn [fst]. rewrite list_at_set_list, Hs. reflexivity.
    + replace (after (forEach [Add "1"; Add "[1]"] (redis_call "alice")) empty_world)
        with (set_list (RedisStorage.shKey "alice") ["[1]"; "1"] empty_world)
        by (vm_compute; reflexivity).
      unfold value_of. rewrite getSearchHistory_redis by apply list_or_free_set_list.
      cbn [fst]. rewrite list_at_set_list, Hs. reflexivity.
Qed.

(** The same query twice, and twenty-one distinct queries, on both backends. *)
Example add_twice_and_twenty_one :
  let twice := [Add "x"; Add "y"; Add "y"] in
  let qs := [ "q01"; "q02"; "q03"; "q04"; "q05"; "q06"; "q07"; "q08"; "q09"; "q10";
              "q11"; "q12"; "q13"; "q14"; "q15"; "q16"; "q17"; "q18"; "q19"; "q20";
              "q21" ] in
  value_of (KvrocksStorage.getSearchHistory "alice")
    (after (forEach twice (kvrocks_call "alice")) empty_world) = Ok ["y"; "x"]
  /\ value_of (RedisStorage.getSearchHistory "alice")
       (after (forEach twice (redis_call "alice")) empty_world) = Ok ["y"; "x"]
  /\ value_of (KvrocksStorage.getSearchHistory "alice")
       (after (forEach (map Add qs) (kvrocks_call "alice")) empty_world)
     = Ok (rev (tail qs))
  /\ value_of (RedisStorage.getSearchHistory "alice")
       (after (forEach (map Add qs) (redis_call "alice")) empty_world)
     = Ok (rev (tail qs)).
Proof. repeat split; vm_compute; reflexivity. Qed.

(** ** Deleting a user *)

(** Claim C1: the cascade of backend B misses the skip configs.  After
    [setSkipConfig] and [deleteUser] for the same user, [getAllSkipConfigs]
    still returns the config; the same calls on backend A leave nothing. *)
Theorem redis_deleteUser_keeps_skip_configs :
  let w1 := after (RedisStorage.setSkipConfig "bob" "ep1" sample_config) empty_world in
  let w2 := after (RedisStorage.deleteUser "bob") w1 in
  let a1 := after (KvrocksStorage.setSkipConfig "bob" "ep1" sample_config) empty_world in
  let a2 := after (KvrocksStorage.deleteUser "bob") a1 in
  value_of (RedisStorage.deleteUser "bob") w1 = Ok tt
  /\ value_of (RedisStorage.getAllSkipConfigs "bob") w2
     = Ok {[ "ep1" := VRecord sample_config ]}
  /\ value_of (KvrocksStorage.deleteUser "bob") a1 = Ok tt
  /\ value_of (KvrocksStorage.getAllSkipConfigs "bob") a2 = Ok ∅.
Proof. repeat split; vm_compute; reflexivity. Qed.

(** ** What the cascades do delete *)

Lemma matching_keys_spec pattern (m : gmap string rvalue) k :
  k ∈ matching_keys pattern m <-> is_Some (m !! k) /\ glob pattern k = true.
Proof.
  unfold matching_keys. rewrite list_elem_of_filter, list_elem_of_fmap. split.
  - intros [Hg ([k' x] & -> & Hin)]. apply elem_of_map_to_list in Hin.
    simpl. split; [eauto | exact Hg].
  - intros [[x Hx] Hg]. split; [exact Hg|]. exists (k, x).
    split; [reflexivity|]. apply elem_of_map_to_list. exact Hx.
Qed.

Lemma kv_deleted ks w : kv (deleted ks w) = foldr delete (kv w) ks.
Proof. reflexivity. Qed.

Lemma deleted_nil w : deleted [] w = w.
Proof. apply with_kv_id. reflexivity. Qed.

Lemma deleted_lookup ks w k : k ∈ ks -> kv (deleted ks w) !! k = None.
Proof. intros Hin. rewrite kv_deleted. apply lookup_foldr_delete. exact Hin. Qed.

Lemma deleted_no_new ks w : no_new_keys w (deleted ks w).
Proof.
  intros k Hk. rewrite kv_deleted. destruct (decide (k ∈ ks)) as [Hin|Hnin].
  - apply lookup_foldr_delete. exact Hin.
  - rewrite lookup_foldr_delete_not_elem_of by exact Hnin. exact Hk.
Qed.

Lemma deleted_matching_gone pattern w :
  gone pattern (deleted (matching_keys pattern (kv w)) w).
Proof.
  intros k Hg. rewrite kv_deleted.
  destruct (decide (k ∈ matching_keys pattern (kv w))) as [Hin|Hnin].
  - apply lookup_foldr_delete. exact Hin.
  - rewrite lookup_foldr_delete_not_elem_of by exact Hnin.
    apply eq_None_not_Some. intros Hs. apply Hnin, matching_keys_spec. auto.
Qed.

Lemma no_new_keys_trans w1 w2 w3 :
  no_new_keys w1 w2 -> no_new_keys w2 w3 -> no_new_keys w1 w3.
Proof. intros H12 H23 k Hk. auto. Qed.

Lemma gone_no_new pattern w w' :
  gone pattern w -> no_new_keys w w' -> gone pattern w'.
Proof. intros Hg Hn k Hk. auto. Qed.

Lemma gone_matching pattern w : gone pattern w -> matching_keys pattern (kv w) = [].
Proof.
  intros Hg. destruct (matching_keys pattern (kv w)) as [|k ks] eqn:E; [reflexivity|].
  assert (Hin : k ∈ matching_keys pattern (kv w)) by (rewrite E; left).
  apply matching_keys_spec in Hin as [[x Hx] Hk]. rewrite (Hg k Hk) in Hx.
  discriminate.
Qed.

(** [if (keys.length) await del(...keys)], with and without [withRetry]. *)
Lemma sweep_run ks w :
  (if is_empty ks then ret tt else await_ client.del ks ;; ret tt) w
  = (Ok tt, deleted ks w).
Proof.
  destruct ks as [|k ks]; simpl.
  - rewrite deleted_nil. reflexivity.
  - run. reflexivity.
Qed.

Lemma sweep_retry_run ks w :
  (if is_empty ks then ret tt else await_ retry (client.del ks) ;; ret tt) w
  = (Ok tt, deleted ks w).
Proof.
  destruct ks as [|k ks]; simpl.
  - rewrite deleted_nil. reflexivity.
  - run. reflexivity.
Qed.

(** The enumerations over a pattern with no matching key. *)
Lemma getAll_gone (pattern prefix : string) w :
  gone pattern w ->
  (await keys <- retry (client.keys pattern) ;;
   if is_empty keys then ret ∅
   else await values <- retry (client.mget keys) ;;
        ret (collect prefix keys values)) w
  = (Ok ∅, w).
Proof. intros Hg. run. rewrite (gone_matching _ _ Hg). reflexivity. Qed.

(** Backend B: [deleteUser] returns, and afterwards the play records, the
    favourites and the search history of the user are empty. *)
Lemma redis_deleteUser_clears (u : string) (w : world) :
  value_of (RedisStorage.deleteUser u) w = Ok tt
  /\ value_of (RedisStorage.getAllPlayRecords u) (after (RedisStorage.deleteUser u) w) = Ok ∅
  /\ value_of (RedisStorage.getAllFavorites u) (after (RedisStorage.deleteUser u) w) = Ok ∅
  /\ value_of (RedisStorage.getSearchHistory u) (after (RedisStorage.deleteUser u) w) = Ok [].
Proof.
  set (w1 := deleted [RedisStorage.userPwdKey u] w).
  set (w2 := deleted [RedisStorage.shKey u] w1).
  set (w3 := deleted (matching_keys ("u:" +:+ u +:+ ":pr:*") (kv w2)) w2).
  set (w4 := deleted (matching_keys ("u:" +:+ u +:+ ":fav:*") (kv w3)) w3).
  set (w5 := deleted [RedisStorage.userSettingsKey u] w4).
  assert (Hrun : RedisStorage.deleteUser u w = (Ok tt, w5)).
  { unfold RedisStorage.deleteUser. run. fold w1. run. fold w2.
    rewrite sweep_retry_run. fold w3. run.
    rewrite sweep_retry_run. fold w4. run. reflexivity. }
  assert (H23 : no_new_keys w2 w3) by apply deleted_no_new.
  assert (H34 : no_new_keys w3 w4) by apply deleted_no_new.
  assert (H45 : no_new_keys w4 w5) by apply deleted_no_new.
  assert (Hsh : kv w5 !! RedisStorage.shKey u = None).
  { apply H45, H34, H23. apply deleted_lookup. left. }
  assert (Hpr : gone ("u:" +:+ u +:+ ":pr:*") w5).
  { eapply gone_no_new; [apply deleted_matching_gone|].
    eapply no_new_keys_trans; eauto. }
  assert (Hfav : gone ("u:" +:+ u +:+ ":fav:*") w5).
  { eapply gone_no_new; [apply deleted_matching_gone|]. exact H45. }
  unfold value_of, after. rewrite Hrun. cbn [fst snd].
  split; [reflexivity|]. split; [|split].
  - unfold RedisStorage.getAllPlayRecords. cbv zeta.
    rewrite (getAll_gone _ _ w5 Hpr). reflexivity.
  - unfold RedisStorage.getAllFavorites. cbv zeta.
    rewrite (getAll_gone _ _ w5 Hfav). reflexivity.
  - rewrite getSearchHistory_redis by (apply free_list_or_free; exact Hsh).
    rewrite free_list_at by exact Hsh. reflexivity.
Qed.


(** [tokenize] is given enough fuel: the length of the pattern. *)
Lemma parse_class_shorter (n : nat) (p : list ascii) (acc : list (ascii * ascii)) :
  (length p <= n)%nat -> (length (snd (parse_class p acc)) <= length p)%nat.
Proof.
  revert p acc. induction n as [|n IH]; intros p acc Hn.
  - destruct p; [simpl; lia | simpl in Hn; lia].
  - destruct p as [|c rest]; [simpl; lia|]. simpl in Hn. simpl.
    destruct (Ascii.eqb c "]"); [simpl; lia|].
    destruct (Ascii.eqb c "\").
    + destruct rest as [|c' rest'].
      * simpl. lia.
      * simpl in Hn. specialize (IH rest' ((c', c') :: acc) ltac:(lia)).
        simpl. lia.
    + destruct rest as [|dash [|d rest']].
      * simpl. lia.
      * specialize (IH [dash] ((c, c) :: acc) ltac:(simpl in *; lia)).
        simpl in *. lia.
      * simpl in Hn. destruct (Ascii.eqb dash "-").
        -- specialize (IH rest' ((c, d) :: acc) ltac:(lia)). simpl. lia.
        -- specialize (IH (dash :: d :: rest') ((c, c) :: acc) ltac:(simpl; lia)).
           simpl in *. lia.
Qed.

Lemma tokenize_fuel (f1 f2 : nat) (p : list ascii) :
  (length p <= f1)%nat -> (length p <= f2)%nat -> tokenize f1 p = tokenize f2 p.
Proof.
  revert f2 p. induction f1 as [|f1 IH]; intros f2 p H1 H2.
  - destruct p; [destruct f2; reflexivity | simpl in H1; lia].
  - destruct p as [|c rest]; [destruct f2; reflexivity|].
    destruct f2 as [|f2]; [simpl in H2; lia|]. simpl in H1, H2. simpl.
    destruct (Ascii.eqb c "*"); [f_equal; apply IH; lia|].
    destruct (Ascii.eqb c "?"); [f_equal; apply IH; lia|].
    destruct (Ascii.eqb c "\").
    { destruct rest as [|c' rest']; [f_equal; apply IH; simpl; lia|].
      simpl in H1, H2. f_equal. apply IH; lia. }
    destruct (Ascii.eqb c "[").
    { destruct rest as [|c' rest']; [reflexivity|]. simpl in H1, H2.
      destruct (Ascii.eqb c' "^").
      - pose proof (parse_class_shorter _ rest' [] (Nat.le_refl _)) as Hs.
        destruct (parse_class rest' []) as [ranges rest'']. simpl in Hs.
        f_equal. apply IH; lia.
      - pose proof (parse_class_shorter _ (c' :: rest') [] (Nat.le_refl _)) as Hs.
        destruct (parse_class (c' :: rest') []) as [ranges rest'']. simpl in Hs.
        f_equal. apply IH; lia. }
    f_equal. apply IH; lia.
Qed.

(** A pattern without special characters matches itself. *)
Lemma tokenize_plain (p : list ascii) (fuel : nat) :
  forallb (fun c => negb (is_meta c)) p = true ->
  (length p <= fuel)%nat ->
  tokenize fuel p = map GLit p.
Proof.
  revert fuel. induction p as [|c p IH]; intros fuel Hp Hf.
  - destruct fuel; reflexivity.
  - destruct fuel as [|fuel]; [simpl in Hf; lia|].
    simpl in Hp. apply andb_true_iff in Hp as [Hc Hp].
    simpl in Hf. assert (Hrec := IH fuel Hp ltac:(lia)).
    apply negb_true_iff in Hc. unfold is_meta in Hc.
    apply orb_false_iff in Hc as [Hc H4].
    apply orb_false_iff in Hc as [Hc H3].
    apply orb_false_iff in Hc as [H1 H2].
    simpl. rewrite H1, H2, H3, H4, Hrec. reflexivity.
Qed.

Lemma tmatch_literal (p : list ascii) : tmatch (map GLit p) p = true.
Proof.
  induction p as [|c p IH]; [reflexivity|].
  simpl. rewrite Ascii.eqb_refl, IH. reflexivity.
Qed.

Lemma glob_plain (s : string) : plain s = true -> glob s s = true.
Proof.
  intros Hp. unfold glob, plain in *.
  rewrite tokenize_plain by (auto; lia). apply tmatch_literal.
Qed.

Lemma list_ascii_of_append (a b : string) :
  list_ascii_of_string (a +:+ b)
  = (list_ascii_of_string a ++ list_ascii_of_string b)%list.
Proof.
  induction a as [|c a IH]; [reflexivity|].
  cbv [String.append]. fold String.append. simpl. rewrite IH. reflexivity.
Qed.

Lemma plain_append (a b : string) : plain (a +:+ b) = plain a && plain b.
Proof. unfold plain. rewrite list_ascii_of_append. apply forallb_app. Qed.

Lemma kvrocks_searchHistoryKey_plain (u : string) :
  plain u = true ->
  glob (KvrocksStorage.searchHistoryKey u) (KvrocksStorage.searchHistoryKey u) = true.
Proof.
  intros Hu. apply glob_plain. unfold KvrocksStorage.searchHistoryKey.
  rewrite !plain_append, Hu. reflexivity.
Qed.

Lemma kvrocks_user_keys_differ u :
  KvrocksStorage.userKey u <> KvrocksStorage.userListKey.
Proof. intros E. cbv in E. congruence. Qed.

Lemma srem_returns key member w :
  set_or_free w key -> exists n w', client.srem key member w = (Ok n, w').
Proof.
  unfold set_or_free, client.srem. intros Hs.
  destruct (kv w !! key) as [[v|l|s]|]; try contradiction; eauto.
Qed.

(** Backend A: where the user list is a set (or absent), [deleteUser]
    returns, and afterwards the play records, favourites and skip configs
    of the user are empty; so is the search history when the user name has
    no pattern character, since its key is handed to [KEYS] as a pattern. *)
Lemma kvrocks_deleteUser_clears (u : string) (w : world) :
  set_or_free w KvrocksStorage.userListKey ->
  value_of (KvrocksStorage.deleteUser u) w = Ok tt
  /\ value_of (KvrocksStorage.getAllPlayRecords u)
       (after (KvrocksStorage.deleteUser u) w) = Ok ∅
  /\ value_of (KvrocksStorage.getAllFavorites u)
       (after (KvrocksStorage.deleteUser u) w) = Ok ∅
  /\ value_of (KvrocksStorage.getAllSkipConfigs u)
       (after (KvrocksStorage.deleteUser u) w) = Ok ∅
  /\ (plain u = true ->
      value_of (KvrocksStorage.getSearchHistory u)
        (after (KvrocksStorage.deleteUser u) w) = Ok []).
Proof.
  intros Hlist.
  set (w1 := deleted [KvrocksStorage.userKey u] w).
  assert (Hlist1 : set_or_free w1 KvrocksStorage.userListKey).
  { unfold set_or_free, w1. rewrite kv_deleted. simpl.
    rewrite lookup_delete_ne by apply kvrocks_user_keys_differ. exact Hlist. }
  destruct (srem_returns KvrocksStorage.userListKey u w1 Hlist1) as (n & w2 & Esrem).
  set (w3 := deleted (matching_keys ("u:" +:+ u +:+ ":pr:*") (kv w2)) w2).
  set (w4 := deleted (matching_keys ("u:" +:+ u +:+ ":fav:*") (kv w3)) w3).
  set (w5 := deleted (matching_keys ("u:" +:+ u +:+ ":search_history") (kv w4)) w4).
  set (w6 := deleted (matching_keys ("u:" +:+ u +:+ ":skip_config:*") (kv w5)) w5).
  assert (Hrun : KvrocksStorage.deleteUser u w = (Ok tt, w6)).
  { unfold KvrocksStorage.deleteUser. run. fold w1. rewrite Esrem.
    cbn [forEach]. run. rewrite sweep_run. fold w3. run.
    rewrite sweep_run. fold w4. run.
    rewrite sweep_run. fold w5. run.
    rewrite sweep_run. fold w6. run. reflexivity. }
  assert (H34 : no_new_keys w3 w4) by apply deleted_no_new.
  assert (H45 : no_new_keys w4 w5) by apply deleted_no_new.
  assert (H56 : no_new_keys w5 w6) by apply deleted_no_new.
  assert (Hpr : gone ("u:" +:+ u +:+ ":pr:*") w6).
  { eapply gone_no_new; [apply deleted_matching_gone|].
    eauto using no_new_keys_trans. }
  assert (Hfav : gone ("u:" +:+ u +:+ ":fav:*") w6).
  { eapply gone_no_new; [apply deleted_matching_gone|].
    eauto using no_new_keys_trans. }
  assert (Hsh : gone ("u:" +:+ u +:+ ":search_history") w6).
  { eapply gone_no_new; [apply deleted_matching_gone|]. exact H56. }
  assert (Hskip : gone ("u:" +:+ u +:+ ":skip_config:*") w6)
    by apply deleted_matching_gone.
  unfold value_of, after. rewrite Hrun. cbn [fst snd].
  split; [reflexivity|]. split; [|split; [|split]].
  - unfold KvrocksStorage.getAllPlayRecords. cbv zeta.
    rewrite (getAll_gone _ _ w6 Hpr). reflexivity.
  - unfold KvrocksStorage.getAllFavorites. cbv zeta.
    rewrite (getAll_gone _ _ w6 Hfav). reflexivity.
  - unfold KvrocksStorage.getAllSkipConfigs. cbv zeta.
    rewrite (getAll_gone _ _ w6 Hskip). reflexivity.
  - intros Hu.
    assert (Hfree : kv w6 !! KvrocksStorage.searchHistoryKey u = None)
      by (apply Hsh, kvrocks_searchHistoryKey_plain, Hu).
    rewrite getSearchHistory_kvrocks by (apply free_list_or_free; exact Hfree).
    rewrite free_list_at by exact Hfree. reflexivity.
Qed.

(** Without that proviso the history can outlast the cascade: the pattern
    [u:a[b]:search_history] matches [u:ab:search_history], not the key of
    the user [a[b]]. *)
Example kvrocks_deleteUser_pattern_name :
  let w1 := after (KvrocksStorage.addSearchHistory "a[b]" "q") empty_world in
  value_of (KvrocksStorage.getSearchHistory "a[b]")
    (after (KvrocksStorage.deleteUser "a[b]") w1) = Ok ["q"].
Proof. vm_compute. reflexivity. Qed.

(** ** The skip-config index *)

Lemma append_inj_r (s a b : string) : s +:+ a = s +:+ b -> a = b.
Proof.
  induction s as [|c s IH]; intros E.
  - exact E.
  - cbv [String.append] in E. fold String.append in E.
    injection E as E. auto.
Qed.

Lemma redis_skipConfigKey_inj u k k' :
  RedisStorage.skipConfigKey u k = RedisStorage.skipConfigKey u k' -> k = k'.
Proof.
  unfold RedisStorage.skipConfigKey. intros E.
  do 3 apply append_inj_r in E. exact E.
Qed.

(** Backend A: [setSkipConfig] is the single write of the config. *)
Lemma kvrocks_setSkipConfig_writes (u k : string) (c : EpisodeSkipConfig) (w : world) :
  KvrocksStorage.setSkipConfig u k c w
  = (Ok tt, with_kv (insert (KvrocksStorage.skipConfigKey u k) (RString (VRecord c))) w).
Proof. unfold KvrocksStorage.setSkipConfig. run. reflexivity. Qed.

Lemma redis_setSkipConfig_run (u k : string) (c : EpisodeSkipConfig) (w : world) :
  set_or_free w (RedisStorage.skipConfigsKey u) ->
  RedisStorage.setSkipConfig u k c w
  = (Ok tt,
     with_kv (insert (RedisStorage.skipConfigsKey u)
                (RSet ({[k]} ∪ set_at w (RedisStorage.skipConfigsKey u))))
       (with_kv (insert (RedisStorage.skipConfigKey u k) (RString (VRecord c))) w)).
Proof.
  intros Hs. unfold RedisStorage.setSkipConfig. run. unfold client.sadd.
  rewrite kv_with_kv, lookup_insert_ne by apply skipConfig_keys_differ.
  unfold set_or_free, set_at in *.
  destruct (kv w !! RedisStorage.skipConfigsKey u) as [[v|l|s]|]; try contradiction;
    run; [reflexivity|].
  rewrite union_empty_r_L. reflexivity.
Qed.

Lemma redis_deleteSkipConfig_run (u k : string) (w : world) :
  set_or_free w (RedisStorage.skipConfigsKey u) ->
  RedisStorage.deleteSkipConfig u k w
  = (Ok tt,
     match kv w !! RedisStorage.skipConfigsKey u with
     | Some (RSet s) =>
         with_kv (put_set (RedisStorage.skipConfigsKey u) (s ∖ {[k]}))
           (with_kv (delete (RedisStorage.skipConfigKey u k)) w)
     | _ => with_kv (delete (RedisStorage.skipConfigKey u k)) w
     end).
Proof.
  intros Hs. unfold RedisStorage.deleteSkipConfig. run. unfold deleted, client.srem.
  rewrite kv_with_kv. simpl.
  rewrite lookup_delete_ne by apply skipConfig_keys_differ.
  unfold set_or_free in Hs.
  destruct (kv w !! RedisStorage.skipConfigsKey u) as [[v|l|s]|]; try contradiction;
    run; reflexivity.
Qed.

(** Claim C3, amended to backend B.  Where the index of a user matches the
    configs stored for that user, [RedisStorage.setSkipConfig] succeeds,
    writes the config, adds the content key to the index set, and the index
    still holds exactly the sub-keys whose config is stored. *)
Theorem redis_setSkipConfig_index (u k : string) (c : EpisodeSkipConfig) (w : world) :
  index_exact w u ->
  value_of (RedisStorage.setSkipConfig u k c) w = Ok tt
  /\ stored (after (RedisStorage.setSkipConfig u k c) w)
       (RedisStorage.skipConfigKey u k) = Some (VRecord c)
  /\ set_at (after (RedisStorage.setSkipConfig u k c) w) (RedisStorage.skipConfigsKey u)
     = {[k]} ∪ set_at w (RedisStorage.skipConfigsKey u)
  /\ index_exact (after (RedisStorage.setSkipConfig u k c) w) u.
Proof.
  intros [Hs Hex].
  unfold after, value_of. rewrite (redis_setSkipConfig_run u k c w Hs). simpl.
  assert (Hset : set_at
            (with_kv (insert (RedisStorage.skipConfigsKey u)
                        (RSet ({[k]} ∪ set_at w (RedisStorage.skipConfigsKey u))))
               (with_kv (insert (RedisStorage.skipConfigKey u k) (RString (VRecord c))) w))
            (RedisStorage.skipConfigsKey u)
          = {[k]} ∪ set_at w (RedisStorage.skipConfigsKey u)).
  { unfold set_at at 1. rewrite kv_with_kv, lookup_insert_eq. reflexivity. }
  split; [reflexivity|]. split; [|split; [exact Hset|]].
  - unfold stored. rewrite !kv_with_kv.
    rewrite lookup_insert_ne by (apply not_eq_sym, skipConfig_keys_differ).
    rewrite lookup_insert_eq. reflexivity.
  - split.
    + unfold set_or_free. rewrite kv_with_kv, lookup_insert_eq. exact I.
    + intros k'. rewrite Hset. rewrite !kv_with_kv.
      rewrite lookup_insert_ne by (apply not_eq_sym, skipConfig_keys_differ).
      destruct (decide (k' = k)) as [->|Hne].
      * rewrite lookup_insert_eq. split; [eauto | set_solver].
      * rewrite lookup_insert_ne
          by (intros E; apply redis_skipConfigKey_inj in E; congruence).
        rewrite <- Hex. set_solver.
Qed.

Lemma index_exact_empty u : index_exact empty_world u.
Proof.
  split; [exact I|]. intros k. unfold set_at, empty_world. simpl.
  rewrite !lookup_empty. split; [set_solver | intros [x Hx]; discriminate].
Qed.

(** [deleteSkipConfig] of backend B keeps the index exact as well. *)
Lemma redis_deleteSkipConfig_index (u k : string) (w : world) :
  index_exact w u ->
  value_of (RedisStorage.deleteSkipConfig u k) w = Ok tt
  /\ kv (after (RedisStorage.deleteSkipConfig u k) w) !! RedisStorage.skipConfigKey u k = None
  /\ set_at (after (RedisStorage.deleteSkipConfig u k) w) (RedisStorage.skipConfigsKey u)
     = set_at w (RedisStorage.skipConfigsKey u) ∖ {[k]}
  /\ index_exact (after (RedisStorage.deleteSkipConfig u k) w) u.
Proof.
  intros [Hs Hex].
  assert (Hset : set_at (after (RedisStorage.deleteSkipConfig u k) w)
                   (RedisStorage.skipConfigsKey u)
                 = set_at w (RedisStorage.skipConfigsKey u) ∖ {[k]}).
  { unfold after. rewrite (redis_deleteSkipConfig_run u k w Hs). simpl.
    unfold set_at, set_or_free in *.
    destruct (kv w !! RedisStorage.skipConfigsKey u) as [[v|l|s]|] eqn:E;
      try contradiction.
    - rewrite kv_with_kv. unfold put_set. case_decide as He.
      + rewrite lookup_delete_eq. symmetry. exact He.
      + rewrite lookup_insert_eq. reflexivity.
    - rewrite kv_with_kv.
      rewrite lookup_delete_ne by apply skipConfig_keys_differ.
      rewrite E. set_solver. }
  split; [|split; [apply redis_deleteSkipConfig_free|split; [exact Hset|]]].
  - unfold value_of. rewrite (redis_deleteSkipConfig_run u k w Hs). reflexivity.
  - split.
    + unfold after. rewrite (redis_deleteSkipConfig_run u k w Hs). simpl.
      unfold set_or_free in *.
      destruct (kv w !! RedisStorage.skipConfigsKey u) as [[v|l|s]|] eqn:E;
        try contradiction.
      * rewrite kv_with_kv. unfold put_set. case_decide.
        -- rewrite lookup_delete_eq. exact I.
        -- rewrite lookup_insert_eq. exact I.
      * rewrite kv_with_kv.
        rewrite lookup_delete_ne by apply skipConfig_keys_differ.
        rewrite E. exact I.
    + intros k'. rewrite Hset.
      assert (Hkv : kv (after (RedisStorage.deleteSkipConfig u k) w)
                      !! RedisStorage.skipConfigKey u k'
                    = delete (RedisStorage.skipConfigKey u k) (kv w)
                      !! RedisStorage.skipConfigKey u k').
      { unfold after. rewrite (redis_deleteSkipConfig_run u k w Hs). simpl.
        destruct (kv w !! RedisStorage.skipConfigsKey u) as [[v|l|s]|];
          rewrite ?kv_with_kv; try reflexivity.
        unfold put_set. case_decide.
        - rewrite lookup_delete_ne by (apply not_eq_sym, skipConfig_keys_differ).
          reflexivity.
        - rewrite lookup_insert_ne by (apply not_eq_sym, skipConfig_keys_differ).
          reflexivity. }
      rewrite Hkv. destruct (decide (k' = k)) as [->|Hne].
      * rewrite lookup_delete_eq. split; [set_solver | intros [x Hx]; discriminate].
      * rewrite lookup_delete_ne
          by (intros E; apply redis_skipConfigKey_inj in E; congruence).
        rewrite <- Hex. set_solver.
Qed.

(** ** The stores of backend B keep their index keys well-typed *)

Lemma keeps_ret {A} (a : A) : keeps_indexes (ret a).
Proof. intros w Hw. exact Hw. Qed.

Lemma keeps_bind {A B} (c : M world A) (k : A -> M world B) :
  keeps_indexes c -> (forall a, keeps_indexes (k a)) -> keeps_indexes (bind c k).
Proof.
  intros Hc Hk w Hw. unfold bind. specialize (Hc w Hw).
  destruct (c w) as [[a|err] w1]; simpl in *; [apply Hk; exact Hc | exact Hc].
Qed.

Lemma keeps_if {A} (b : bool) (c1 c2 : M world A) :
  keeps_indexes c1 -> keeps_indexes c2 -> keeps_indexes (if b then c1 else c2).
Proof. destruct b; auto. Qed.

Lemma keeps_retry {A} (c : M world A) :
  steady c -> keeps_indexes c -> keeps_indexes (retry c).
Proof. intros Hs Hc w Hw. rewrite retry_steady by exact Hs. apply Hc, Hw. Qed.

Lemma keeps_insert_other key (x : rvalue) w :
  not_index key -> indexes_ok w -> indexes_ok (with_kv (insert key x) w).
Proof.
  intros Hk Hw u. unfold set_or_free. rewrite kv_with_kv.
  rewrite lookup_insert_ne by apply Hk. apply Hw.
Qed.

Lemma keeps_delete key w : indexes_ok w -> indexes_ok (with_kv (delete key) w).
Proof.
  intros Hw u. unfold set_or_free. rewrite kv_with_kv.
  destruct (decide (key = RedisStorage.skipConfigsKey u)) as [->|Hne].
  - rewrite lookup_delete_eq. exact I.
  - rewrite lookup_delete_ne by exact Hne. apply Hw.
Qed.

Lemma keeps_insert_set key (s : gset string) w :
  indexes_ok w -> indexes_ok (with_kv (insert key (RSet s)) w).
Proof.
  intros Hw u. unfold set_or_free. rewrite kv_with_kv.
  destruct (decide (key = RedisStorage.skipConfigsKey u)) as [->|Hne].
  - rewrite lookup_insert_eq. exact I.
  - rewrite lookup_insert_ne by exact Hne. apply Hw.
Qed.

Lemma keeps_get key : keeps_indexes (client.get key).
Proof. intros w Hw. unfold client.get. repeat case_match; exact Hw. Qed.

Lemma keeps_set key v : not_index key -> keeps_indexes (client.set key v).
Proof. intros Hk w Hw. apply keeps_insert_other; assumption. Qed.

Lemma keeps_del ks : keeps_indexes (client.del ks).
Proof.
  intros w Hw. simpl. induction ks as [|k ks IH].
  - rewrite deleted_nil. exact Hw.
  - apply (keeps_delete k) in IH. exact IH.
Qed.

Lemma keeps_exists key : keeps_indexes (client.exists_ key).
Proof. intros w Hw. exact Hw. Qed.

Lemma keeps_keys pattern : keeps_indexes (client.keys pattern).
Proof. intros w Hw. exact Hw. Qed.

Lemma keeps_lrange key a b : keeps_indexes (client.lrange key a b).
Proof. intros w Hw. unfold client.lrange. repeat case_match; exact Hw. Qed.

Lemma keeps_put_list key l w :
  not_index key -> indexes_ok w -> indexes_ok (with_kv (put_list key l) w).
Proof.
  intros Hk Hw. destruct l; simpl.
  - apply keeps_delete. exact Hw.
  - apply keeps_insert_other; assumption.
Qed.

Lemma keeps_lrem key n v : not_index key -> keeps_indexes (client.lrem key n v).
Proof.
  intros Hk w Hw. unfold client.lrem.
  repeat case_match; simpl; try exact Hw. apply keeps_put_list; assumption.
Qed.

Lemma keeps_lpush key v : not_index key -> keeps_indexes (client.lpush key v).
Proof.
  intros Hk w Hw. unfold client.lpush.
  repeat case_match; simpl; try exact Hw; apply keeps_insert_other; assumption.
Qed.

Lemma keeps_ltrim key a b : not_index key -> keeps_indexes (client.ltrim key a b).
Proof.
  intros Hk w Hw. unfold client.ltrim.
  repeat case_match; simpl; try exact Hw. apply keeps_put_list; assumption.
Qed.

Lemma keeps_sadd key v : keeps_indexes (client.sadd key v).
Proof.
  intros w Hw. unfold client.sadd.
  repeat case_match; simpl; try exact Hw; apply keeps_insert_set; exact Hw.
Qed.

Lemma keeps_srem key v : keeps_indexes (client.srem key v).
Proof.
  intros w Hw. unfold client.srem.
  repeat case_match; simpl; try exact Hw.
  unfold put_set. case_decide;
    [apply keeps_delete | apply keeps_insert_set]; exact Hw.
Qed.

Ltac not_index_key :=
  let u := fresh "u" in
  let E := fresh "E" in
  intros u E; cbv in E; congruence.

Lemma redis_prKey_not_index u k : not_index (RedisStorage.prKey u k).
Proof. not_index_key. Qed.
Lemma redis_favKey_not_index u k : not_index (RedisStorage.favKey u k).
Proof. not_index_key. Qed.
Lemma redis_userPwdKey_not_index u : not_index (RedisStorage.userPwdKey u).
Proof. not_index_key. Qed.
Lemma redis_shKey_not_index u : not_index (RedisStorage.shKey u).
Proof. not_index_key. Qed.
Lemma redis_userSettingsKey_not_index u : not_index (RedisStorage.userSettingsKey u).
Proof. not_index_key. Qed.
Lemma redis_adminConfigKey_not_index : not_index RedisStorage.adminConfigKey.
Proof. not_index_key. Qed.
Lemma redis_skipConfigKey_not_index u k : not_index (RedisStorage.skipConfigKey u k).
Proof. intros u'. apply skipConfig_keys_differ. Qed.

Create HintDb keeps.
#[local] Hint Resolve keeps_ret keeps_get keeps_set keeps_del keeps_exists
  keeps_keys keeps_lrange keeps_lrem keeps_lpush keeps_ltrim keeps_sadd
  keeps_srem redis_prKey_not_index redis_favKey_not_index
  redis_userPwdKey_not_index redis_shKey_not_index
  redis_userSettingsKey_not_index redis_adminConfigKey_not_index
  redis_skipConfigKey_not_index : keeps.
#[local] Hint Extern 2 (keeps_indexes (bind _ _)) =>
  (apply keeps_bind; [ | intros ? ]) : keeps.
#[local] Hint Extern 2 (keeps_indexes (if _ then _ else _)) =>
  (apply keeps_if) : keeps.
#[local] Hint Extern 2 (keeps_indexes (withRetry _ _)) =>
  (apply keeps_retry; [ solve [eauto 30 with steady] | ]) : keeps.

Lemma redis_do_keeps (c : redis_write) : keeps_indexes (redis_do c).
Proof.
  destruct c; simpl;
    unfold RedisStorage.setPlayRecord, RedisStorage.deletePlayRecord,
      RedisStorage.setFavorite, RedisStorage.deleteFavorite,
      RedisStorage.registerUser, RedisStorage.changePassword,
      RedisStorage.deleteUser, RedisStorage.setUserSettings,
      RedisStorage.updateUserSettings, RedisStorage.getUserSettings,
      RedisStorage.setUserSettings, RedisStorage.addSearchHistory,
      RedisStorage.deleteSearchHistory, RedisStorage.setAdminConfig,
      RedisStorage.setSkipConfig, RedisStorage.deleteSkipConfig;
    cbv zeta; eauto 40 with keeps.
Qed.

Lemma indexes_ok_empty : indexes_ok empty_world.
Proof. intros u. unfold set_or_free, empty_world. simpl. rewrite lookup_empty. exact I. Qed.

(** In every store that calls of backend B produce from the empty store,
    the index keys hold sets, so [setSkipConfig] and [deleteSkipConfig]
    return normally. *)
Lemma redis_store_indexes_ok (calls : list redis_write) :
  indexes_ok (redis_store calls).
Proof.
  unfold redis_store. induction calls as [|c calls IH] using rev_ind.
  - apply indexes_ok_empty.
  - rewrite fold_left_app. simpl. apply redis_do_keeps. exact IH.
Qed.

Lemma redis_store_skip_config_returns (calls : list redis_write)
    (u k : string) (c : EpisodeSkipConfig) :
  value_of (RedisStorage.setSkipConfig u k c) (redis_store calls) = Ok tt
  /\ value_of (RedisStorage.deleteSkipConfig u k) (redis_store calls) = Ok tt.
Proof.
  pose proof (redis_store_indexes_ok calls u) as Hs. split; unfold value_of.
  - rewrite redis_setSkipConfig_run by exact Hs. reflexivity.
  - rewrite redis_deleteSkipConfig_run by exact Hs. reflexivity.
Qed.

(** The writes of the keyed kinds return normally: on every store for all
    but the skip configs of backend B, and for those wherever the index key
    of the user holds a set or nothing. *)
Lemma set_and_delete_return (u k : string) (r : JsonRecord) (w : world) :
  (value_of (KvrocksStorage.setPlayRecord u k r) w = Ok tt
   /\ value_of (KvrocksStorage.deletePlayRecord u k) w = Ok tt)
  /\ (value_of (KvrocksStorage.setFavorite u k r) w = Ok tt
      /\ value_of (KvrocksStorage.deleteFavorite u k) w = Ok tt)
  /\ (value_of (KvrocksStorage.setSkipConfig u k r) w = Ok tt
      /\ value_of (KvrocksStorage.deleteSkipConfig u k) w = Ok tt)
  /\ (value_of (RedisStorage.setPlayRecord u k r) w = Ok tt
      /\ value_of (RedisStorage.deletePlayRecord u k) w = Ok tt)
  /\ (value_of (RedisStorage.setFavorite u k r) w = Ok tt
      /\ value_of (RedisStorage.deleteFavorite u k) w = Ok tt)
  /\ (set_or_free w (RedisStorage.skipConfigsKey u) ->
      value_of (RedisStorage.setSkipConfig u k r) w = Ok tt
      /\ value_of (RedisStorage.deleteSkipConfig u k) w = Ok tt).
Proof.
  split; [|split; [|split; [|split; [|split]]]]; try (split; reflexivity).
  intros Hs. split; unfold value_of.
  - rewrite redis_setSkipConfig_run by exact Hs. reflexivity.
  - rewrite redis_deleteSkipConfig_run by exact Hs. reflexivity.
Qed.

(** * Further properties of the adapters *)

(** ** Computations that create no key *)

Lemma no_new_keys_refl w : no_new_keys w w.
Proof. intros k Hk. exact Hk. Qed.

Lemma creates_nothing_ret {A} (a : A) : creates_nothing (ret a).
Proof. intros w. apply no_new_keys_refl. Qed.

Lemma creates_nothing_bind {A B} (c : M world A) (k : A -> M world B) :
  creates_nothing c -> (forall a, creates_nothing (k a)) -> creates_nothing (bind c k).
Proof.
  intros Hc Hk w. unfold bind. specialize (Hc w).
  destruct (c w) as [[a|err] w1]; simpl in *; [|exact Hc].
  eapply no_new_keys_trans; [exact Hc | apply Hk].
Qed.

Lemma creates_nothing_if {A} (b : bool) (c1 c2 : M world A) :
  creates_nothing c1 -> creates_nothing c2 -> creates_nothing (if b then c1 else c2).
Proof. destruct b; auto. Qed.

Lemma creates_nothing_retry {A} (c : M world A) :
  steady c -> creates_nothing c -> creates_nothing (retry c).
Proof. intros Hs Hc w. rewrite retry_steady by exact Hs. apply Hc. Qed.

Lemma creates_nothing_forEach {A} (l : list A) (body : A -> M world unit) :
  (forall x, creates_nothing (body x)) -> creates_nothing (forEach l body).
Proof.
  intros Hb. induction l as [|x l IH]; simpl.
  - apply creates_nothing_ret.
  - apply creates_nothing_bind; [apply Hb | intros _; exact IH].
Qed.

Lemma creates_nothing_get key : creates_nothing (client.get key).
Proof. intros w. unfold client.get. repeat case_match; apply no_new_keys_refl. Qed.

Lemma creates_nothing_del ks : creates_nothing (client.del ks).
Proof. intros w. apply deleted_no_new. Qed.

Lemma creates_nothing_keys pattern : creates_nothing (client.keys pattern).
Proof. intros w. apply no_new_keys_refl. Qed.

Lemma creates_nothing_srem key member : creates_nothing (client.srem key member).
Proof.
  intros w k Hk. unfold client.srem.
  destruct (kv w !! key) as [[v|l|s]|] eqn:E; simpl; try exact Hk.
  unfold put_set. case_decide.
  - destruct (decide (k = key)) as [->|Hne];
      [apply lookup_delete_eq | rewrite lookup_delete_ne by congruence; exact Hk].
  - destruct (decide (k = key)) as [->|Hne]; [congruence|].
    rewrite lookup_insert_ne by congruence. exact Hk.
Qed.

Create HintDb quiet.
#[local] Hint Resolve creates_nothing_ret creates_nothing_get creates_nothing_del
  creates_nothing_keys creates_nothing_srem : quiet.
#[local] Hint Extern 2 (creates_nothing (bind _ _)) =>
  (apply creates_nothing_bind; [ | intros ? ]) : quiet.
#[local] Hint Extern 2 (creates_nothing (if _ then _ else _)) =>
  (apply creates_nothing_if) : quiet.
#[local] Hint Extern 2 (creates_nothing (forEach _ _)) =>
  (apply creates_nothing_forEach; intros ?) : quiet.
#[local] Hint Extern 2 (creates_nothing (withRetry _ _)) =>
  (apply creates_nothing_retry; [ solve [cbv zeta; eauto 30 with steady] | ]) : quiet.

Lemma kvrocks_deleteUser_quiet u : creates_nothing (KvrocksStorage.deleteUser u).
Proof. unfold KvrocksStorage.deleteUser. cbv zeta. eauto 40 with quiet. Qed.

Lemma redis_deleteUser_quiet u : creates_nothing (RedisStorage.deleteUser u).
Proof. unfold RedisStorage.deleteUser. cbv zeta. eauto 40 with quiet. Qed.

(** ** Accounts: registering, changing the password, deleting *)

Lemma kvrocks_setUser_stored u (v : jsval) w :
  stored (after (KvrocksStorage.setUser u v) w) (KvrocksStorage.userKey u) = Some v.
Proof.
  unfold KvrocksStorage.setUser. run. unfold client.sadd.
  rewrite kv_with_kv, lookup_insert_ne by apply kvrocks_user_keys_differ.
  destruct (kv w !! KvrocksStorage.userListKey) as [[x|l|s]|]; run;
    unfold stored; rewrite ?kv_with_kv;
    rewrite ?(lookup_insert_ne _ KvrocksStorage.userListKey)
      by (apply not_eq_sym, kvrocks_user_keys_differ);
    rewrite lookup_insert_eq; reflexivity.
Qed.

Lemma kvrocks_registerUser_stored u p w :
  stored (after (KvrocksStorage.registerUser u p) w) (KvrocksStorage.userKey u)
  = Some (VUserData {| username := u; password := p; created_at := now w |}).
Proof.
  unfold KvrocksStorage.registerUser, after. rewrite bind_run. unfold Date_now.
  apply kvrocks_setUser_stored.
Qed.

Lemma kvrocks_checkUserExist_stored u (v : jsval) w :
  stored w (KvrocksStorage.userKey u) = Some v -> truthy (read_back v) = true ->
  KvrocksStorage.checkUserExist u w = (Ok true, w).
Proof.
  intros Hs Ht. unfold KvrocksStorage.checkUserExist, KvrocksStorage.getUser. run.
  rewrite (get_stored _ v) by assumption. run. rewrite Ht.
  destruct (read_back v); simpl in Ht; try discriminate; reflexivity.
Qed.


(** Property X2.  Changing the password of an existing account on backend
    A keeps the user name and the creation time of the stored record and
    replaces the password only; afterwards [verifyUser] accepts exactly the
    new password. *)
Theorem kvrocks_changePassword_existing
    (u p q : string) (d : UserData) (w : world) :
  stored w (KvrocksStorage.userKey u) = Some (VUserData d) ->
  stored (after (KvrocksStorage.changePassword u p) w) (KvrocksStorage.userKey u)
  = Some (VUserData {| username := username d; password := p;
                       created_at := created_at d |})
  /\ value_of (KvrocksStorage.verifyUser u q) (after (KvrocksStorage.changePassword u p) w)
     = Ok (VBool (String.eqb p q)).
Proof.
  intros Hs.
  assert (Hst : stored (after (KvrocksStorage.changePassword u p) w)
                  (KvrocksStorage.userKey u)
                = Some (VUserData {| username := username d; password := p;
                                     created_at := created_at d |})).
  { unfold KvrocksStorage.changePassword, KvrocksStorage.getUser, after.
    rewrite !bind_run. unretry. rewrite (get_stored _ _ _ Hs). run.
    cbn [truthy assign_password]. run. apply kvrocks_setUser_stored. }
  split; [exact Hst|].
  unfold value_of. rewrite (kvrocks_verifyUser_stored u q _ _ Hst). reflexivity.
Qed.

Lemma kvrocks_deleteUser_key_gone u w :
  kv (after (KvrocksStorage.deleteUser u) w) !! KvrocksStorage.userKey u = None.
Proof.
  unfold KvrocksStorage.deleteUser, after. unretry. rewrite bind_run, del_run.
  cbn beta iota.
  match goal with
  | |- kv (snd (?rest ?w1)) !! _ = None =>
      assert (Hq : creates_nothing rest) by (cbv zeta; eauto 40 with quiet);
      apply (Hq w1)
  end.
  apply deleted_lookup. left.
Qed.

Lemma redis_deleteUser_key_gone u w :
  kv (after (RedisStorage.deleteUser u) w) !! RedisStorage.userPwdKey u = None.
Proof.
  unfold RedisStorage.deleteUser, after. rewrite bind_run. unretry. rewrite del_run.
  cbn beta iota.
  match goal with
  | |- kv (snd (?rest ?w1)) !! _ = None =>
      assert (Hq : creates_nothing rest) by (cbv zeta; eauto 40 with quiet);
      apply (Hq w1)
  end.
  apply deleted_lookup. left.
Qed.

(** Property X3.  After [deleteUser], on every store and on both backends,
    the account is gone: [checkUserExist] is false and [verifyUser] rejects
    every password (with null on backend A, with false on backend B). *)
Theorem deleteUser_removes_account (u q : string) (w : world) :
  (value_of (KvrocksStorage.checkUserExist u) (after (KvrocksStorage.deleteUser u) w)
   = Ok false
   /\ value_of (KvrocksStorage.verifyUser u q) (after (KvrocksStorage.deleteUser u) w)
      = Ok VNull)
  /\ (value_of (RedisStorage.checkUserExist u) (after (RedisStorage.deleteUser u) w)
      = Ok false
      /\ value_of (RedisStorage.verifyUser u q) (after (RedisStorage.deleteUser u) w)
         = Ok false).
Proof.
  pose proof (kvrocks_deleteUser_key_gone u w) as Ha.
  pose proof (redis_deleteUser_key_gone u w) as Hb.
  split; split; unfold value_of.
  - unfold KvrocksStorage.checkUserExist, KvrocksStorage.getUser.
    rewrite !bind_run. unretry. rewrite (get_free _ _ Ha). reflexivity.
  - rewrite (kvrocks_verifyUser_unknown u q _ Ha). reflexivity.
  - unfold RedisStorage.checkUserExist. rewrite bind_run. unretry.
    unfold client.exists_. rewrite Hb. reflexivity.
  - rewrite (redis_verifyUser_unknown u q _ Hb). reflexivity.
Qed.

(** ** Settings *)

Lemma settings_ext (s1 s2 : UserSettings) :
  (forall f, field_of f s1 = field_of f s2) -> s1 = s2.
Proof.
  intros H. destruct s1, s2.
  pose proof (H FilterAdultContent) as H1. pose proof (H Theme) as H2.
  pose proof (H Language) as H3. pose proof (H AutoPlay) as H4.
  pose proof (H VideoQuality) as H5. simpl in *. congruence.
Qed.

Lemma merge_field_stored (f : field) (d s : UserSettings) (p : PartialUserSettings) :
  field_of f (mergeUserSettings d (Some (full s)) p) = updated_field f s p.
Proof.
  unfold updated_field. destruct f, p as [pf pt pl pa pq]; simpl;
    repeat match goal with
           | |- context [nullish ?x _] => is_var x; destruct x; simpl
           end; reflexivity.
Qed.

Lemma merge_field_given (f : field) (d : UserSettings)
    (c : option PartialUserSettings) (p : PartialUserSettings) (v : fvalue) :
  partial_field_of f p = Some v -> field_of f (mergeUserSettings d c p) = v.
Proof.
  destruct f, p as [pf pt pl pa pq]; simpl;
    repeat match goal with
           | |- context [nullish ?x _] => is_var x; destruct x; simpl
           end; intros E; simplify_eq; reflexivity.
Qed.

(** Property X4.  [mergeUserSettings] as an operation on records: merging
    the result again with the same partial changes nothing; an empty
    partial over an existing record returns that record; and a partial
    that sets all five fields decides the result alone. *)
Theorem mergeUserSettings_algebra
    (d d' : UserSettings) (c c' : option PartialUserSettings)
    (p : PartialUserSettings) (s : UserSettings) :
  mergeUserSettings d (Some (full (mergeUserSettings d c p))) p
  = mergeUserSettings d c p
  /\ mergeUserSettings d (Some (full s)) no_update = s
  /\ mergeUserSettings d c (full s) = s
  /\ mergeUserSettings d c (full s) = mergeUserSettings d' c' (full s).
Proof.
  split; [|split; [|split]].
  - apply settings_ext. intros f. rewrite merge_field_stored.
    unfold updated_field.
    destruct (partial_field_of f p) as [v|] eqn:E; [|reflexivity].
    symmetry. apply merge_field_given. exact E.
  - apply settings_ext. intros f. rewrite merge_field_stored.
    destruct f; reflexivity.
  - destruct s; reflexivity.
  - reflexivity.
Qed.

(** ** Computations that write within a set of keys *)

Lemma writes_within_weaken {A} (K K' : string -> Prop) (c : M world A) :
  (forall k, K k -> K' k) -> writes_within K c -> writes_within K' c.
Proof. intros HK Hc w k Hk. apply Hc. intros HKk. apply Hk, HK, HKk. Qed.

Lemma writes_within_ret {A} K (a : A) : writes_within K (ret a).
Proof. intros w k _. reflexivity. Qed.

Lemma writes_within_bind {A B} K (c : M world A) (k : A -> M world B) :
  writes_within K c -> (forall a, writes_within K (k a)) -> writes_within K (bind c k).
Proof.
  intros Hc Hk w x Hx. unfold bind. specialize (Hc w x Hx).
  destruct (c w) as [[a|err] w1]; simpl in *; [|exact Hc].
  rewrite (Hk a w1 x Hx). exact Hc.
Qed.

Lemma writes_within_if {A} K (b : bool) (c1 c2 : M world A) :
  writes_within K c1 -> writes_within K c2 -> writes_within K (if b then c1 else c2).
Proof. destruct b; auto. Qed.

Lemma writes_within_retry {A} K (c : M world A) :
  steady c -> writes_within K c -> writes_within K (retry c).
Proof. intros Hs Hc w k Hk. rewrite retry_steady by exact Hs. apply Hc, Hk. Qed.

Lemma writes_within_forEach {A} K (l : list A) (body : A -> M world unit) :
  (forall x, x ∈ l -> writes_within K (body x)) -> writes_within K (forEach l body).
Proof.
  induction l as [|x l IH]; intros Hb; simpl.
  - apply writes_within_ret.
  - apply writes_within_bind; [apply Hb; left|].
    intros _. apply IH. intros y Hy. apply Hb. right. exact Hy.
Qed.

Lemma writes_within_get K key : writes_within K (client.get key).
Proof. intros w k _. unfold client.get. repeat case_match; reflexivity. Qed.

Lemma writes_within_exists K key : writes_within K (client.exists_ key).
Proof. intros w k _. reflexivity. Qed.

Lemma writes_within_keys K pattern : writes_within K (client.keys pattern).
Proof. intros w k _. reflexivity. Qed.

Lemma writes_within_mget K ks : writes_within K (client.mget ks).
Proof. intros w k _. reflexivity. Qed.

Lemma writes_within_lrange K key a b : writes_within K (client.lrange key a b).
Proof. intros w k _. unfold client.lrange. repeat case_match; reflexivity. Qed.

Lemma writes_within_smembers K key : writes_within K (client.smembers key).
Proof. intros w k _. unfold client.smembers. repeat case_match; reflexivity. Qed.

Lemma writes_within_set (K : string -> Prop) key v :
  K key -> writes_within K (client.set key v).
Proof.
  intros HK w k Hk. simpl. apply lookup_insert_ne. intros ->. contradiction.
Qed.

Lemma writes_within_del (K : string -> Prop) ks :
  (forall k, k ∈ ks -> K k) -> writes_within K (client.del ks).
Proof.
  intros HK w k Hk. simpl. apply lookup_foldr_delete_not_elem_of.
  intros Hin. apply Hk, HK, Hin.
Qed.

Lemma put_list_other key l (m : gmap string rvalue) k :
  k <> key -> put_list key l m !! k = m !! k.
Proof.
  intros Hne. destruct l; simpl;
    [apply lookup_delete_ne | apply lookup_insert_ne]; congruence.
Qed.

Lemma put_set_other key s (m : gmap string rvalue) k :
  k <> key -> put_set key s m !! k = m !! k.
Proof.
  intros Hne. unfold put_set. case_decide;
    [apply lookup_delete_ne | apply lookup_insert_ne]; congruence.
Qed.

Lemma writes_within_lrem (K : string -> Prop) key n v :
  K key -> writes_within K (client.lrem key n v).
Proof.
  intros HK w k Hk. unfold client.lrem.
  repeat case_match; simpl; try reflexivity.
  apply put_list_other. intros ->. contradiction.
Qed.

Lemma writes_within_lpush (K : string -> Prop) key v :
  K key -> writes_within K (client.lpush key v).
Proof.
  intros HK w k Hk. unfold client.lpush.
  repeat case_match; simpl; try reflexivity;
    apply lookup_insert_ne; intros ->; contradiction.
Qed.

Lemma writes_within_ltrim (K : string -> Prop) key a b :
  K key -> writes_within K (client.ltrim key a b).
Proof.
  intros HK w k Hk. unfold client.ltrim.
  repeat case_match; simpl; try reflexivity.
  apply put_list_other. intros ->. contradiction.
Qed.

Lemma writes_within_sadd (K : string -> Prop) key v :
  K key -> writes_within K (client.sadd key v).
Proof.
  intros HK w k Hk. unfold client.sadd.
  repeat case_match; simpl; try reflexivity;
    apply lookup_insert_ne; intros ->; contradiction.
Qed.

Lemma writes_within_srem (K : string -> Prop) key v :
  K key -> writes_within K (client.srem key v).
Proof.
  intros HK w k Hk. unfold client.srem.
  repeat case_match; simpl; try reflexivity.
  apply put_set_other. intros ->. contradiction.
Qed.

(** [keys] followed by [del] of what it returned writes within the pattern. *)
Lemma writes_within_sweep pattern :
  writes_within (fun k => glob pattern k = true)
    (await keys <- client.keys pattern ;;
     if is_empty keys then ret tt else await_ client.del keys ;; ret tt).
Proof.
  intros w k Hk. rewrite bind_run, keys_run, sweep_run. simpl.
  apply lookup_foldr_delete_not_elem_of. intros Hin.
  apply matching_keys_spec in Hin as [_ Hg]. contradiction.
Qed.

Lemma writes_within_sweep_retry (K : string -> Prop) pattern (rest : M world unit) :
  (forall k, glob pattern k = true -> K k) ->
  writes_within K rest ->
  writes_within K
    (await keys <- retry (client.keys pattern) ;;
     await_ (if is_empty keys then ret tt
             else await_ retry (client.del keys) ;; ret tt) ;;
     rest).
Proof.
  intros HK Hrest w k Hk. rewrite bind_run. unretry. rewrite keys_run.
  cbn beta iota. rewrite bind_run, sweep_retry_run. cbn beta iota.
  rewrite (Hrest _ k Hk). simpl.
  apply lookup_foldr_delete_not_elem_of. intros Hin.
  apply matching_keys_spec in Hin as [_ Hg]. apply Hk, HK, Hg.
Qed.

Create HintDb frame.
#[local] Hint Resolve writes_within_ret writes_within_get writes_within_exists
  writes_within_keys writes_within_mget writes_within_lrange
  writes_within_smembers : frame.
#[local] Hint Extern 2 (writes_within _ (bind _ _)) =>
  (apply writes_within_bind; [ | intros ? ]) : frame.
#[local] Hint Extern 2 (writes_within _ (if _ then _ else _)) =>
  (apply writes_within_if) : frame.
#[local] Hint Extern 2 (writes_within _ (withRetry _ _)) =>
  (apply writes_within_retry; [ solve [cbv zeta; eauto 30 with steady] | ]) : frame.
#[local] Hint Extern 3 (writes_within _ (client.set _ _)) =>
  (apply writes_within_set) : frame.
#[local] Hint Extern 3 (writes_within _ (client.lrem _ _ _)) =>
  (apply writes_within_lrem) : frame.
#[local] Hint Extern 3 (writes_within _ (client.lpush _ _)) =>
  (apply writes_within_lpush) : frame.
#[local] Hint Extern 3 (writes_within _ (client.ltrim _ _ _)) =>
  (apply writes_within_ltrim) : frame.
#[local] Hint Extern 3 (writes_within _ (client.sadd _ _)) =>
  (apply writes_within_sadd) : frame.
#[local] Hint Extern 3 (writes_within _ (client.srem _ _)) =>
  (apply writes_within_srem) : frame.

(** ** What [deleteUser] can reach *)

Lemma kvrocks_deleteUser_within u :
  writes_within (kvrocks_cascade u) (KvrocksStorage.deleteUser u).
Proof.
  unfold KvrocksStorage.deleteUser. cbv zeta.
  apply writes_within_retry; [cbv zeta; eauto 30 with steady|].
  apply writes_within_bind.
  { apply writes_within_del. intros k Hk. apply list_elem_of_singleton in Hk.
    left. exact Hk. }
  intros _. apply writes_within_bind.
  { apply writes_within_srem. right. left. reflexivity. }
  intros _. apply writes_within_forEach. intros pattern Hin.
  eapply writes_within_weaken; [|apply writes_within_sweep].
  intros k Hk. unfold kvrocks_cascade.
  repeat (apply elem_of_cons in Hin as [->|Hin]; [tauto|]).
  apply elem_of_nil in Hin. contradiction.
Qed.

Lemma redis_deleteUser_within u :
  writes_within (redis_cascade u) (RedisStorage.deleteUser u).
Proof.
  unfold RedisStorage.deleteUser. cbv zeta.
  apply writes_within_bind.
  { apply writes_within_retry; [eauto with steady|]. apply writes_within_del.
    intros k Hk. apply list_elem_of_singleton in Hk. left. exact Hk. }
  intros _. apply writes_within_bind.
  { apply writes_within_retry; [eauto with steady|]. apply writes_within_del.
    intros k Hk. apply list_elem_of_singleton in Hk. right. left. exact Hk. }
  intros _.
  apply writes_within_sweep_retry; [unfold redis_cascade; tauto|].
  apply writes_within_sweep_retry; [unfold redis_cascade; tauto|].
  apply writes_within_bind; [|intros _; apply writes_within_ret].
  apply writes_within_retry; [eauto with steady|]. apply writes_within_del.
  intros k Hk. apply list_elem_of_singleton in Hk. unfold redis_cascade. tauto.
Qed.

(** ** Patterns with a literal prefix *)

Lemma tokenize_literal_prefix (pre p : list ascii) :
  forallb (fun c => negb (is_meta c)) pre = true ->
  tokenize (length (pre ++ p)%list) (pre ++ p)%list
  = (map GLit pre ++ tokenize (length p) p)%list.
Proof.
  intros Hpre. induction pre as [|c pre IH]; [reflexivity|].
  simpl in Hpre. apply andb_true_iff in Hpre as [Hc Hpre].
  apply negb_true_iff in Hc. unfold is_meta in Hc.
  apply orb_false_iff in Hc as [Hc H4].
  apply orb_false_iff in Hc as [Hc H3].
  apply orb_false_iff in Hc as [H1 H2].
  simpl. rewrite H1, H2, H3, H4, (IH Hpre). reflexivity.
Qed.

Lemma tmatch_literal_prefix (pre : list ascii) (ts : list gtok) (s : list ascii) :
  tmatch (map GLit pre ++ ts)%list s = true
  <-> exists s', s = (pre ++ s')%list /\ tmatch ts s' = true.
Proof.
  revert s. induction pre as [|c pre IH]; intros s; simpl.
  - split; [eauto | intros (s' & -> & H); exact H].
  - destruct s as [|a s0].
    + split; [discriminate | intros (s' & E & _); discriminate].
    + rewrite andb_true_iff, IH. split.
      * intros [Hc (s' & -> & H)]. apply Ascii.eqb_eq in Hc as ->. eauto.
      * intros (s' & [= -> ->] & H). split; [apply Ascii.eqb_refl | eauto].
Qed.

Lemma tmatch_star_any (s : list ascii) : tmatch [GStar] s = true.
Proof.
  induction s as [|a s IH]; [reflexivity|].
  change (tmatch [GStar] (a :: s)) with (tmatch [] (a :: s) || tmatch [GStar] s).
  rewrite IH. apply orb_true_r.
Qed.

Lemma glob_star (sub : string) : glob "*" sub = true.
Proof. unfold glob. simpl. apply tmatch_star_any. Qed.

Lemma glob_prefix_inv (pre p key : string) :
  plain pre = true -> glob (pre +:+ p) key = true ->
  exists sub, key = pre +:+ sub /\ glob p sub = true.
Proof.
  unfold plain, glob. intros Hpre Hg.
  rewrite list_ascii_of_append, tokenize_literal_prefix in Hg by exact Hpre.
  apply tmatch_literal_prefix in Hg as (s' & Hs & Hm).
  exists (string_of_list_ascii s'). split.
  - rewrite <- (string_of_list_ascii_of_string key), Hs.
    rewrite <- (string_of_list_ascii_of_string (pre +:+ string_of_list_ascii s')).
    rewrite list_ascii_of_append, list_ascii_of_string_of_list_ascii. reflexivity.
  - rewrite list_ascii_of_string_of_list_ascii. exact Hm.
Qed.

Lemma glob_prefix_intro (pre p sub : string) :
  plain pre = true -> glob p sub = true -> glob (pre +:+ p) (pre +:+ sub) = true.
Proof.
  unfold plain, glob. intros Hpre Hg.
  rewrite !list_ascii_of_append, tokenize_literal_prefix by exact Hpre.
  apply tmatch_literal_prefix. eauto.
Qed.

Lemma append_assoc (a b c : string) : (a +:+ b) +:+ c = a +:+ (b +:+ c).
Proof.
  induction a as [|x a IH]; [reflexivity|].
  cbv [String.append]. fold String.append. f_equal. exact IH.
Qed.

(** Every pattern of the cascades starts with the two characters [u:]. *)
Lemma glob_u_colon (p key : string) :
  glob ("u:" +:+ p) key = true -> exists sub, key = "u:" +:+ sub.
Proof.
  intros Hg. apply glob_prefix_inv in Hg as (sub & -> & _); [eauto | reflexivity].
Qed.

Lemma kvrocks_cascade_spares_admin u :
  ~ kvrocks_cascade u KvrocksStorage.adminConfigKey.
Proof.
  unfold kvrocks_cascade.
  intros [E|[E|[H|[H|[H|H]]]]]; try (cbv in E; congruence);
    apply glob_u_colon in H as (sub & E); cbv in E; congruence.
Qed.

Lemma redis_cascade_spares_admin u :
  ~ redis_cascade u RedisStorage.adminConfigKey.
Proof.
  unfold redis_cascade.
  intros [E|[E|[H|[H|E]]]]; try (cbv in E; congruence);
    apply glob_u_colon in H as (sub & E); cbv in E; congruence.
Qed.

(** ** Reading one key *)

Lemma read_frame {B} (key : string) (f : jsval -> B) (w1 w2 : world) :
  kv w1 !! key = kv w2 !! key ->
  value_of (await val <- retry (client.get key) ;; ret (f val)) w1
  = value_of (await val <- retry (client.get key) ;; ret (f val)) w2.
Proof.
  intros E. unfold value_of. rewrite !bind_run. unretry. unfold client.get.
  rewrite E. destruct (kv w2 !! key) as [[v|l|s]|]; reflexivity.
Qed.


(** ** Settings through the adapters *)

Lemma kvrocks_setUserSettings_run u s w :
  KvrocksStorage.setUserSettings u s w
  = (Ok tt, with_kv (insert (KvrocksStorage.userSettingsKey u) (RString (VSettings s))) w).
Proof. unfold KvrocksStorage.setUserSettings. run. reflexivity. Qed.

Lemma redis_setUserSettings_run u s w :
  RedisStorage.setUserSettings u s w
  = (Ok tt, with_kv (insert (RedisStorage.userSettingsKey u) (RString (VSettings s))) w).
Proof. unfold RedisStorage.setUserSettings. run. reflexivity. Qed.

Lemma kvrocks_getUserSettings_free u w :
  kv w !! KvrocksStorage.userSettingsKey u = None ->
  KvrocksStorage.getUserSettings u w = (Ok VNull, w).
Proof.
  intros Hn. unfold KvrocksStorage.getUserSettings. run.
  rewrite get_free by assumption. reflexivity.
Qed.

Lemma redis_getUserSettings_free u w :
  kv w !! RedisStorage.userSettingsKey u = None ->
  RedisStorage.getUserSettings u w = (Ok (VSettings RedisStorage.defaultSettings), w).
Proof.
  intros Hn. unfold RedisStorage.getUserSettings. run.
  rewrite get_free by assumption. reflexivity.
Qed.

Lemma kvrocks_updateUserSettings_stored u s p w :
  stored w (KvrocksStorage.userSettingsKey u) = Some (VSettings s) ->
  KvrocksStorage.updateUserSettings u p w
  = KvrocksStorage.setUserSettings u
      (mergeUserSettings KvrocksStorage.defaultSettings (Some (full s)) p) w.
Proof.
  intros Hs. rewrite settings_keys_agree in Hs.
  destruct (getUserSettings_stored u s w Hs) as [_ Ha].
  unfold KvrocksStorage.updateUserSettings. rewrite bind_run, Ha. reflexivity.
Qed.

Lemma redis_updateUserSettings_stored u s p w :
  stored w (RedisStorage.userSettingsKey u) = Some (VSettings s) ->
  RedisStorage.updateUserSettings u p w
  = RedisStorage.setUserSettings u
      (mergeUserSettings RedisStorage.defaultSettings (Some (full s)) p) w.
Proof.
  intros Hs. destruct (getUserSettings_stored u s w Hs) as [Hb _].
  unfold RedisStorage.updateUserSettings. rewrite bind_run, Hb. reflexivity.
Qed.

(** Property X6.  Settings written and read back, on both backends and
    every store: [getUserSettings] after [setUserSettings] returns the
    record written; and after a further [updateUserSettings] it returns a
    record in which every field has the value of the partial where the
    partial gives one, and the value written before otherwise. *)
Theorem settings_set_update_get
    (u : string) (s : UserSettings) (p : PartialUserSettings) (w : world) :
  (value_of (KvrocksStorage.getUserSettings u)
     (after (KvrocksStorage.setUserSettings u s) w) = Ok (VSettings s)
   /\ exists s',
        value_of (KvrocksStorage.getUserSettings u)
          (after (KvrocksStorage.updateUserSettings u p)
             (after (KvrocksStorage.setUserSettings u s) w)) = Ok (VSettings s')
        /\ forall f, field_of f s' = updated_field f s p)
  /\ (value_of (RedisStorage.getUserSettings u)
        (after (RedisStorage.setUserSettings u s) w) = Ok (VSettings s)
      /\ exists s',
           value_of (RedisStorage.getUserSettings u)
             (after (RedisStorage.updateUserSettings u p)
                (after (RedisStorage.setUserSettings u s) w)) = Ok (VSettings s')
           /\ forall f, field_of f s' = updated_field f s p).
Proof.
  assert (Hread : forall s0 w0,
    stored (with_kv (insert (RedisStorage.userSettingsKey u) (RString (VSettings s0))) w0)
      (RedisStorage.userSettingsKey u) = Some (VSettings s0))
    by (intros; apply stored_insert).
  split; split.
  - unfold after, value_of. rewrite kvrocks_setUserSettings_run. simpl.
    rewrite settings_keys_agree.
    destruct (getUserSettings_stored u s _ (Hread s w)) as [_ ->]. reflexivity.
  - exists (mergeUserSettings KvrocksStorage.defaultSettings (Some (full s)) p).
    split; [|intros f; apply merge_field_stored].
    unfold after, value_of. rewrite kvrocks_setUserSettings_run. simpl.
    rewrite (kvrocks_updateUserSettings_stored u s p)
      by (rewrite settings_keys_agree; apply Hread).
    rewrite kvrocks_setUserSettings_run. simpl. rewrite settings_keys_agree.
    match goal with
    | |- context [with_kv (insert _ (RString (VSettings ?s0))) ?w0] =>
        destruct (getUserSettings_stored u s0 _ (Hread s0 w0)) as [_ ->]
    end.
    reflexivity.
  - unfold after, value_of. rewrite redis_setUserSettings_run. simpl.
    destruct (getUserSettings_stored u s _ (Hread s w)) as [-> _]. reflexivity.
  - exists (mergeUserSettings RedisStorage.defaultSettings (Some (full s)) p).
    split; [|intros f; apply merge_field_stored].
    unfold after, value_of. rewrite redis_setUserSettings_run. simpl.
    rewrite (redis_updateUserSettings_stored u s p) by apply Hread.
    rewrite redis_setUserSettings_run. simpl.
    match goal with
    | |- context [with_kv (insert _ (RString (VSettings ?s0))) ?w0] =>
        destruct (getUserSettings_stored u s0 _ (Hread s0 w0)) as [-> _]
    end.
    reflexivity.
Qed.

(** Property X7.  The first update of a user with nothing stored under
    the settings key.  Each backend then stores a record whose fields are
    those of the partial where given and its own defaults otherwise; the
    two backends store the same record exactly when the partial gives
    [auto_play]. *)
Theorem updateUserSettings_first
    (u : string) (p : PartialUserSettings) (w : world)
    (Hfree : kv w !! RedisStorage.userSettingsKey u = None) :
  exists sa sb,
    value_of (KvrocksStorage.getUserSettings u)
      (after (KvrocksStorage.updateUserSettings u p) w) = Ok (VSettings sa)
    /\ value_of (RedisStorage.getUserSettings u)
         (after (RedisStorage.updateUserSettings u p) w) = Ok (VSettings sb)
    /\ (forall f, field_of f sa = updated_field f KvrocksStorage.defaultSettings p)
    /\ (forall f, field_of f sb = updated_field f RedisStorage.defaultSettings p)
    /\ (sa = sb <-> is_Some (p_auto_play p)).
Proof.
  exists (mergeUserSettings KvrocksStorage.defaultSettings None p),
         (mergeUserSettings RedisStorage.defaultSettings
            (Some (full RedisStorage.defaultSettings)) p).
  split; [|split; [|split; [|split]]].
  - unfold after, value_of, KvrocksStorage.updateUserSettings.
    rewrite bind_run.
    rewrite (kvrocks_getUserSettings_free u w)
      by (rewrite settings_keys_agree; exact Hfree).
    cbv zeta. simpl as_current. rewrite kvrocks_setUserSettings_run. simpl.
    rewrite settings_keys_agree.
    match goal with
    | |- context [with_kv (insert ?k (RString (VSettings ?s0))) ?w0] =>
        destruct (getUserSettings_stored u s0 (with_kv (insert k (RString (VSettings s0))) w0)
                    (stored_insert _ _ _)) as [_ ->]
    end.
    reflexivity.
  - unfold after, value_of, RedisStorage.updateUserSettings.
    rewrite bind_run. rewrite (redis_getUserSettings_free u w) by exact Hfree.
    cbv zeta. simpl as_current. rewrite redis_setUserSettings_run. simpl.
    match goal with
    | |- context [with_kv (insert ?k (RString (VSettings ?s0))) ?w0] =>
        destruct (getUserSettings_stored u s0 (with_kv (insert k (RString (VSettings s0))) w0)
                    (stored_insert _ _ _)) as [-> _]
    end.
    reflexivity.
  - intros f. destruct f, p as [pf pt pl pa pq]; simpl;
      repeat match goal with
             | |- context [nullish ?x _] => is_var x; destruct x; simpl
             end; reflexivity.
  - intros f. apply merge_field_stored.
  - destruct p as [pf pt pl [b|] pq]; simpl; split.
    + intros _. eauto.
    + intros _. reflexivity.
    + intros E. apply (f_equal auto_play) in E. simpl in E. discriminate.
    + intros [b Hb]. discriminate.
Qed.

(** ** Footprints of the calls *)

Lemma redis_footprint_sound (c : redis_write) :
  writes_within (redis_footprint c) (redis_do c).
Proof.
  destruct c; simpl; try apply redis_deleteUser_within;
    unfold RedisStorage.setPlayRecord, RedisStorage.deletePlayRecord,
      RedisStorage.setFavorite, RedisStorage.deleteFavorite,
      RedisStorage.registerUser, RedisStorage.changePassword,
      RedisStorage.updateUserSettings, RedisStorage.getUserSettings,
      RedisStorage.setUserSettings, RedisStorage.addSearchHistory,
      RedisStorage.deleteSearchHistory, RedisStorage.setAdminConfig,
      RedisStorage.setSkipConfig, RedisStorage.deleteSkipConfig; cbv zeta;
    repeat first
      [ apply writes_within_ret
      | apply writes_within_get
      | apply writes_within_bind; [|intros ?]
      | apply writes_within_if
      | apply writes_within_retry; [cbv zeta; eauto 30 with steady|]
      | apply writes_within_set; simpl; auto
      | apply writes_within_lrem; reflexivity
      | apply writes_within_lpush; reflexivity
      | apply writes_within_ltrim; reflexivity
      | apply writes_within_sadd; simpl; auto
      | apply writes_within_srem; simpl; auto
      | apply writes_within_del; intros ? ->%list_elem_of_singleton; simpl; auto ].
Qed.

Lemma writes_within_Date_now K : writes_within K Date_now.
Proof. intros w k _. reflexivity. Qed.

Lemma writes_within_assign_password K v p : writes_within K (assign_password v p).
Proof. intros w k _. destruct v; reflexivity. Qed.

Lemma kvrocks_footprint_sound (c : redis_write) :
  writes_within (kvrocks_footprint c) (kvrocks_do c).
Proof.
  destruct c; simpl; try apply kvrocks_deleteUser_within;
    unfold KvrocksStorage.setPlayRecord, KvrocksStorage.deletePlayRecord,
      KvrocksStorage.setFavorite, KvrocksStorage.deleteFavorite,
      KvrocksStorage.registerUser, KvrocksStorage.changePassword,
      KvrocksStorage.setUser, KvrocksStorage.getUser,
      KvrocksStorage.updateUserSettings, KvrocksStorage.getUserSettings,
      KvrocksStorage.setUserSettings, KvrocksStorage.addSearchHistory,
      KvrocksStorage.deleteSearchHistory, KvrocksStorage.setAdminConfig,
      KvrocksStorage.setSkipConfig, KvrocksStorage.deleteSkipConfig; cbv zeta;
    repeat first
      [ apply writes_within_ret
      | apply writes_within_Date_now
      | apply writes_within_assign_password
      | apply writes_within_get
      | apply writes_within_bind; [|intros ?]
      | apply writes_within_if
      | apply writes_within_retry; [cbv zeta; eauto 30 with steady|]
      | apply writes_within_set; simpl; auto
      | apply writes_within_lrem; reflexivity
      | apply writes_within_lpush; reflexivity
      | apply writes_within_ltrim; reflexivity
      | apply writes_within_sadd; simpl; auto
      | apply writes_within_srem; simpl; auto
      | apply writes_within_del; intros ? ->%list_elem_of_singleton; simpl; auto ].
Qed.

(** ** Keys of distinct users *)

Lemma colon_free_cons c s :
  colon_free (String c s) = negb (Ascii.eqb c ":") && colon_free s.
Proof. reflexivity. Qed.

Lemma colon_split (a b x y : string) :
  colon_free a = true -> colon_free b = true ->
  a +:+ ":" +:+ x = b +:+ ":" +:+ y -> a = b /\ x = y.
Proof.
  revert b. induction a as [|c a IH]; intros [|d b] Ha Hb E;
    cbv [String.append] in E; fold String.append in E.
  - injection E as E. auto.
  - injection E as E1 E2. subst d. rewrite colon_free_cons in Hb. discriminate.
  - injection E as E1 E2. subst c. rewrite colon_free_cons in Ha. discriminate.
  - injection E as E1 E2. subst d.
    rewrite colon_free_cons in Ha, Hb.
    apply andb_true_iff in Ha as [_ Ha]. apply andb_true_iff in Hb as [_ Hb].
    destruct (IH b Ha Hb E2) as [-> ->]. auto.
Qed.

(** A key matched by a pattern [u:NAME:...] of the cascade lies under the
    prefix of the user, if the name has no pattern character. *)
Lemma glob_user_prefix (u tail k : string) :
  plain u = true -> glob ("u:" +:+ u +:+ ":" +:+ tail) k = true ->
  exists rest, k = "u:" +:+ u +:+ ":" +:+ rest.
Proof.
  intros Hu Hg.
  apply glob_prefix_inv in Hg as (s1 & -> & Hg); [|reflexivity].
  apply glob_prefix_inv in Hg as (s2 & -> & Hg); [|exact Hu].
  apply glob_prefix_inv in Hg as (s3 & -> & Hg); [|reflexivity].
  eauto.
Qed.

Lemma redis_cascade_owned (u k : string) :
  plain u = true -> redis_cascade u k -> redis_owned u k.
Proof.
  intros Hu [-> | [-> | [H | [H | -> ]]]]; left.
  - exists "pwd". reflexivity.
  - exists "sh". reflexivity.
  - apply (glob_user_prefix u "pr:*" k Hu H).
  - apply (glob_user_prefix u "fav:*" k Hu H).
  - exists "settings". reflexivity.
Qed.

Lemma redis_footprint_owned (c : redis_write) (u k : string) :
  caller c = Some u -> pattern_safe c -> redis_footprint c k -> redis_owned u k.
Proof.
  destruct c; simpl; intros [= <-] Hsafe Hk;
    try (apply redis_cascade_owned; assumption);
    try (destruct Hk as [ -> | -> ]; [right; left; eauto | right; right; reflexivity]);
    subst k; left.
  - exists ("pr:" +:+ k0). reflexivity.
  - exists ("pr:" +:+ k0). reflexivity.
  - exists ("fav:" +:+ k0). reflexivity.
  - exists ("fav:" +:+ k0). reflexivity.
  - exists "pwd". reflexivity.
  - exists "pwd". reflexivity.
  - exists "settings". reflexivity.
  - exists "settings". reflexivity.
  - exists "sh". reflexivity.
  - exists "sh". reflexivity.
Qed.

Lemma redis_owned_disjoint (u v k : string) :
  colon_free u = true -> colon_free v = true ->
  redis_owned u k -> redis_owned v k -> u = v.
Proof.
  intros Hu Hv [[r -> ] | [[x -> ] | -> ]] [[r' E] | [[x' E] | E]];
    unfold RedisStorage.skipConfigKey, RedisStorage.skipConfigsKey in *;
    try (cbv in E; congruence).
  - apply append_inj_r in E. apply (colon_split u v r r' Hu Hv E).
  - apply append_inj_r in E. apply (colon_split u v x x' Hu Hv E).
Qed.

Lemma redis_owned_not_admin (v : string) : ~ redis_owned v RedisStorage.adminConfigKey.
Proof.
  intros [[r E]|[[x E]|E]]; cbv in E; congruence.
Qed.

(** Property X8.  Isolation of users on backend B.  A call made for one
    user leaves every key of any other user as it was, provided both names
    are free of the separator [:] and, for [deleteUser], the name has no
    pattern character; and [setAdminConfig] changes no key of any user. *)
Theorem redis_calls_isolated (c : redis_write) (v k : string) (w : world)
    (Hsafe : pattern_safe c)
    (Hcaller : forall u, caller c = Some u -> colon_free u = true /\ u <> v)
    (Hv : colon_free v = true)
    (Hk : redis_owned v k) :
  kv (after (redis_do c) w) !! k = kv w !! k.
Proof.
  apply redis_footprint_sound. intros Hfp.
  destruct (caller c) as [u|] eqn:Ec.
  - destruct (Hcaller u eq_refl) as [Hu Hne]. apply Hne.
    apply (redis_owned_disjoint u v k Hu Hv); [|exact Hk].
    apply (redis_footprint_owned c u k Ec Hsafe Hfp).
  - destruct c; try discriminate. simpl in Hfp. subst k.
    apply (redis_owned_not_admin v Hk).
Qed.

Example redis_deleteUser_reaches_colon_name :
  let w := after (RedisStorage.registerUser "a:pr:x" "pw") empty_world in
  value_of (RedisStorage.checkUserExist "a:pr:x") w = Ok true
  /\ value_of (RedisStorage.checkUserExist "a:pr:x")
       (after (RedisStorage.deleteUser "a") w) = Ok false.
Proof. split; vm_compute; reflexivity. Qed.

(** ** Isolation on backend A *)

Lemma kvrocks_cascade_owned (u k : string) :
  plain u = true -> kvrocks_cascade u k ->
  kvrocks_owned u k \/ k = KvrocksStorage.userListKey.
Proof.
  intros Hu [-> | [-> | [H | [H | [H | H]]]]];
    [left; right; reflexivity | right; reflexivity | left; left ..].
  - apply (glob_user_prefix u "pr:*" k Hu H).
  - apply (glob_user_prefix u "fav:*" k Hu H).
  - apply (glob_user_prefix u "search_history" k Hu H).
  - apply (glob_user_prefix u "skip_config:*" k Hu H).
Qed.

Lemma kvrocks_footprint_owned (c : redis_write) (u k : string) :
  caller c = Some u -> pattern_safe c -> kvrocks_footprint c k ->
  kvrocks_owned u k \/ k = KvrocksStorage.userListKey.
Proof.
  destruct c; simpl; intros [= <-] Hsafe Hk;
    try (apply kvrocks_cascade_owned; assumption);
    try (destruct Hk as [ -> | -> ]; [left; right; reflexivity | right; reflexivity]);
    subst k; left; left.
  - exists ("pr:" +:+ k0). reflexivity.
  - exists ("pr:" +:+ k0). reflexivity.
  - exists ("fav:" +:+ k0). reflexivity.
  - exists ("fav:" +:+ k0). reflexivity.
  - exists "settings". reflexivity.
  - exists "settings". reflexivity.
  - exists "search_history". reflexivity.
  - exists "search_history". reflexivity.
  - exists ("skip_config:" +:+ k0). reflexivity.
  - exists ("skip_config:" +:+ k0). reflexivity.
Qed.

Lemma kvrocks_owned_disjoint (u v k : string) :
  colon_free u = true -> colon_free v = true ->
  kvrocks_owned u k -> kvrocks_owned v k -> u = v.
Proof.
  intros Hu Hv [[r -> ] | -> ] [[r' E] | E];
    unfold KvrocksStorage.userKey in *; try (cbv in E; congruence).
  apply append_inj_r in E. apply (colon_split u v r r' Hu Hv E).
Qed.

Lemma kvrocks_owned_not_shared (v k : string) :
  kvrocks_owned v k ->
  k <> KvrocksStorage.userListKey /\ k <> KvrocksStorage.adminConfigKey.
Proof.
  intros [[r -> ] | -> ]; split; intros E; cbv in E; congruence.
Qed.

Lemma set_at_frame (w w' : world) (key : string) :
  kv w' !! key = kv w !! key -> set_at w' key = set_at w key.
Proof. unfold set_at. intros ->. reflexivity. Qed.

Lemma keeps_other_users_within {A} (K : string -> Prop) u (c : M world A) :
  writes_within K c -> ~ K KvrocksStorage.userListKey -> keeps_other_users u c.
Proof.
  intros Hc HK w v _. rewrite (set_at_frame w (snd (c w))); [reflexivity|].
  apply Hc, HK.
Qed.

Lemma keeps_other_users_bind {A B} u (c : M world A) (k : A -> M world B) :
  keeps_other_users u c -> (forall a, keeps_other_users u (k a)) ->
  keeps_other_users u (bind c k).
Proof.
  intros Hc Hk w v Hv. unfold bind. specialize (Hc w v Hv).
  destruct (c w) as [[a|err] w1]; simpl in *; [|exact Hc].
  rewrite (Hk a w1 v Hv). exact Hc.
Qed.

Lemma keeps_other_users_retry {A} u (c : M world A) :
  steady c -> keeps_other_users u c -> keeps_other_users u (retry c).
Proof. intros Hs Hc w v Hv. rewrite retry_steady by exact Hs. apply Hc, Hv. Qed.

Lemma keeps_other_users_sadd u :
  keeps_other_users u (client.sadd KvrocksStorage.userListKey u).
Proof.
  intros w v Hv. unfold client.sadd, set_at.
  destruct (kv w !! KvrocksStorage.userListKey) as [[x|l|s]|] eqn:E; simpl;
    rewrite ?lookup_insert_eq, ?E; set_solver.
Qed.

Lemma keeps_other_users_srem u :
  keeps_other_users u (client.srem KvrocksStorage.userListKey u).
Proof.
  intros w v Hv. unfold client.srem, set_at.
  destruct (kv w !! KvrocksStorage.userListKey) as [[x|l|s]|] eqn:E; simpl;
    rewrite ?E; try reflexivity.
  unfold put_set. case_decide as Hs.
  - rewrite lookup_delete_eq. set_solver.
  - rewrite lookup_insert_eq. set_solver.
Qed.

Lemma kvrocks_setUser_keeps_others u d :
  keeps_other_users u (KvrocksStorage.setUser u d).
Proof.
  unfold KvrocksStorage.setUser.
  apply keeps_other_users_retry; [eauto 30 with steady|].
  apply keeps_other_users_bind.
  { apply (keeps_other_users_within (fun k => k = KvrocksStorage.userKey u)).
    - apply writes_within_set. reflexivity.
    - intros E. symmetry in E. apply (kvrocks_user_keys_differ u E). }
  intros _. apply keeps_other_users_bind; [apply keeps_other_users_sadd|].
  intros _. apply (keeps_other_users_within (fun _ => False)); [|tauto].
  apply writes_within_ret.
Qed.

Lemma kvrocks_do_keeps_others (c : redis_write) (u : string) :
  caller c = Some u -> keeps_other_users u (kvrocks_do c).
Proof.
  assert (Hread : forall (c0 : M world jsval),
    writes_within (fun _ => False) c0 -> keeps_other_users u c0)
    by (intros c0 H0; apply (keeps_other_users_within _ u c0 H0); tauto).
  assert (Hplain : forall c0 : redis_write,
    ~ kvrocks_footprint c0 KvrocksStorage.userListKey ->
    keeps_other_users u (kvrocks_do c0))
    by (intros c0 H0;
        apply (keeps_other_users_within _ u _ (kvrocks_footprint_sound c0) H0)).
  destruct c; intros Hc; simpl in Hc; try discriminate; injection Hc as <-;
    try (apply Hplain; simpl; intros E; discriminate E); simpl.
  - unfold KvrocksStorage.registerUser. apply keeps_other_users_bind.
    + apply (keeps_other_users_within (fun _ => False)); [|tauto].
      apply writes_within_Date_now.
    + intros t. apply kvrocks_setUser_keeps_others.
  - unfold KvrocksStorage.changePassword, KvrocksStorage.getUser.
    apply keeps_other_users_bind.
    + apply (keeps_other_users_within (fun _ => False)); [|tauto].
      apply writes_within_bind; [|intros ?; apply writes_within_ret].
      apply writes_within_retry; [eauto with steady|]. apply writes_within_get.
    + intros d. destruct (truthy d).
      * apply keeps_other_users_bind.
        -- apply (keeps_other_users_within (fun _ => False)); [|tauto].
           apply writes_within_assign_password.
        -- intros d'. apply kvrocks_setUser_keeps_others.
      * apply (keeps_other_users_within (fun _ => False)); [|tauto].
        apply writes_within_ret.
  - unfold KvrocksStorage.deleteUser. cbv zeta.
    apply keeps_other_users_retry; [cbv zeta; eauto 30 with steady|].
    apply keeps_other_users_bind.
    { apply (keeps_other_users_within (fun k => k = KvrocksStorage.userKey u0)).
      - apply writes_within_del. intros k ->%list_elem_of_singleton. reflexivity.
      - intros E. symmetry in E. apply (kvrocks_user_keys_differ u0 E). }
    intros _. apply keeps_other_users_bind; [apply keeps_other_users_srem|].
    intros _.
    apply (keeps_other_users_within
             (fun k => exists sub, k = "u:" +:+ sub)).
    + apply writes_within_forEach. intros pattern Hin.
      eapply writes_within_weaken; [|apply writes_within_sweep].
      intros k Hk. simpl in Hk.
      repeat (apply elem_of_cons in Hin as [-> | Hin];
              [apply (glob_u_colon _ _ Hk)|]).
      apply elem_of_nil in Hin. contradiction.
    + intros [sub E]. cbv in E. congruence.
Qed.

(** Property X9.  Isolation of users on backend A.  Under the same
    provisos as on backend B, a call made for one user leaves every key of
    any other user as it was, and neither adds the other user to the user
    list nor removes it from the list. *)
Theorem kvrocks_calls_isolated (c : redis_write) (u v : string) (w : world)
    (Hsafe : pattern_safe c)
    (Hcaller : caller c = Some u)
    (Hu : colon_free u = true)
    (Hv : colon_free v = true)
    (Hne : u <> v) :
  (forall k, kvrocks_owned v k -> kv (after (kvrocks_do c) w) !! k = kv w !! k)
  /\ (v ∈ set_at (after (kvrocks_do c) w) KvrocksStorage.userListKey
      <-> v ∈ set_at w KvrocksStorage.userListKey).
Proof.
  split.
  - intros k Hk. apply kvrocks_footprint_sound. intros Hfp.
    destruct (kvrocks_footprint_owned c u k Hcaller Hsafe Hfp) as [Ho | E].
    + apply Hne. apply (kvrocks_owned_disjoint u v k Hu Hv Ho Hk).
    + apply (kvrocks_owned_not_shared v k Hk) in E. exact E.
  - apply (kvrocks_do_keeps_others c u Hcaller). congruence.
Qed.

(** ** Admin configuration *)

Lemma kvrocks_footprint_spares_admin (c : redis_write) (u : string) :
  caller c = Some u -> ~ kvrocks_footprint c KvrocksStorage.adminConfigKey.
Proof.
  destruct c; intros Hc; simpl in Hc; try discriminate; injection Hc as <-;
    simpl; try apply kvrocks_cascade_spares_admin;
    try (intros E; discriminate E).
  - intros [E|E]; discriminate E.
  - intros [E|E]; discriminate E.
Qed.

Lemma redis_footprint_spares_admin (c : redis_write) (u : string) :
  caller c = Some u -> ~ redis_footprint c RedisStorage.adminConfigKey.
Proof.
  destruct c; intros Hc; simpl in Hc; try discriminate; injection Hc as <-;
    simpl; try apply redis_cascade_spares_admin;
    try (intros E; discriminate E).
  - intros [E|E]; discriminate E.
  - intros [E|E]; discriminate E.
Qed.

(** Property X5.  The admin configuration, on both backends and every
    store.  After [setAdminConfig], [getAdminConfig] returns the
    configuration written; after any other writing call, made for any user
    name (pattern characters and separators included), it returns what it
    returned before. *)
Theorem adminConfig_kept (c : redis_write) (w : world) :
  value_of KvrocksStorage.getAdminConfig (after (kvrocks_do c) w)
  = match c with
    | SetAdminConfig cfg => Ok (VRecord cfg)
    | _ => value_of KvrocksStorage.getAdminConfig w
    end
  /\ value_of RedisStorage.getAdminConfig (after (redis_do c) w)
     = match c with
       | SetAdminConfig cfg => Ok (VRecord cfg)
       | _ => value_of RedisStorage.getAdminConfig w
       end.
Proof.
  assert (Ha : forall u, caller c = Some u ->
    value_of KvrocksStorage.getAdminConfig (after (kvrocks_do c) w)
    = value_of KvrocksStorage.getAdminConfig w).
  { intros u Hc. unfold KvrocksStorage.getAdminConfig. apply read_frame.
    apply kvrocks_footprint_sound, (kvrocks_footprint_spares_admin c u Hc). }
  assert (Hb : forall u, caller c = Some u ->
    value_of RedisStorage.getAdminConfig (after (redis_do c) w)
    = value_of RedisStorage.getAdminConfig w).
  { intros u Hc. unfold RedisStorage.getAdminConfig. apply read_frame.
    apply redis_footprint_sound, (redis_footprint_spares_admin c u Hc). }
  destruct c; try (split; [eapply Ha | eapply Hb]; reflexivity).
  split.
  - simpl. unfold KvrocksStorage.getAdminConfig, KvrocksStorage.setAdminConfig.
    set_then_get.
  - simpl. unfold RedisStorage.getAdminConfig, RedisStorage.setAdminConfig.
    set_then_get.
Qed.

(** ** Enumerations *)

Lemma replace_first_unfold (s pat : string) :
  replace_first s pat
  = if String.prefix pat s
    then String.substring (String.length pat) (String.length s - String.length pat) s
    else match s with
         | EmptyString => EmptyString
         | String c rest => String c (replace_first rest pat)
         end.
Proof. destruct s; reflexivity. Qed.

Lemma prefix_append (pre sub : string) : String.prefix pre (pre +:+ sub) = true.
Proof.
  induction pre as [|c pre IH]; [destruct sub; reflexivity|].
  cbv [String.append]. fold String.append. simpl.
  destruct (ascii_dec c c); [exact IH | congruence].
Qed.

Lemma length_append (a b : string) :
  String.length (a +:+ b) = (String.length a + String.length b)%nat.
Proof.
  induction a as [|c a IH]; [reflexivity|].
  cbv [String.append]. fold String.append. simpl. rewrite IH. reflexivity.
Qed.

Lemma substring_all (s : string) : String.substring 0 (String.length s) s = s.
Proof. induction s as [|c s IH]; [reflexivity|]. simpl. rewrite IH. reflexivity. Qed.

Lemma substring_skip (pre sub : string) (n : nat) :
  String.substring (String.length pre) n (pre +:+ sub) = String.substring 0 n sub.
Proof.
  induction pre as [|c pre IH]; [reflexivity|].
  cbv [String.append]. fold String.append. simpl. exact IH.
Qed.

(** [k.replace(prefix, '')] on a key that starts with the prefix. *)
Lemma replace_first_prefix (pre sub : string) : replace_first (pre +:+ sub) pre = sub.
Proof.
  rewrite replace_first_unfold, prefix_append, substring_skip, length_append.
  replace (String.length pre + String.length sub - String.length pre)%nat
    with (String.length sub) by lia.
  apply substring_all.
Qed.

Lemma zip_mget (val : string -> jsval) (ks : list string) :
  zip ks (map val ks) = map (fun k => (k, val k)) ks.
Proof. induction ks as [|k ks IH]; [reflexivity|]. simpl. rewrite IH. reflexivity. Qed.

(** The loop of the enumerations, for a renaming [g] of the keys under
    which two keys that get the same name have the same value. *)
Lemma collect_lookup (g : string -> string) (val : string -> jsval)
    (ks : list string) (x : string) (v : jsval) :
  (forall k k', k ∈ ks -> k' ∈ ks -> g k = g k' -> val k = val k') ->
  foldl (fun (result : gmap string jsval) (kvp : string * jsval) =>
           if truthy (snd kvp) then assign_property (g (fst kvp)) (snd kvp) result
           else result)
        ∅ (map (fun k => (k, val k)) ks) !! x = Some v
  <-> x <> "__proto__"
      /\ exists k, k ∈ ks /\ g k = x /\ val k = v /\ truthy v = true.
Proof.
  induction ks as [|k ks IH] using rev_ind; intros Hinj.
  - simpl. rewrite lookup_empty. split; [discriminate|].
    intros (_ & k & Hk & _). apply elem_of_nil in Hk. contradiction.
  - rewrite map_app, foldl_app. simpl.
    assert (IH' := IH (fun a b Ha Hb => Hinj a b (proj2 (elem_of_app _ _ _) (or_introl Ha))
                                          (proj2 (elem_of_app _ _ _) (or_introl Hb)))).
    clear IH.
    assert (Hlast : k ∈ (ks ++ [k])%list) by (apply elem_of_app; right; left).
    assert (Hold : (x <> "__proto__"
                    /\ exists k', k' ∈ ks /\ g k' = x /\ val k' = v /\ truthy v = true)
                   -> x <> "__proto__"
                      /\ exists k', k' ∈ (ks ++ [k])%list
                                    /\ g k' = x /\ val k' = v /\ truthy v = true).
    { intros (Hx & k' & Hk' & Hrest). split; [exact Hx|]. exists k'.
      split; [|exact Hrest]. apply elem_of_app. left. exact Hk'. }
    destruct (truthy (val k)) eqn:Ht.
    + unfold assign_property. destruct (String.eqb (g k) "__proto__") eqn:Ep.
      * apply String.eqb_eq in Ep. rewrite IH'. split; [exact Hold|].
        intros (Hx & k' & Hk' & Hg & Hrest). split; [exact Hx|]. exists k'.
        split; [|auto].
        apply elem_of_app in Hk' as [Hk' | Hk']; [exact Hk'|].
        apply list_elem_of_singleton in Hk' as ->. congruence.
      * apply String.eqb_neq in Ep. destruct (decide (g k = x)) as [<- | Hne].
        -- rewrite lookup_insert_eq. split.
           ++ intros [= <-]. split; [exact Ep|]. exists k. auto.
           ++ intros (_ & k' & Hk' & Hg & <- & _).
              rewrite (Hinj k' k Hk' Hlast Hg). reflexivity.
        -- rewrite lookup_insert_ne by exact Hne. rewrite IH'. split; [exact Hold|].
           intros (Hx & k' & Hk' & Hg & Hrest). split; [exact Hx|]. exists k'.
           split; [|auto].
           apply elem_of_app in Hk' as [Hk' | Hk']; [exact Hk'|].
           apply list_elem_of_singleton in Hk' as ->. contradiction.
    + rewrite IH'. split; [exact Hold|].
      intros (Hx & k' & Hk' & Hg & Hv & Htv). split; [exact Hx|]. exists k'.
      split; [|auto].
      apply elem_of_app in Hk' as [Hk' | Hk']; [exact Hk'|].
      apply list_elem_of_singleton in Hk' as ->. congruence.
Qed.

Lemma mget_run ks w : client.mget ks w = (Ok (map (mget_value w) ks), w).
Proof. reflexivity. Qed.

Lemma mget_value_reads w k v :
  truthy v = true -> (mget_value w k = v <-> reads w k v).
Proof.
  unfold mget_value, reads, stored. intros Ht.
  destruct (kv w !! k) as [[y|l|s]|]; split.
  - intros <-. exists y. auto.
  - intros (written & [= <-] & ->). reflexivity.
  - intros <-. discriminate.
  - intros (written & E & _). discriminate.
  - intros <-. discriminate.
  - intros (written & E & _). discriminate.
  - intros <-. discriminate.
  - intros (written & E & _). discriminate.
Qed.

Lemma reads_is_Some w k v : reads w k v -> is_Some (kv w !! k).
Proof. intros (written & Hs & _). apply (stored_is_Some _ written). exact Hs. Qed.

(** The enumeration over a literal prefix followed by a star. *)
Lemma getAll_exact (pre : string) (w : world) :
  plain pre = true ->
  exists m,
    (await keys <- retry (client.keys (pre +:+ "*")) ;;
     if is_empty keys then ret ∅
     else await values <- retry (client.mget keys) ;;
          ret (collect pre keys values)) w
    = (Ok m, w)
    /\ lists_exactly w (fun x => pre +:+ x) m.
Proof.
  intros Hpre.
  set (ks := matching_keys (pre +:+ "*") (kv w)).
  assert (Hks : forall k, k ∈ ks <-> exists x, k = pre +:+ x /\ is_Some (kv w !! k)).
  { intros k. unfold ks. rewrite matching_keys_spec. split.
    - intros [Hin Hg]. apply glob_prefix_inv in Hg as (x & -> & _); eauto.
    - intros (x & -> & Hin). split; [exact Hin|].
      apply glob_prefix_intro; [exact Hpre | apply glob_star]. }
  exists (collect pre ks (map (mget_value w) ks)). split.
  - run. fold ks. destruct ks as [|k0 ks0] eqn:Eks; [reflexivity|].
    cbn [is_empty]. run. rewrite mget_run. reflexivity.
  - intros x v. unfold collect. rewrite zip_mget.
    rewrite (collect_lookup (fun k => replace_first k pre) (mget_value w) ks x v).
    + split.
      * intros (Hx & k & Hk & Hg & Hv & Ht).
        apply Hks in Hk as (y & -> & _). rewrite replace_first_prefix in Hg.
        subst y. split; [exact Hx|]. split; [|exact Ht].
        apply mget_value_reads; assumption.
      * intros (Hx & Hs & Ht). split; [exact Hx|].
        exists (pre +:+ x). split; [|split; [|split]].
        -- apply Hks. exists x. split; [reflexivity|].
           apply (reads_is_Some _ _ v). exact Hs.
        -- apply replace_first_prefix.
        -- apply mget_value_reads; assumption.
        -- exact Ht.
    + intros k k' Hk Hk' Hg.
      apply Hks in Hk as (y & -> & _). apply Hks in Hk' as (y' & -> & _).
      rewrite !replace_first_prefix in Hg. congruence.
Qed.

Lemma user_pattern (u t : string) :
  "u:" +:+ u +:+ (t +:+ "*") = ("u:" +:+ u +:+ t) +:+ "*".
Proof. rewrite !append_assoc. reflexivity. Qed.

Lemma user_key (u t x : string) :
  ("u:" +:+ u +:+ t) +:+ x = "u:" +:+ u +:+ (t +:+ x).
Proof. rewrite !append_assoc. reflexivity. Qed.

Lemma user_prefix_plain (u t : string) :
  plain u = true -> plain t = true -> plain ("u:" +:+ u +:+ t) = true.
Proof. intros Hu Ht. rewrite !plain_append, Hu, Ht. reflexivity. Qed.

Lemma lists_exactly_ext w (f g : string -> string) m :
  (forall x, f x = g x) -> lists_exactly w f m -> lists_exactly w g m.
Proof. intros E H x v. rewrite <- E. apply H. Qed.

Ltac enumerate t :=
  match goal with
  | Hu : plain ?u = true |- exists m, _ ?w = _ /\ _ =>
      destruct (getAll_exact ("u:" +:+ u +:+ t) w (user_prefix_plain u t Hu eq_refl))
        as (m & Hrun & Hm);
      exists m; split;
      [ cbv zeta; rewrite <- Hrun, <- (user_pattern u t); reflexivity
      | apply (lists_exactly_ext w (fun x => ("u:" +:+ u +:+ t) +:+ x)); [|exact Hm];
        intros x; apply user_key ]
  end.

(** Property X10.  The enumerations over a key pattern.  For a user name
    with no pattern character, on every store, [getAllPlayRecords] and
    [getAllFavorites] of both backends and [getAllSkipConfigs] of backend A
    return, leave the store as it is, and list under each content key other
    than [__proto__] exactly the truthy value that is read at the key built
    from the user name and that content key.  For user names free of the
    separator [:] the keys built for one user are not keys built for
    another, so nothing of another user is listed. *)
Theorem getAll_lists_exactly (u : string) (w : world) (Hu : plain u = true) :
  (exists m, KvrocksStorage.getAllPlayRecords u w = (Ok m, w)
             /\ lists_exactly w (KvrocksStorage.prKey u) m)
  /\ (exists m, KvrocksStorage.getAllFavorites u w = (Ok m, w)
                /\ lists_exactly w (KvrocksStorage.favKey u) m)
  /\ (exists m, KvrocksStorage.getAllSkipConfigs u w = (Ok m, w)
                /\ lists_exactly w (KvrocksStorage.skipConfigKey u) m)
  /\ (exists m, RedisStorage.getAllPlayRecords u w = (Ok m, w)
                /\ lists_exactly w (RedisStorage.prKey u) m)
  /\ (exists m, RedisStorage.getAllFavorites u w = (Ok m, w)
                /\ lists_exactly w (RedisStorage.favKey u) m)
  /\ (forall v x y,
        colon_free u = true -> colon_free v = true -> v <> u ->
        KvrocksStorage.prKey u x <> KvrocksStorage.prKey v y
        /\ KvrocksStorage.favKey u x <> KvrocksStorage.favKey v y
        /\ KvrocksStorage.skipConfigKey u x <> KvrocksStorage.skipConfigKey v y
        /\ RedisStorage.prKey u x <> RedisStorage.prKey v y
        /\ RedisStorage.favKey u x <> RedisStorage.favKey v y).
Proof.
  split; [|split; [|split; [|split; [|split]]]].
  - unfold KvrocksStorage.getAllPlayRecords, KvrocksStorage.prKey. enumerate ":pr:".
  - unfold KvrocksStorage.getAllFavorites, KvrocksStorage.favKey. enumerate ":fav:".
  - unfold KvrocksStorage.getAllSkipConfigs, KvrocksStorage.skipConfigKey.
    enumerate ":skip_config:".
  - unfold RedisStorage.getAllPlayRecords, RedisStorage.prKey. enumerate ":pr:".
  - unfold RedisStorage.getAllFavorites, RedisStorage.favKey. enumerate ":fav:".
  - intros v x y Hcu Hcv Hne.
    assert (Hkeys : forall t, "u:" +:+ u +:+ (":" +:+ t +:+ ":" +:+ x)
                              <> "u:" +:+ v +:+ (":" +:+ t +:+ ":" +:+ y)).
    { intros t E. apply append_inj_r in E.
      destruct (colon_split u v (t +:+ ":" +:+ x) (t +:+ ":" +:+ y) Hcu Hcv E)
        as [Euv _].
      congruence. }
    repeat split; intros E.
    + apply (Hkeys "pr"). exact E.
    + apply (Hkeys "fav"). exact E.
    + apply (Hkeys "skip_config"). exact E.
    + apply (Hkeys "pr"). exact E.
    + apply (Hkeys "fav"). exact E.
Qed.

(** With a pattern character in the name the enumeration reaches the keys
    of other users, and lists them under their full keys. *)
Example getAllPlayRecords_star_name :
  let w := after (RedisStorage.setPlayRecord "bob" "ep1" sample_config) empty_world in
  value_of (RedisStorage.getAllPlayRecords "*") w
  = Ok {[ "u:bob:pr:ep1" := VRecord sample_config ]}.
Proof. vm_compute. reflexivity. Qed.

(** With a separator in a name, a record of one user is listed for
    another; and a record stored under [__proto__] is read by
    [getPlayRecord] and never listed. *)
Example getAllPlayRecords_colon_name :
  let w := after (RedisStorage.setPlayRecord "a:pr:b" "c" sample_config) empty_world in
  let w' := after (RedisStorage.setPlayRecord "bob" "__proto__" sample_config)
              empty_world in
  value_of (RedisStorage.getAllPlayRecords "a") w
  = Ok {[ "b:pr:c" := VRecord sample_config ]}
  /\ value_of (RedisStorage.getPlayRecord "bob" "__proto__") w'
     = Ok (VRecord sample_config)
  /\ value_of (RedisStorage.getAllPlayRecords "bob") w' = Ok ∅.
Proof. repeat split; vm_compute; reflexivity. Qed.

(** *** The indexed enumeration of backend B *)

Lemma get_string_or_free key w :
  string_or_free w key -> client.get key w = (Ok (mget_value w key), w).
Proof.
  unfold string_or_free, client.get, mget_value.
  destruct (kv w !! key) as [[v|l|s]|]; intros H; try contradiction; reflexivity.
Qed.

Lemma collectConfigs_run (u : string) (ks : list string)
    (configs : gmap string jsval) (w : world) :
  (forall k, k ∈ ks -> string_or_free w (RedisStorage.skipConfigKey u (shown k))) ->
  RedisStorage.collectConfigs u (map parseResponse ks) configs w
  = (Ok (foldl (fun (result : gmap string jsval) (kvp : string * jsval) =>
                  if truthy (snd kvp)
                  then assign_property (shown (fst kvp)) (snd kvp) result
                  else result)
               configs
               (map (fun k => (k, mget_value w (RedisStorage.skipConfigKey u (shown k))))
                    ks)),
     w).
Proof.
  revert configs. induction ks as [|k ks IH]; intros configs Hks; [reflexivity|].
  cbn [map RedisStorage.collectConfigs]. rewrite bind_run. unretry.
  fold (shown k).
  rewrite get_string_or_free by (apply Hks; left).
  cbn beta iota. rewrite IH by (intros k' Hk'; apply Hks; right; exact Hk').
  reflexivity.
Qed.

Lemma redis_getAllSkipConfigs_run (u : string) (w : world) :
  set_or_free w (RedisStorage.skipConfigsKey u) ->
  (forall x, x ∈ set_at w (RedisStorage.skipConfigsKey u) ->
             string_or_free w (RedisStorage.skipConfigKey u (shown x))) ->
  RedisStorage.getAllSkipConfigs u w
  = (Ok (foldl (fun (result : gmap string jsval) (kvp : string * jsval) =>
                  if truthy (snd kvp)
                  then assign_property (shown (fst kvp)) (snd kvp) result
                  else result)
               ∅
               (map (fun k => (k, mget_value w (RedisStorage.skipConfigKey u (shown k))))
                    (elements (set_at w (RedisStorage.skipConfigsKey u))))),
     w).
Proof.
  intros Hindex Hconfigs.
  assert (Hmem : RedisStorage.getAllSkipConfigs u w
                 = RedisStorage.collectConfigs u
                     (map parseResponse
                        (elements (set_at w (RedisStorage.skipConfigsKey u)))) ∅ w).
  { unfold RedisStorage.getAllSkipConfigs. rewrite bind_run. unretry.
    unfold client.smembers, set_at, set_or_free in *.
    destruct (kv w !! RedisStorage.skipConfigsKey u) as [[v|l|s]|];
      try contradiction; try reflexivity;
      rewrite elements_empty; reflexivity. }
  rewrite Hmem. apply collectConfigs_run. intros k Hk.
  apply Hconfigs, elem_of_elements, Hk.
Qed.

Lemma indexed_lookup (u : string) (w : world) (x : string) (v : jsval) :
  foldl (fun (result : gmap string jsval) (kvp : string * jsval) =>
           if truthy (snd kvp)
           then assign_property (shown (fst kvp)) (snd kvp) result
           else result)
        ∅
        (map (fun k => (k, mget_value w (RedisStorage.skipConfigKey u (shown k))))
             (elements (set_at w (RedisStorage.skipConfigsKey u)))) !! x = Some v
  <-> x <> "__proto__"
      /\ indexed_as w u x
      /\ reads w (RedisStorage.skipConfigKey u x) v
      /\ truthy v = true.
Proof.
  rewrite (collect_lookup shown
             (fun k => mget_value w (RedisStorage.skipConfigKey u (shown k))) _ x v)
    by (intros k k' _ _ E; rewrite E; reflexivity).
  split.
  - intros (Hx & k & Hk & <- & Hv & Ht). split; [exact Hx|].
    split; [exists k; split; [apply elem_of_elements, Hk|reflexivity]|].
    split; [|exact Ht]. apply mget_value_reads; assumption.
  - intros (Hx & (k & Hk & <-) & Hs & Ht). split; [exact Hx|]. exists k.
    split; [apply elem_of_elements, Hk|].
    split; [reflexivity|]. split; [|exact Ht].
    apply mget_value_reads; assumption.
Qed.

Lemma indexed_exact (u : string) (w : world) (m : gmap string jsval) :
  (forall x v, m !! x = Some v <->
               x <> "__proto__"
               /\ indexed_as w u x
               /\ reads w (RedisStorage.skipConfigKey u x) v
               /\ truthy v = true) ->
  index_exact w u ->
  (forall k, k ∈ set_at w (RedisStorage.skipConfigsKey u) -> shown k = k) ->
  lists_exactly w (RedisStorage.skipConfigKey u) m.
Proof.
  intros Hm [_ Hex] Hshown x v. rewrite Hm. split.
  - intros (Hx & _ & Hs & Ht). auto.
  - intros (Hx & Hs & Ht). split; [exact Hx|]. split; [|auto].
    assert (Hin : x ∈ set_at w (RedisStorage.skipConfigsKey u))
      by (apply Hex, (reads_is_Some _ _ v), Hs).
    exists x. split; [exact Hin|apply Hshown, Hin].
Qed.


(** ** Listing the users *)

Lemma Promise_all_map_reads {A B} (f : A -> M world B) (g : A -> B)
    (l : list A) (w : world) :
  (forall x, x ∈ l -> f x w = (Ok (g x), w)) ->
  Promise_all_map f l w = (Ok (g <$> l), w).
Proof.
  induction l as [|x l IH]; intros Hf; [reflexivity|].
  cbn [Promise_all_map]. rewrite bind_run, (Hf x) by left.
  rewrite bind_run, IH by (intros y Hy; apply Hf; right; exact Hy).
  reflexivity.
Qed.

Lemma at_most_one {A B} (f : A -> B) (a : B) (P : A -> Prop)
    `{forall x, Decision (P x)} (l : list A) :
  NoDup (f <$> l) -> (forall x, x ∈ l -> P x -> f x = a) ->
  (length (filter P l) <= 1)%nat.
Proof.
  induction l as [|x l IH]; intros Hnd HP; [simpl; lia|].
  rewrite fmap_cons in Hnd. apply NoDup_cons in Hnd as [Hx Hnd].
  assert (HP' : forall y, y ∈ l -> P y -> f y = a)
    by (intros y Hy; apply HP; right; exact Hy).
  rewrite filter_cons. case_decide as Hfx; [|apply IH; assumption].
  assert (Hnone : filter P l = []).
  { destruct (filter P l) as [|y ys] eqn:E; [reflexivity|].
    assert (Hy : y ∈ filter P l) by (rewrite E; left).
    apply list_elem_of_filter in Hy as [Hfy Hy]. exfalso. apply Hx.
    apply list_elem_of_fmap. exists y. split; [|exact Hy].
    rewrite (HP x) by (left || exact Hfx). symmetry. apply HP'; assumption. }
  rewrite Hnone. simpl. lia.
Qed.

Lemma getUser_run u w :
  KvrocksStorage.getUser u w
  = (match kv w !! KvrocksStorage.userKey u with
     | None => Ok VNull
     | Some (RString v) => Ok (if truthy (read_back v) then read_back v else VNull)
     | Some _ => Throw WRONGTYPE
     end, w).
Proof.
  unfold KvrocksStorage.getUser. rewrite bind_run. unretry. unfold client.get.
  destruct (kv w !! KvrocksStorage.userKey u) as [[v|l|s]|]; reflexivity.
Qed.

Lemma set_or_free_frame (w w' : world) (key : string) :
  kv w' !! key = kv w !! key -> set_or_free w key -> set_or_free w' key.
Proof. unfold set_or_free. intros ->. auto. Qed.

Lemma kvrocks_registerUser_list (u p : string) (w : world) :
  set_or_free w KvrocksStorage.userListKey ->
  set_or_free (after (KvrocksStorage.registerUser u p) w) KvrocksStorage.userListKey
  /\ set_at (after (KvrocksStorage.registerUser u p) w) KvrocksStorage.userListKey
     = {[u]} ∪ set_at w KvrocksStorage.userListKey.
Proof.
  intros Hlist. unfold KvrocksStorage.registerUser, after. rewrite bind_run.
  unfold Date_now. cbn beta iota zeta. unfold KvrocksStorage.setUser. run.
  unfold client.sadd, set_or_free, set_at in *.
  rewrite kv_with_kv, lookup_insert_ne by apply kvrocks_user_keys_differ.
  destruct (kv w !! KvrocksStorage.userListKey) as [[x|l|s]|]; try contradiction;
    run; rewrite kv_with_kv, lookup_insert_eq; split; try exact I; set_solver.
Qed.

Lemma srem_set (key member : string) (w : world) :
  set_or_free w key ->
  set_or_free (snd (client.srem key member w)) key
  /\ set_at (snd (client.srem key member w)) key = set_at w key ∖ {[member]}.
Proof.
  unfold client.srem, set_or_free, set_at.
  destruct (kv w !! key) as [[x|l|s]|] eqn:E; intros Hs; try contradiction; simpl.
  - unfold put_set. case_decide as He.
    + rewrite lookup_delete_eq. split; [exact I | symmetry; exact He].
    + rewrite lookup_insert_eq. split; [exact I | reflexivity].
  - rewrite E. split; [exact I | set_solver].
Qed.

Lemma kvrocks_sweeps_within (patterns : list string) :
  (forall pattern, pattern ∈ patterns -> exists p, pattern = "u:" +:+ p) ->
  writes_within (fun k => exists sub, k = "u:" +:+ sub)
    (forEach patterns (fun pattern =>
       await keys <- client.keys pattern ;;
       if is_empty keys then ret tt else await_ client.del keys ;; ret tt)).
Proof.
  intros Hp. apply writes_within_forEach. intros pattern Hin.
  destruct (Hp pattern Hin) as [p ->].
  eapply writes_within_weaken; [|apply writes_within_sweep].
  intros k Hk. simpl in Hk. apply (glob_u_colon _ _ Hk).
Qed.

Lemma kvrocks_deleteUser_list (u : string) (w : world) :
  set_or_free w KvrocksStorage.userListKey ->
  set_or_free (after (KvrocksStorage.deleteUser u) w) KvrocksStorage.userListKey
  /\ set_at (after (KvrocksStorage.deleteUser u) w) KvrocksStorage.userListKey
     = set_at w KvrocksStorage.userListKey ∖ {[u]}.
Proof.
  intros Hlist.
  set (w1 := deleted [KvrocksStorage.userKey u] w).
  assert (H1 : kv w1 !! KvrocksStorage.userListKey = kv w !! KvrocksStorage.userListKey).
  { unfold w1. rewrite kv_deleted. simpl.
    apply lookup_delete_ne, kvrocks_user_keys_differ. }
  assert (Hlist1 : set_or_free w1 KvrocksStorage.userListKey)
    by (apply (set_or_free_frame w w1 _ H1 Hlist)).
  destruct (srem_returns KvrocksStorage.userListKey u w1 Hlist1) as (n & w2 & Esrem).
  destruct (srem_set KvrocksStorage.userListKey u w1 Hlist1) as [Hlist2 Hset2].
  rewrite Esrem in Hlist2, Hset2. simpl in Hlist2, Hset2.
  assert (Hframe : kv (after (KvrocksStorage.deleteUser u) w) !! KvrocksStorage.userListKey
                   = kv w2 !! KvrocksStorage.userListKey).
  { unfold KvrocksStorage.deleteUser, after. cbv zeta.
    rewrite retry_steady by (cbv zeta; eauto 30 with steady).
    rewrite bind_run, del_run. fold w1. cbn beta iota.
    rewrite bind_run, Esrem. cbn beta iota.
    apply kvrocks_sweeps_within.
    - intros pattern Hin.
      repeat (apply elem_of_cons in Hin as [-> | Hin]; [eauto|]).
      apply elem_of_nil in Hin. contradiction.
    - intros [sub E]. discriminate E. }
  split.
  - apply (set_or_free_frame w2 _ _ Hframe Hlist2).
  - rewrite (set_at_frame w2 _ _ Hframe), Hset2, (set_at_frame w w1 _ H1).
    reflexivity.
Qed.

Lemma tmatch_star_split (ts : list gtok) (s : list ascii) :
  tmatch (GStar :: ts) s = true
  <-> exists a b, s = (a ++ b)%list /\ tmatch ts b = true.
Proof.
  induction s as [|c s IH].
  - change (tmatch (GStar :: ts) []) with (tmatch ts [] || false).
    rewrite orb_false_r. split.
    + intros H. exists [], []. auto.
    + intros (a & b & E & H). symmetry in E. apply app_eq_nil in E as [_ ->].
      exact H.
  - change (tmatch (GStar :: ts) (c :: s))
      with (tmatch ts (c :: s) || tmatch (GStar :: ts) s).
    rewrite orb_true_iff, IH. split.
    + intros [H | (a & b & -> & H)].
      * exists [], (c :: s). auto.
      * exists (c :: a), b. auto.
    + intros ([|c' a] & b & E & H); simpl in E.
      * left. rewrite E. exact H.
      * injection E as -> ->. right. eauto.
Qed.

Lemma tmatch_literal_end (lits s : list ascii) :
  tmatch (map GLit lits) s = true <-> s = lits.
Proof.
  rewrite <- (app_nil_r (map GLit lits)), tmatch_literal_prefix. split.
  - intros ([|c s'] & -> & H); [apply app_nil_r | discriminate].
  - intros ->. exists []. split; [symmetry; apply app_nil_r | reflexivity].
Qed.

Lemma strip_prefix_spec (p s r : list ascii) :
  strip_prefix p s = Some r <-> s = (p ++ r)%list.
Proof.
  revert s. induction p as [|a p IH]; intros s; simpl.
  - split; [intros [= ->]; reflexivity | intros ->; reflexivity].
  - destruct s as [|b s]; [split; discriminate|].
    destruct (Ascii.eqb_spec a b) as [-> | Hne].
    + rewrite IH. split; [intros ->; reflexivity | intros [= ->]; reflexivity].
    + split; [discriminate | intros [= -> _]; contradiction].
Qed.

Lemma strip_suffix_spec (p s r : list ascii) :
  strip_suffix p s = Some r <-> s = (r ++ p)%list.
Proof.
  unfold strip_suffix. split.
  - destruct (strip_prefix (rev p) (rev s)) as [x|] eqn:E; [|discriminate].
    intros [= <-]. apply strip_prefix_spec in E.
    rewrite <- (rev_involutive s), E, rev_app_distr, rev_involutive. reflexivity.
  - intros ->. rewrite rev_app_distr.
    rewrite (proj2 (strip_prefix_spec (rev p) (rev p ++ rev r)%list (rev r)) eq_refl).
    simpl. rewrite rev_involutive. reflexivity.
Qed.

Lemma list_ascii_inj (a b : string) :
  list_ascii_of_string a = list_ascii_of_string b -> a = b.
Proof.
  intros E. rewrite <- (string_of_list_ascii_of_string a), E.
  apply string_of_list_ascii_of_string.
Qed.

Lemma userPwdKey_chars (u : string) :
  list_ascii_of_string (RedisStorage.userPwdKey u)
  = (list_ascii_of_string "u:" ++ list_ascii_of_string u
     ++ list_ascii_of_string ":pwd")%list.
Proof. unfold RedisStorage.userPwdKey. rewrite !list_ascii_of_append. reflexivity. Qed.

Lemma glob_pwd (k : string) :
  glob "u:*:pwd" k = true
  <-> exists mid, list_ascii_of_string k
                  = (list_ascii_of_string "u:" ++ mid ++ list_ascii_of_string ":pwd")%list.
Proof.
  unfold glob.
  change (tokenize _ (list_ascii_of_string "u:*:pwd"))
    with (map GLit (list_ascii_of_string "u:")
          ++ GStar :: map GLit (list_ascii_of_string ":pwd"))%list.
  rewrite tmatch_literal_prefix. split.
  - intros (s' & E & H). apply tmatch_star_split in H as (a & b & -> & H).
    apply tmatch_literal_end in H as ->. eauto.
  - intros (mid & E). eexists. split; [exact E|].
    apply tmatch_star_split. exists mid, (list_ascii_of_string ":pwd").
    split; [reflexivity|]. apply tmatch_literal_end. reflexivity.
Qed.

Lemma match_pwd_key_spec (k u : string) :
  match_pwd_key k = Some u
  <-> k = RedisStorage.userPwdKey u /\ capturable (list_ascii_of_string u) = true.
Proof.
  unfold match_pwd_key. split.
  - destruct (strip_prefix _ (list_ascii_of_string k)) as [rest|] eqn:E1;
      [|discriminate].
    destruct (strip_suffix _ rest) as [mid|] eqn:E2; [|discriminate].
    destruct (capturable mid) eqn:E3; [|discriminate].
    intros [= <-]. apply strip_prefix_spec in E1. apply strip_suffix_spec in E2.
    rewrite list_ascii_of_string_of_list_ascii. split; [|exact E3].
    apply list_ascii_inj.
    rewrite userPwdKey_chars, list_ascii_of_string_of_list_ascii, E1, E2.
    reflexivity.
  - intros [-> Hc]. rewrite userPwdKey_chars.
    rewrite (proj2 (strip_prefix_spec _ _ _) eq_refl).
    rewrite (proj2 (strip_suffix_spec _ _ _) eq_refl).
    rewrite Hc, string_of_list_ascii_of_string. reflexivity.
Qed.

Lemma NoDup_matching_keys (pattern : string) (m : gmap string rvalue) :
  NoDup (matching_keys pattern m).
Proof.
  unfold matching_keys. apply NoDup_filter.
  change (map fst (map_to_list m)) with ((map_to_list m).*1).
  apply NoDup_fst_map_to_list.
Qed.

Lemma NoDup_omap_inj {A B} (f : A -> option B) (l : list A) :
  (forall x y z, f x = Some z -> f y = Some z -> x = y) ->
  NoDup l -> NoDup (omap f l).
Proof.
  intros Hinj. induction 1 as [|x l Hx Hnd IH]; simpl; [constructor|].
  destruct (f x) as [z|] eqn:E; [|exact IH].
  apply NoDup_cons. split; [|exact IH].
  intros Hz. apply list_elem_of_omap in Hz as (y & Hy & Ey).
  rewrite (Hinj x y z E Ey) in Hx. contradiction.
Qed.

Lemma redis_checkUserExist_run u w :
  RedisStorage.checkUserExist u w
  = (Ok (bool_decide (is_Some (kv w !! RedisStorage.userPwdKey u))), w).
Proof.
  unfold RedisStorage.checkUserExist. run. unfold client.exists_. simpl.
  destruct (bool_decide (is_Some (kv w !! RedisStorage.userPwdKey u))); reflexivity.
Qed.

Section AllUsersFacts.

Variable toISOString : json -> option string.
Variable parseInt : string -> option Z.
Variable USERNAME : option string.

Lemma kvrocks_created_at_reads (u : jsval) w :
  exists s, kvrocks_created_at toISOString u w = (Ok s, w).
Proof.
  unfold kvrocks_created_at, try_catch. rewrite bind_run, getUser_run.
  destruct (kv w !! KvrocksStorage.userKey (ensureString u)) as [[v|l|s]|];
    cbn beta iota; try (eexists; reflexivity).
  destruct (get_prop (if truthy (read_back v) then read_back v else VNull) "created_at")
    as [x|]; [|eexists; reflexivity].
  destruct (json_truthy x); [|eexists; reflexivity].
  unfold Date_toISOString. destruct (toISOString x); eexists; reflexivity.
Qed.

Lemma kvrocks_created_at_registered (u : jsval) d w :
  stored w (KvrocksStorage.userKey (ensureString u)) = Some (VUserData d) ->
  kvrocks_created_at toISOString u w
  = (Ok (if created_at d =? 0 then EmptyString
         else default EmptyString (toISOString (JNumber (created_at d)))), w).
Proof.
  intros Hs. unfold kvrocks_created_at, try_catch. rewrite bind_run, getUser_run.
  unfold stored in Hs.
  destruct (kv w !! KvrocksStorage.userKey (ensureString u)) as [[v|l|s]|]; simplify_eq.
  cbn. unfold Date_toISOString.
  destruct (created_at d =? 0); [reflexivity|].
  destruct (toISOString (JNumber (created_at d))); reflexivity.
Qed.

Lemma kvrocks_getAllUsers_run (w : world) :
  set_or_free w KvrocksStorage.userListKey ->
  exists g : jsval -> string,
    kvrocks_getAllUsers toISOString USERNAME w
    = (Ok ((fun u => mkUser u (role_of_member USERNAME u) (g u))
             <$> (parseResponse <$> elements (set_at w KvrocksStorage.userListKey))), w)
    /\ forall u d,
         stored w (KvrocksStorage.userKey (ensureString u)) = Some (VUserData d) ->
         g u = if created_at d =? 0 then EmptyString
               else default EmptyString (toISOString (JNumber (created_at d))).
Proof.
  intros Hlist.
  set (g := fun u => match fst (kvrocks_created_at toISOString u w) with
                     | Ok s => s
                     | Throw _ => EmptyString
                     end).
  exists g. split.
  - unfold kvrocks_getAllUsers. rewrite bind_run. unretry.
    assert (Hmem : client.smembers KvrocksStorage.userListKey w
                   = (Ok (parseResponse
                            <$> elements (set_at w KvrocksStorage.userListKey)), w)).
    { unfold client.smembers, set_at, set_or_free in *.
      destruct (kv w !! KvrocksStorage.userListKey) as [[v|l|s]|];
        try contradiction; try reflexivity;
        rewrite elements_empty; reflexivity. }
    rewrite Hmem. cbn beta iota.
    apply Promise_all_map_reads. intros u _. rewrite bind_run.
    destruct (kvrocks_created_at_reads u w) as [s Hs]. unfold g. rewrite Hs.
    reflexivity.
  - intros u d Hs. unfold g. rewrite (kvrocks_created_at_registered u d w Hs).
    reflexivity.
Qed.

Lemma role_owner_iff (u : string) :
  role_of USERNAME u = "owner" <-> u = ownerUsername USERNAME.
Proof.
  unfold role_of. destruct (String.eqb_spec u (ownerUsername USERNAME)) as [E|E].
  - split; [intros _; exact E | reflexivity].
  - split; [discriminate | contradiction].
Qed.

Lemma role_of_member_owner_iff (u : jsval) :
  role_of_member USERNAME u = "owner" <-> u = VString (ownerUsername USERNAME).
Proof.
  destruct u; simpl; try (split; discriminate).
  rewrite role_owner_iff. split; [intros ->; reflexivity | intros [= ->]; reflexivity].
Qed.

Lemma role_of_member_cases (u : jsval) :
  (role_of_member USERNAME u = "owner" /\ u = VString (ownerUsername USERNAME))
  \/ (role_of_member USERNAME u = "user" /\ u <> VString (ownerUsername USERNAME)).
Proof.
  destruct u; simpl; try (right; split; [reflexivity|discriminate]).
  unfold role_of. destruct (String.eqb_spec s (ownerUsername USERNAME)) as [E|E].
  - left. rewrite E. auto.
  - right. split; [reflexivity|]. intros [= E']. contradiction.
Qed.

Lemma names_as_written (names : list string) :
  (forall u, u ∈ names -> parseResponse u = VString u) ->
  parseResponse <$> names = VString <$> names.
Proof.
  induction names as [|u names IH]; intros Hr; [reflexivity|].
  rewrite !fmap_cons, (Hr u) by left.
  rewrite IH by (intros v Hv; apply Hr; right; exact Hv). reflexivity.
Qed.


(** Property X13.  The user list of backend A follows the accounts.  Where
    the user list holds a set or nothing, [getAllUsers] after
    [registerUser] lists what the client reads for the new name and for
    the names that were members before, and [getAllUsers] after
    [deleteUser] lists what it reads for the members before except the
    deleted name. *)
Theorem kvrocks_getAllUsers_tracks (u p : string) (w : world)
    (Hlist : set_or_free w KvrocksStorage.userListKey) :
  (exists users,
     value_of (kvrocks_getAllUsers toISOString USERNAME)
       (after (KvrocksStorage.registerUser u p) w) = Ok users
     /\ forall v, v ∈ user_username <$> users
                  <-> exists k, (k = u \/ k ∈ set_at w KvrocksStorage.userListKey)
                                /\ parseResponse k = v)
  /\ (exists users,
        value_of (kvrocks_getAllUsers toISOString USERNAME)
          (after (KvrocksStorage.deleteUser u) w) = Ok users
        /\ forall v, v ∈ user_username <$> users
                     <-> exists k, (k <> u /\ k ∈ set_at w KvrocksStorage.userListKey)
                                   /\ parseResponse k = v).
Proof.
  clear parseInt.
  assert (Hnames : forall (g : jsval -> string) (names : list jsval),
    user_username <$> ((fun n => mkUser n (role_of_member USERNAME n) (g n)) <$> names)
    = names)
    by (intros g names; rewrite <- list_fmap_compose; apply list_fmap_id).
  split.
  - destruct (kvrocks_registerUser_list u p w Hlist) as [Hl Hs].
    destruct (kvrocks_getAllUsers_run _ Hl) as (g & Hrun & _).
    eexists. unfold value_of. rewrite Hrun. split; [reflexivity|].
    intros v. rewrite Hnames, list_elem_of_fmap. split.
    + intros (k & -> & Hk). exists k. split; [|reflexivity].
      apply elem_of_elements in Hk. rewrite Hs in Hk. set_solver.
    + intros (k & Hk & <-). exists k. split; [reflexivity|].
      apply elem_of_elements. rewrite Hs. set_solver.
  - destruct (kvrocks_deleteUser_list u w Hlist) as [Hl Hs].
    destruct (kvrocks_getAllUsers_run _ Hl) as (g & Hrun & _).
    eexists. unfold value_of. rewrite Hrun. split; [reflexivity|].
    intros v. rewrite Hnames, list_elem_of_fmap. split.
    + intros (k & -> & Hk). exists k. split; [|reflexivity].
      apply elem_of_elements in Hk. rewrite Hs in Hk. set_solver.
    + intros (k & Hk & <-). exists k. split; [reflexivity|].
      apply elem_of_elements. rewrite Hs. set_solver.
Qed.

(** *** Backend B: the users are read off the password keys *)

Lemma redis_created_at_reads u w :
  exists s, redis_created_at toISOString parseInt u w = (Ok s, w).
Proof.
  unfold redis_created_at, try_catch. cbv zeta. rewrite bind_run. unretry.
  unfold client.get.
  destruct (kv w !! ("u:" +:+ u +:+ ":created_at")) as [[v|l|s]|]; cbn beta iota;
    try (eexists; reflexivity).
  destruct (truthy (read_back v)); [|eexists; reflexivity].
  destruct (parseInt (ensureString (read_back v))) as [n|]; [|eexists; reflexivity].
  unfold Date_toISOString. destruct (toISOString (JNumber n)); eexists; reflexivity.
Qed.

(** Property X14.  [getAllUsers] of backend B, on every store.  It
    returns and leaves the store as it is, even where reading a time stamp
    fails.  It lists, each once, the user names for which [checkUserExist]
    is true, except the empty name and names with a line break, which the
    regular expression does not capture.  The role is [owner] exactly for
    the name in [USERNAME] (or [admin]), so at most one user is the owner. *)
Theorem redis_getAllUsers_lists (w : world) :
  exists users,
    redis_getAllUsers toISOString parseInt USERNAME w = (Ok users, w)
    /\ (forall u, u ∈ user_username <$> users
                  <-> value_of (RedisStorage.checkUserExist u) w = Ok true
                      /\ capturable (list_ascii_of_string u) = true)
    /\ NoDup (user_username <$> users)
    /\ (forall x, x ∈ users ->
          (user_role x = "owner" /\ user_username x = ownerUsername USERNAME)
          \/ (user_role x = "user" /\ user_username x <> ownerUsername USERNAME))
    /\ (length (filter (fun x => user_role x = "owner") users) <= 1)%nat.
Proof.
  set (keys := matching_keys "u:*:pwd" (kv w)).
  set (names := omap match_pwd_key keys).
  set (g := fun u => match fst (redis_created_at toISOString parseInt u w) with
                     | Ok s => s
                     | Throw _ => EmptyString
                     end).
  set (mk := fun u => mkUser u (role_of USERNAME u) (g u)).
  assert (Hnames : user_username <$> (mk <$> names) = names)
    by (rewrite <- list_fmap_compose; apply list_fmap_id).
  assert (Hnd : NoDup (user_username <$> (mk <$> names))).
  { rewrite Hnames. apply NoDup_omap_inj; [|apply NoDup_matching_keys].
    intros x y z Hx Hy. apply match_pwd_key_spec in Hx as [-> _].
    apply match_pwd_key_spec in Hy as [-> _]. reflexivity. }
  exists (mk <$> names). split; [|split; [|split; [exact Hnd|split]]].
  - unfold redis_getAllUsers. rewrite bind_run. unretry. rewrite keys_run.
    cbn beta iota zeta. fold keys. fold names.
    apply Promise_all_map_reads. intros u _. rewrite bind_run.
    destruct (redis_created_at_reads u w) as [s Hs]. unfold mk, g. rewrite Hs.
    reflexivity.
  - intros u. rewrite Hnames. unfold names. rewrite list_elem_of_omap.
    unfold value_of. rewrite redis_checkUserExist_run. simpl. split.
    + intros (k & Hk & Hm). apply match_pwd_key_spec in Hm as [-> Hc].
      apply matching_keys_spec in Hk as [Hk _].
      split; [|exact Hc]. rewrite bool_decide_eq_true_2 by exact Hk. reflexivity.
    + intros [He Hc]. exists (RedisStorage.userPwdKey u). split.
      * apply matching_keys_spec. split.
        -- injection He as He. apply bool_decide_eq_true in He. exact He.
        -- apply glob_pwd. exists (list_ascii_of_string u). apply userPwdKey_chars.
      * apply match_pwd_key_spec. auto.
  - intros x Hx. apply list_elem_of_fmap in Hx as (u & -> & _). simpl.
    unfold role_of. destruct (String.eqb_spec u (ownerUsername USERNAME)); auto.
  - apply (at_most_one user_username (ownerUsername USERNAME)); [exact Hnd|].
    intros x Hx Hr. apply list_elem_of_fmap in Hx as (u & -> & _). simpl in *.
    apply role_owner_iff. exact Hr.
Qed.

End AllUsersFacts.

(** ** The retry wrapper under any cap *)

Lemma total_wait_app {A} (l1 l2 : list (event A)) :
  total_wait (l1 ++ l2)%list = total_wait l1 + total_wait l2.
Proof.
  induction l1 as [|ev l1 IH]; [reflexivity|].
  simpl. destruct ev; rewrite IH; lia.
Qed.

Lemma retry_from_traced {St : Type} {timer : Sleeper St} {A : Type}
    (operation : M St A) (n fuel i : nat) (s : St) (log : list (event A)) :
  (S fuel + i = n)%nat ->
  attempts log = i ->
  total_wait log = 500 * Z.of_nat i * (Z.of_nat i + 1) ->
  exists r s' log',
    retry_from (timer := traced_sleeper) (traced operation) n (S fuel) i (s, log)
    = (r, (s', log'))
    /\ retry_from operation n (S fuel) i s = (r, s')
    /\ (i < attempts log' <= n)%nat
    /\ last log' = Some (EvAttempt r)
    /\ total_wait log'
       = 500 * (Z.of_nat (attempts log') - 1) * Z.of_nat (attempts log').
Proof.
  revert i s log. induction fuel as [|fuel IH]; intros i s log Hn Hi Hw.
  - cbn [retry_from]. unfold traced at 1. cbn [fst snd].
    destruct (operation s) as [[a|err] s1].
    + do 3 eexists. split; [reflexivity|]. split; [reflexivity|].
      rewrite attempts_app, total_wait_app, last_snoc, Hi, Hw. simpl.
      split; [lia|]. split; [reflexivity|]. lia.
    + replace (i =? n - 1)%nat with true by (symmetry; apply Nat.eqb_eq; lia).
      rewrite andb_false_r.
      do 3 eexists. split; [reflexivity|]. split; [reflexivity|].
      rewrite attempts_app, total_wait_app, last_snoc, Hi, Hw. simpl.
      split; [lia|]. split; [reflexivity|]. lia.
  - cbn [retry_from]. unfold traced at 1. cbn [fst snd].
    destruct (operation s) as [[a|err] s1].
    + do 3 eexists. split; [reflexivity|]. split; [reflexivity|].
      rewrite attempts_app, total_wait_app, last_snoc, Hi, Hw. simpl.
      split; [lia|]. split; [reflexivity|]. lia.
    + replace (i =? n - 1)%nat with false by (symmetry; apply Nat.eqb_neq; lia).
      destruct (isConnectionError err); cbn [andb negb].
      * destruct (IH (S i) (setTimeout_wait (1000 * (Z.of_nat i + 1)) s1)
                    ((log ++ [EvAttempt (Throw err)]) ++ [EvWait (1000 * (Z.of_nat i + 1))])%list)
          as (r & s' & log' & Hrun & Hplain & Hatt & Hlast & Hwait).
        -- lia.
        -- rewrite !attempts_app, Hi. simpl. lia.
        -- rewrite !total_wait_app, Hw. simpl. lia.
        -- exists r, s', log'. split; [exact Hrun|]. split; [exact Hplain|].
           split; [lia|]. split; [exact Hlast | exact Hwait].
      * do 3 eexists. split; [reflexivity|]. split; [reflexivity|].
        rewrite attempts_app, total_wait_app, last_snoc, Hi, Hw. simpl.
        split; [lia|]. split; [reflexivity|]. lia.
Qed.

(** Property X15.  [withRetry] under any cap, for any operation over any
    state.  With a cap of 0 the operation is not run and the error is
    [Max retries exceeded].  With a cap of at least 1 the wrapper makes
    between one and cap attempts and returns the outcome of the last one,
    so that error is then never produced by the wrapper; and the waits add
    up to 500 ms times (n - 1) n for n attempts.  The instrumented run
    returns what the plain run returns. *)
Theorem withRetry_any_cap {St : Type} {timer : Sleeper St} {A : Type}
    (operation : M St A) (maxRetries : nat) (s : St) :
  exists r s' log,
    withRetry (timer := traced_sleeper) (traced operation) maxRetries (s, [])
    = (r, (s', log))
    /\ withRetry operation maxRetries s = (r, s')
    /\ (maxRetries = 0%nat ->
        log = [] /\ s' = s /\ r = Throw (Error "Max retries exceeded"))
    /\ ((1 <= maxRetries)%nat ->
        (1 <= attempts log <= maxRetries)%nat
        /\ last log = Some (EvAttempt r))
    /\ total_wait log
       = 500 * (Z.of_nat (attempts log) - 1) * Z.of_nat (attempts log).
Proof.
  unfold withRetry. destruct maxRetries as [|n].
  - exists (Throw (Error "Max retries exceeded")), s, [].
    split; [reflexivity|]. split; [reflexivity|]. split; [auto|].
    split; [lia | reflexivity].
  - destruct (retry_from_traced operation (S n) n 0 s [])
      as (r & s' & log & Hrun & Hplain & Hatt & Hlast & Hwait);
      [lia | reflexivity | reflexivity |].
    exists r, s', log. split; [exact Hrun|]. split; [exact Hplain|].
    split; [discriminate|]. split; [|exact Hwait].
    intros _. split; [lia | exact Hlast].
Qed.

(** ** The client singletons *)

Section SingletonFacts.

Variable constructor_throws : string -> string -> option JsError.

(** Property X16.  [getUpstashKvrocks] and [getUpstashRedis], whatever the
    constructor of the client library accepts.  A call that returns a
    client has cached it: every later call returns the same client and
    changes nothing, whatever the environment has become.  With no cached
    client, the client returned was built from the two variables, which
    the constructor accepted.  A call that throws found no cached client
    and leaves the process as it was (so nothing is cached, and the next
    call tries again); it throws the adapter's own error exactly when the
    URL or the token is unset or empty, and otherwise what the constructor
    threw for them.  The two caches are separate: a call of one function
    never changes what the other returns. *)
Theorem singleton_clients (p : process) (e : string -> option string) :
  (match getUpstashKvrocks constructor_throws p with
   | (Ok client, p') =>
       getUpstashKvrocks constructor_throws (with_env e p')
       = (Ok client, with_env e p')
       /\ (global p !! "__KATELYATV_KVROCKS_UPSTASH__" = None ->
           env p "KVROCKS_URL" = Some (url client)
           /\ env p "KVROCKS_TOKEN" = Some (token client)
           /\ constructor_throws (url client) (token client) = None)
   | (Throw err, p') =>
       p' = p /\ global p !! "__KATELYATV_KVROCKS_UPSTASH__" = None
       /\ (((unset (env p "KVROCKS_URL") = true \/ unset (env p "KVROCKS_TOKEN") = true)
            /\ err = Error "KVROCKS_URL 和 KVROCKS_TOKEN 必须配置")
           \/ (exists u t, env p "KVROCKS_URL" = Some u /\ env p "KVROCKS_TOKEN" = Some t
                           /\ u <> EmptyString /\ t <> EmptyString
                           /\ constructor_throws u t = Some err))
   end)
  /\ (match getUpstashRedis constructor_throws p with
      | (Ok client, p') =>
          getUpstashRedis constructor_throws (with_env e p')
          = (Ok client, with_env e p')
          /\ (global p !! "__KATELYATV_UPSTASH_REDIS__" = None ->
              env p "REDIS_URL" = Some (url client)
              /\ env p "REDIS_TOKEN" = Some (token client)
              /\ constructor_throws (url client) (token client) = None)
      | (Throw err, p') =>
          p' = p /\ global p !! "__KATELYATV_UPSTASH_REDIS__" = None
          /\ (((unset (env p "REDIS_URL") = true \/ unset (env p "REDIS_TOKEN") = true)
               /\ err = Error "REDIS_URL 和 REDIS_TOKEN 必须配置")
              \/ (exists u t, env p "REDIS_URL" = Some u /\ env p "REDIS_TOKEN" = Some t
                              /\ u <> EmptyString /\ t <> EmptyString
                              /\ constructor_throws u t = Some err))
      end)
  /\ fst (getUpstashKvrocks constructor_throws
            (snd (getUpstashRedis constructor_throws p)))
     = fst (getUpstashKvrocks constructor_throws p)
  /\ fst (getUpstashRedis constructor_throws
            (snd (getUpstashKvrocks constructor_throws p)))
     = fst (getUpstashRedis constructor_throws p).
Proof.
  split; [|split; [|split]].
  - unfold getUpstashKvrocks, new_Redis. cbv zeta.
    destruct (global p !! "__KATELYATV_KVROCKS_UPSTASH__") as [c|] eqn:E.
    + simpl. rewrite E. split; [reflexivity | discriminate].
    + destruct (env p "KVROCKS_URL") as [u|], (env p "KVROCKS_TOKEN") as [t|];
        simpl; rewrite ?orb_true_r; auto 6.
      destruct (String.eqb u EmptyString) eqn:Eu; simpl; [auto 6|].
      destruct (String.eqb t EmptyString) eqn:Et; simpl; [auto 6|].
      apply String.eqb_neq in Eu, Et.
      destruct (constructor_throws u t) as [err|] eqn:Ec; simpl.
      * split; [reflexivity|]. split; [reflexivity|]. right. exists u, t. auto 6.
      * rewrite lookup_insert_eq. auto.
  - unfold getUpstashRedis, new_Redis. cbv zeta.
    destruct (global p !! "__KATELYATV_UPSTASH_REDIS__") as [c|] eqn:E.
    + simpl. rewrite E. split; [reflexivity | discriminate].
    + destruct (env p "REDIS_URL") as [u|], (env p "REDIS_TOKEN") as [t|];
        simpl; rewrite ?orb_true_r; auto 6.
      destruct (String.eqb u EmptyString) eqn:Eu; simpl; [auto 6|].
      destruct (String.eqb t EmptyString) eqn:Et; simpl; [auto 6|].
      apply String.eqb_neq in Eu, Et.
      destruct (constructor_throws u t) as [err|] eqn:Ec; simpl.
      * split; [reflexivity|]. split; [reflexivity|]. right. exists u, t. auto 6.
      * rewrite lookup_insert_eq. auto.
  - unfold getUpstashRedis. cbv zeta.
    destruct (global p !! "__KATELYATV_UPSTASH_REDIS__") as [c|]; [reflexivity|].
    destruct (unset (env p "REDIS_URL") || unset (env p "REDIS_TOKEN"));
      [reflexivity|].
    destruct (new_Redis constructor_throws _ _) as [c|err]; [|reflexivity].
    unfold getUpstashKvrocks. cbv zeta. simpl.
    rewrite lookup_insert_ne by discriminate.
    destruct (global p !! "__KATELYATV_KVROCKS_UPSTASH__"); [reflexivity|].
    destruct (unset (env p "KVROCKS_URL") || unset (env p "KVROCKS_TOKEN"));
      [reflexivity|].
    destruct (new_Redis constructor_throws _ _); reflexivity.
  - unfold getUpstashKvrocks. cbv zeta.
    destruct (global p !! "__KATELYATV_KVROCKS_UPSTASH__") as [c|]; [reflexivity|].
    destruct (unset (env p "KVROCKS_URL") || unset (env p "KVROCKS_TOKEN"));
      [reflexivity|].
    destruct (new_Redis constructor_throws _ _) as [c|err]; [|reflexivity].
    unfold getUpstashRedis. cbv zeta. simpl.
    rewrite lookup_insert_ne by discriminate.
    destruct (global p !! "__KATELYATV_UPSTASH_REDIS__"); [reflexivity|].
    destruct (unset (env p "REDIS_URL") || unset (env p "REDIS_TOKEN"));
      [reflexivity|].
    destruct (new_Redis constructor_throws _ _); reflexivity.
Qed.

End SingletonFacts.

(** ** What the cascades leave of the settings *)

Lemma redis_deleteUser_settings_free (u : string) (w : world) :
  kv (after (RedisStorage.deleteUser u) w) !! RedisStorage.userSettingsKey u = None.
Proof.
  unfold RedisStorage.deleteUser. run.
  rewrite sweep_retry_run. run. rewrite sweep_retry_run. run.
  apply deleted_lookup. left.
Qed.

Lemma glob_user_tail (u tail key_tail : string) :
  plain u = true ->
  glob ("u:" +:+ u +:+ tail) ("u:" +:+ u +:+ key_tail) = true ->
  glob tail key_tail = true.
Proof.
  intros Hu Hg.
  apply glob_prefix_inv in Hg as (s1 & E1 & Hg); [|reflexivity].
  apply append_inj_r in E1. subst s1.
  apply glob_prefix_inv in Hg as (s2 & E2 & Hg); [|exact Hu].
  apply append_inj_r in E2. subst s2. exact Hg.
Qed.

Lemma kvrocks_cascade_spares_settings (u : string) :
  plain u = true -> ~ kvrocks_cascade u (KvrocksStorage.userSettingsKey u).
Proof.
  intros Hu [E | [E | [H | [H | [H | H]]]]]; try discriminate E;
    apply (glob_user_tail u _ ":settings" Hu) in H; vm_compute in H; discriminate.
Qed.

(** Property X17.  The settings of a deleted user.  On backend B
    [deleteUser] removes the settings, so [getUserSettings] answers the
    defaults afterwards, for every user name.  The cascade of backend A has
    no pattern for the settings key: for a user name with no pattern
    character, [getUserSettings] answers after [deleteUser] what it
    answered before. *)
Theorem deleteUser_and_settings (u : string) (w : world) :
  value_of (RedisStorage.getUserSettings u) (after (RedisStorage.deleteUser u) w)
  = Ok (VSettings RedisStorage.defaultSettings)
  /\ (plain u = true ->
      value_of (KvrocksStorage.getUserSettings u) (after (KvrocksStorage.deleteUser u) w)
      = value_of (KvrocksStorage.getUserSettings u) w).
Proof.
  split.
  - unfold value_of.
    rewrite redis_getUserSettings_free by apply redis_deleteUser_settings_free.
    reflexivity.
  - intros Hu. unfold KvrocksStorage.getUserSettings. apply read_frame.
    apply kvrocks_deleteUser_within, kvrocks_cascade_spares_settings, Hu.
Qed.

(** ** The skip-config index in the stores of backend B *)

Lemma skip_key_owned (u k : string) : skip_key u k -> redis_owned u k.
Proof. intros [[x ->] | ->]; [right; left; eauto | right; right; reflexivity]. Qed.

Lemma skip_key_not_user_key (u k sub : string) :
  skip_key u k -> k <> "u:" +:+ sub.
Proof. intros [[x ->] | ->] E; discriminate E. Qed.

(** The calls that do not write skip configs change no skip-config key,
    whatever the user names. *)
Lemma other_calls_frame_skip (c : redis_write) (u k : string) (w : world) :
  skip_call c = false -> skip_key u k ->
  kv (after (redis_do c) w) !! k = kv w !! k.
Proof.
  intros Hc Hk. apply redis_footprint_sound. intros Hfp.
  destruct c; try discriminate Hc; simpl in Hfp;
    try (subst k; apply (skip_key_not_user_key u _ _ Hk eq_refl)).
  - destruct Hfp as [-> | [-> | [H | [H | ->]]]];
      try (apply (skip_key_not_user_key u _ _ Hk eq_refl));
      apply glob_u_colon in H as [sub ->];
      apply (skip_key_not_user_key u _ _ Hk eq_refl).
  - subst k. destruct Hk as [[x E] | E]; discriminate E.
Qed.

(** A call that writes skip configs for another user changes none of
    this user's, if both names are free of the separator. *)
Lemma skip_calls_frame_skip (c : redis_write) (u v k : string) (w : world) :
  skip_call c = true -> caller c = Some v ->
  colon_free v = true -> colon_free u = true -> v <> u ->
  skip_key u k ->
  kv (after (redis_do c) w) !! k = kv w !! k.
Proof.
  intros Hs Hc Hv Hu Hne Hk. apply redis_footprint_sound. intros Hfp.
  apply Hne. apply (redis_owned_disjoint v u k Hv Hu); [|apply skip_key_owned, Hk].
  destruct c; try discriminate Hs; simpl in Hc; injection Hc as <-;
    simpl in Hfp; apply skip_key_owned;
    (destruct Hfp as [-> | ->]; [left; eauto | right; reflexivity]).
Qed.

Lemma index_exact_frame (u : string) (w w' : world) :
  (forall k, skip_key u k -> kv w' !! k = kv w !! k) ->
  index_exact w u -> index_exact w' u.
Proof.
  intros Hf [Hs Hex].
  assert (Hi : kv w' !! RedisStorage.skipConfigsKey u
               = kv w !! RedisStorage.skipConfigsKey u)
    by (apply Hf; right; reflexivity).
  split.
  - unfold set_or_free. rewrite Hi. exact Hs.
  - intros k. unfold set_at. rewrite Hi, (Hf (RedisStorage.skipConfigKey u k))
      by (left; eauto).
    apply Hex.
Qed.

Lemma redis_setSkipConfig_keeps_index (u k : string) (c : EpisodeSkipConfig) (w : world) :
  index_exact w u -> index_exact (after (RedisStorage.setSkipConfig u k c) w) u.
Proof.
  intros [Hs Hex]. unfold after. rewrite (redis_setSkipConfig_run u k c w Hs). simpl.
  split.
  - unfold set_or_free. rewrite kv_with_kv, lookup_insert_eq. exact I.
  - intros k'. unfold set_at at 1. rewrite !kv_with_kv, lookup_insert_eq.
    rewrite lookup_insert_ne by (apply not_eq_sym, skipConfig_keys_differ).
    destruct (decide (k' = k)) as [-> | Hne].
    + rewrite lookup_insert_eq. split; [eauto | set_solver].
    + rewrite lookup_insert_ne
        by (intros E; apply redis_skipConfigKey_inj in E; congruence).
      rewrite <- Hex. set_solver.
Qed.

Lemma redis_do_keeps_index (c : redis_write) (u : string) (w : world) :
  (forall v, caller c = Some v -> colon_free v = true) ->
  colon_free u = true ->
  index_exact w u -> index_exact (after (redis_do c) w) u.
Proof.
  intros Hc Hu Hex.
  destruct (skip_call c) eqn:Es.
  - destruct c; try discriminate Es; simpl in Hc.
    + destruct (decide (u0 = u)) as [-> | Hne].
      * apply redis_setSkipConfig_keeps_index, Hex.
      * apply (index_exact_frame u w); [|exact Hex]. intros k' Hk'.
        apply (skip_calls_frame_skip (SetSkipConfig u0 k c) u u0 k' w
                 eq_refl eq_refl (Hc _ eq_refl) Hu Hne Hk').
    + destruct (decide (u0 = u)) as [-> | Hne].
      * apply redis_deleteSkipConfig_index, Hex.
      * apply (index_exact_frame u w); [|exact Hex]. intros k' Hk'.
        apply (skip_calls_frame_skip (DeleteSkipConfig u0 k) u u0 k' w
                 eq_refl eq_refl (Hc _ eq_refl) Hu Hne Hk').
  - apply (index_exact_frame u w); [|exact Hex]. intros k' Hk'.
    apply (other_calls_frame_skip c u k' w Es Hk').
Qed.

Lemma redis_store_snoc (calls : list redis_write) (c : redis_write) :
  redis_store (calls ++ [c]) = after (redis_do c) (redis_store calls).
Proof. unfold redis_store. rewrite fold_left_app. reflexivity. Qed.

Lemma redis_store_index_exact (calls : list redis_write) (u : string) :
  colon_free_calls calls -> colon_free u = true ->
  index_exact (redis_store calls) u.
Proof.
  intros Hcalls Hu. revert Hcalls.
  induction calls as [|c calls IH] using rev_ind; intros Hcalls.
  - apply index_exact_empty.
  - apply Forall_app in Hcalls as [Hcalls Hc].
    apply (proj1 (Forall_singleton _ _)) in Hc.
    rewrite redis_store_snoc. apply redis_do_keeps_index; [exact Hc | exact Hu |].
    apply IH, Hcalls.
Qed.

Lemma string_or_free_frame (w w' : world) (key : string) :
  kv w' !! key = kv w !! key -> string_or_free w key -> string_or_free w' key.
Proof. unfold string_or_free. intros ->. auto. Qed.

Lemma redis_do_keeps_config_strings (c : redis_write) (u x : string) (w : world) :
  string_or_free w (RedisStorage.skipConfigKey u x) ->
  string_or_free (after (redis_do c) w) (RedisStorage.skipConfigKey u x).
Proof.
  intros Hs.
  destruct (skip_call c) eqn:Es.
  - destruct c; try discriminate Es; simpl.
    + destruct (decide (RedisStorage.skipConfigKey u0 k = RedisStorage.skipConfigKey u x))
        as [E | Hne].
      * rewrite <- E. pose proof (redis_setSkipConfig_stored u0 k c w) as Hst.
        unfold stored in Hst. unfold string_or_free.
        destruct (kv (after (RedisStorage.setSkipConfig u0 k c) w)
                    !! RedisStorage.skipConfigKey u0 k) as [[v|l|s]|];
          try discriminate; exact I.
      * apply (string_or_free_frame w); [|exact Hs].
        apply (redis_footprint_sound (SetSkipConfig u0 k c)). simpl.
        intros [E | E]; [congruence | apply (skipConfig_keys_differ _ _ _ E)].
    + destruct (decide (RedisStorage.skipConfigKey u0 k = RedisStorage.skipConfigKey u x))
        as [E | Hne].
      * rewrite <- E. unfold string_or_free.
        rewrite redis_deleteSkipConfig_free. exact I.
      * apply (string_or_free_frame w); [|exact Hs].
        apply (redis_footprint_sound (DeleteSkipConfig u0 k)). simpl.
        intros [E | E]; [congruence | apply (skipConfig_keys_differ _ _ _ E)].
  - apply (string_or_free_frame w); [|exact Hs].
    apply (other_calls_frame_skip c u _ w Es). left. eauto.
Qed.

Lemma redis_store_config_strings (calls : list redis_write) (u x : string) :
  string_or_free (redis_store calls) (RedisStorage.skipConfigKey u x).
Proof.
  induction calls as [|c calls IH] using rev_ind.
  - unfold string_or_free, redis_store, empty_world. simpl.
    rewrite lookup_empty. exact I.
  - rewrite redis_store_snoc. apply redis_do_keeps_config_strings, IH.
Qed.

Lemma redis_skipConfigsKey_inj u v :
  RedisStorage.skipConfigsKey u = RedisStorage.skipConfigsKey v -> u = v.
Proof. apply append_inj_r. Qed.

(** Every member of an index was the content key of a [setSkipConfig]. *)
Lemma redis_store_index_members (calls : list redis_write) (u k : string) :
  k ∈ set_at (redis_store calls) (RedisStorage.skipConfigsKey u) ->
  k ∈ skip_keys_of calls.
Proof.
  revert k. induction calls as [|c calls IH] using rev_ind; intros k.
  - unfold set_at, redis_store, empty_world. simpl. rewrite lookup_empty.
    intros Hk. apply elem_of_empty in Hk. contradiction.
  - rewrite redis_store_snoc. unfold skip_keys_of. rewrite omap_app.
    fold (skip_keys_of calls). intros Hk. apply elem_of_app.
    pose proof (redis_store_indexes_ok calls u) as Hs.
    assert (Hother : forall c0,
              ~ redis_footprint c0 (RedisStorage.skipConfigsKey u) ->
              k ∈ set_at (after (redis_do c0) (redis_store calls))
                    (RedisStorage.skipConfigsKey u) ->
              k ∈ skip_keys_of calls).
    { intros c0 Hfp Hin. apply IH.
      rewrite <- (set_at_frame (redis_store calls) _ _
                    (redis_footprint_sound c0 _ _ Hfp)).
      exact Hin. }
    destruct (skip_call c) eqn:Es.
    + destruct c; try discriminate Es.
      * destruct (decide (u0 = u)) as [-> | Hne].
        -- simpl in Hk. unfold after in Hk.
           rewrite (redis_setSkipConfig_run u k0 c _ Hs) in Hk. simpl in Hk.
           unfold set_at at 1 in Hk. rewrite kv_with_kv, lookup_insert_eq in Hk.
           apply elem_of_union in Hk as [Hk | Hk].
           ++ right. apply elem_of_singleton in Hk as ->. simpl. left.
           ++ left. apply IH, Hk.
        -- left. apply (Hother (SetSkipConfig u0 k0 c)); [|exact Hk]. simpl.
           intros [E | E]; [symmetry in E; apply (skipConfig_keys_differ _ _ _ E)|].
           apply redis_skipConfigsKey_inj in E. congruence.
      * destruct (decide (u0 = u)) as [-> | Hne].
        -- left. apply IH. simpl in Hk. unfold after in Hk.
           rewrite (redis_deleteSkipConfig_run u k0 _ Hs) in Hk. simpl in Hk.
           unfold set_at in *.
           destruct (kv (redis_store calls) !! RedisStorage.skipConfigsKey u)
             as [[x|l|s0]|] eqn:E; rewrite ?kv_with_kv in Hk.
           ++ rewrite lookup_delete_ne in Hk
                by (apply skipConfig_keys_differ).
              rewrite E in Hk. exact Hk.
           ++ rewrite lookup_delete_ne in Hk
                by (apply skipConfig_keys_differ).
              rewrite E in Hk. exact Hk.
           ++ unfold put_set in Hk. case_decide as He.
              ** rewrite lookup_delete_eq in Hk. apply elem_of_empty in Hk.
                 contradiction.
              ** rewrite lookup_insert_eq in Hk. set_solver.
           ++ rewrite lookup_delete_ne in Hk
                by (apply skipConfig_keys_differ).
              rewrite E in Hk. exact Hk.
        -- left. apply (Hother (DeleteSkipConfig u0 k0)); [|exact Hk]. simpl.
           intros [E | E]; [symmetry in E; apply (skipConfig_keys_differ _ _ _ E)|].
           apply redis_skipConfigsKey_inj in E. congruence.
    + left. apply IH.
      rewrite <- (set_at_frame (redis_store calls) _ _
                    (other_calls_frame_skip c u _ (redis_store calls) Es
                       (or_intror eq_refl))).
      exact Hk.
Qed.


(** With a separator in a name, a config can be stored for one user and
    indexed for another: it is read by [getSkipConfig] and not listed. *)
Example skip_config_colon_name :
  let w := redis_store [SetSkipConfig "a" "b:c" sample_config] in
  value_of (RedisStorage.getSkipConfig "a:b" "c") w = Ok (VRecord sample_config)
  /\ value_of (RedisStorage.getAllSkipConfigs "a:b") w = Ok ∅.
Proof. split; vm_compute; reflexivity. Qed.

(** ** The authentication middleware *)

Lemma prefix_app (p s t : string) :
  String.prefix p s = true -> String.prefix p (s +:+ t) = true.
Proof.
  revert s. induction p as [|a p IH]; intros s H; [destruct (s +:+ t); reflexivity|].
  destruct s as [|b s]; [discriminate|].
  cbv [String.append]. fold String.append. simpl in *.
  destruct (ascii_dec a b); [auto | discriminate].
Qed.

Lemma shouldSkipAuth_below (pathname rest : string) :
  shouldSkipAuth pathname = true -> shouldSkipAuth (pathname +:+ rest) = true.
Proof.
  unfold shouldSkipAuth. rewrite !existsb_exists.
  intros (p & Hin & Hp). exists p. split; [exact Hin|].
  apply prefix_app, Hp.
Qed.

Section MiddlewareFacts.

Variable decodeURIComponent : string -> option string.
Variable JSON_parse : string -> option json.
Variable subtle_verify : string -> string -> json -> bool.
Variable PASSWORD : option string.
Variable NEXT_PUBLIC_STORAGE_TYPE : option string.

#[local] Abbreviation run_middleware :=
  (middleware decodeURIComponent JSON_parse subtle_verify PASSWORD
     NEXT_PUBLIC_STORAGE_TYPE).
#[local] Abbreviation cookie_of request :=
  (parseCookie decodeURIComponent JSON_parse
     (env_or (headers_cookie request) EmptyString)).

(** Property X19.  What the middleware lets through.  A path below one of
    the open prefixes passes without any check.  On any other path: with
    [PASSWORD] unset or empty every request is redirected to [/warning];
    and a request passes only if the cookie parses to a truthy value and,
    in [localstorage] mode (the default), its [password] is the string in
    [PASSWORD], or, in any other mode, its [username] is truthy, its
    [signature] is a string and the HMAC verification of the signature
    over the user name under the password succeeds. *)
Theorem middleware_guards (request : NextRequest) :
  (forall rest,
     shouldSkipAuth (nextUrl_pathname request) = true ->
     run_middleware
       {| request_origin := request_origin request;
          nextUrl_pathname := nextUrl_pathname request +:+ rest;
          nextUrl_search := nextUrl_search request;
          headers_cookie := headers_cookie request |} = Ok Next)
  /\ (shouldSkipAuth (nextUrl_pathname request) = false ->
      unset PASSWORD = true ->
      run_middleware request = Ok (Redirect (request_origin request) "/warning" []))
  /\ (shouldSkipAuth (nextUrl_pathname request) = false ->
      run_middleware request = Ok Next ->
      exists password,
        PASSWORD = Some password /\ password <> EmptyString
        /\ json_truthy (cookie_of request) = true
        /\ (env_or NEXT_PUBLIC_STORAGE_TYPE "localstorage" = "localstorage" ->
            json_prop (cookie_of request) "password" = Some (JString password))
        /\ (env_or NEXT_PUBLIC_STORAGE_TYPE "localstorage" <> "localstorage" ->
            exists u sig,
              json_prop (cookie_of request) "username" = Some u
              /\ json_truthy u = true
              /\ json_prop (cookie_of request) "signature" = Some (JString sig)
              /\ subtle_verify password sig u = true)).
Proof.
  split; [|split].
  - intros rest Hskip. unfold middleware. cbn [nextUrl_pathname].
    rewrite (shouldSkipAuth_below _ rest Hskip). reflexivity.
  - intros Hskip Hpw. unfold middleware. rewrite Hskip, Hpw. reflexivity.
  - intros Hskip. unfold middleware. rewrite Hskip. cbv zeta.
    destruct PASSWORD as [password|]; [|discriminate]. simpl unset. simpl default.
    destruct (String.eqb_spec password EmptyString) as [E|Hne]; [discriminate|].
    set (authInfo := cookie_of request).
    destruct (json_truthy authInfo) eqn:Ht; cbn [negb];
      [|unfold handleAuthFailure; destruct (startsWith _ _); discriminate].
    intros Hrun. exists password. split; [reflexivity|]. split; [exact Hne|].
    split; [reflexivity|].
    destruct (String.eqb_spec (env_or NEXT_PUBLIC_STORAGE_TYPE "localstorage")
                "localstorage") as [Em|Em].
    + split; [|contradiction]. intros _.
      destruct (json_prop authInfo "password") as [[ |b|n|p|items|fields]|];
        try (unfold handleAuthFailure in Hrun; destruct (startsWith _ _); discriminate).
      destruct (String.eqb_spec p password) as [E|E];
        [rewrite E; reflexivity|].
      unfold handleAuthFailure in Hrun; destruct (startsWith _ _); discriminate.
    + split; [contradiction|]. intros _.
      destruct (json_prop authInfo "username") as [u|]; cbn in Hrun;
        [|unfold handleAuthFailure in Hrun; destruct (startsWith _ _); discriminate].
      destruct (json_truthy u) eqn:Hu; cbn in Hrun;
        [|unfold handleAuthFailure in Hrun; destruct (startsWith _ _); discriminate].
      destruct (json_prop authInfo "signature") as [s|]; cbn in Hrun;
        [|unfold handleAuthFailure in Hrun; destruct (startsWith _ _); discriminate].
      destruct (json_truthy s) eqn:Hs; cbn in Hrun;
        [|unfold handleAuthFailure in Hrun; destruct (startsWith _ _); discriminate].
      destruct s as [ |b|n|sig|items|fields]; try discriminate Hrun.
      cbn in Hrun.
      destruct (forallb is_line_terminator (list_ascii_of_string sig));
        [unfold handleAuthFailure in Hrun; destruct (startsWith _ _); discriminate|].
      destruct (subtle_verify password sig u) eqn:Hv;
        [|unfold handleAuthFailure in Hrun; destruct (startsWith _ _); discriminate].
      exists u, sig. auto.
Qed.

Lemma handleAuthFailure_cases (request : NextRequest) :
  (startsWith (nextUrl_pathname request) "/api" = true
   /\ handleAuthFailure request (nextUrl_pathname request)
      = Response "Unauthorized" 401)
  \/ (startsWith (nextUrl_pathname request) "/api" = false
      /\ handleAuthFailure request (nextUrl_pathname request)
         = Redirect (request_origin request) "/login"
             [("redirect", nextUrl_pathname request +:+ nextUrl_search request)]).
Proof.
  unfold handleAuthFailure.
  destruct (startsWith (nextUrl_pathname request) "/api"); auto.
Qed.


(** Property X21.  A request without a cookie never passes a guarded path.
    Where [decodeURIComponent] leaves the empty string as it is and
    [JSON.parse] reads [{}] as the empty object, a request with no cookie
    header (or an empty one) to a path outside the open prefixes, with
    [PASSWORD] set, is answered by the refusal of [handleAuthFailure], in
    every storage mode. *)
Theorem middleware_without_cookie (request : NextRequest)
    (Hdecode : decodeURIComponent EmptyString = Some EmptyString)
    (Hparse : JSON_parse "{}" = Some (JObject []))
    (Hpath : shouldSkipAuth (nextUrl_pathname request) = false)
    (Hpassword : unset PASSWORD = false)
    (Hcookie : env_or (headers_cookie request) EmptyString = EmptyString) :
  run_middleware request
  = Ok (handleAuthFailure request (nextUrl_pathname request)).
Proof.
  unfold middleware. rewrite Hpath, Hpassword, Hcookie. cbv zeta.
  assert (Hinfo : parseCookie decodeURIComponent JSON_parse EmptyString = JObject []).
  { unfold parseCookie, parseCookie_object. cbn [split_on foldl mbind option_bind].
    unfold parseCookie_step. cbn [trim list_ascii_of_string trim_start rev
      string_of_list_ascii split_on app].
    rewrite Hdecode. rewrite lookup_insert_ne by discriminate.
    rewrite lookup_empty, Hparse. reflexivity. }
  rewrite Hinfo. cbn.
  destruct (String.eqb (env_or NEXT_PUBLIC_STORAGE_TYPE "localstorage") "localstorage");
    reflexivity.
Qed.

End MiddlewareFacts.

(** *** Reading the cookie header *)

Lemma split_on_nonempty (sep : ascii) (s : string) :
  exists p ps, split_on sep s = p :: ps.
Proof.
  induction s as [|c s (p & ps & IH)]; simpl; [eauto|].
  destruct (Ascii.eqb c sep); [eauto|]. rewrite IH. eauto.
Qed.

Lemma no_char_cons (sep c : ascii) (s : string) :
  no_char sep (String c s) = negb (Ascii.eqb c sep) && no_char sep s.
Proof. reflexivity. Qed.

Lemma split_on_none (sep : ascii) (s : string) :
  no_char sep s = true -> split_on sep s = [s].
Proof.
  induction s as [|c s IH]; intros H; [reflexivity|].
  rewrite no_char_cons in H. apply andb_true_iff in H as [Hc Hs].
  apply negb_true_iff in Hc. simpl. rewrite Hc, (IH Hs). reflexivity.
Qed.

Lemma split_on_app (sep : ascii) (a b : string) :
  split_on sep (a +:+ String sep b) = (split_on sep a ++ split_on sep b)%list.
Proof.
  induction a as [|c a IH].
  - cbv [String.append]. simpl. rewrite Ascii.eqb_refl. reflexivity.
  - cbv [String.append]. fold String.append. simpl.
    destruct (Ascii.eqb c sep); rewrite IH; [reflexivity|].
    destruct (split_on_nonempty sep a) as (p & ps & ->). reflexivity.
Qed.

Lemma split_on_snoc (sep : ascii) (a e : string) :
  no_char sep e = true ->
  split_on sep (a +:+ String sep e) = (split_on sep a ++ [e])%list.
Proof. intros He. rewrite split_on_app, (split_on_none sep e He). reflexivity. Qed.

Lemma trim_start_id (l : list ascii) :
  forallb (fun x => negb (is_space x)) l = true -> trim_start l = l.
Proof.
  destruct l as [|c l]; [reflexivity|]. simpl. intros H.
  apply andb_true_iff in H as [Hc _]. apply negb_true_iff in Hc.
  rewrite Hc. reflexivity.
Qed.

Lemma trim_id (s : string) : no_space s = true -> trim s = s.
Proof.
  unfold no_space, trim. intros H.
  rewrite (trim_start_id _ H), trim_start_id, rev_involutive.
  - apply string_of_list_ascii_of_string.
  - rewrite forallb_forall in *. intros x Hx. apply H, in_rev, Hx.
Qed.

Lemma no_space_append (a b : string) :
  no_space (a +:+ b) = no_space a && no_space b.
Proof. unfold no_space. rewrite list_ascii_of_append. apply forallb_app. Qed.

Section CookieFacts.

Variable decodeURIComponent : string -> option string.
Variable JSON_parse : string -> option json.

(** Property X22.  How [parseCookie] reads the header.  If the header
    ends with an entry [auth=VALUE] whose value has no [;], no [=] and no
    white space and decodes to a non-empty text, and [auth] decodes to
    itself, then: where every earlier entry decodes, the result is what
    [JSON.parse] makes of the decoded value (null where it throws),
    whatever the earlier entries are; where some earlier entry does not
    decode, the result is null.  What follows a second [=] in the value of
    an entry is dropped. *)
Theorem parseCookie_last_auth (before value decoded more : string)
    (Hauth : decodeURIComponent "auth" = Some "auth")
    (Hvalue : decodeURIComponent value = Some decoded)
    (Hdecoded : decoded <> EmptyString)
    (Hsemi : no_char ";" value = true /\ no_char ";" more = true)
    (Hequal : no_char "=" value = true /\ no_char "=" more = true)
    (Hspace : no_space value = true /\ no_space more = true) :
  parseCookie decodeURIComponent JSON_parse (before +:+ ";auth=" +:+ value)
  = match parseCookie_object decodeURIComponent before with
    | Some _ => default JNull (JSON_parse decoded)
    | None => JNull
    end
  /\ parseCookie decodeURIComponent JSON_parse
       (before +:+ ";auth=" +:+ value +:+ "=" +:+ more)
     = parseCookie decodeURIComponent JSON_parse (before +:+ ";auth=" +:+ value).
Proof.
  destruct Hsemi as [Hs1 Hs2], Hequal as [He1 He2], Hspace as [Hp1 Hp2].
  assert (Hstep : forall obj,
    parseCookie_step decodeURIComponent obj ("auth=" +:+ value)
    = Some (<["auth" := decoded]> obj)).
  { intros obj. unfold parseCookie_step.
    rewrite trim_id by (rewrite no_space_append, Hp1; reflexivity).
    change ("auth=" +:+ value) with ("auth" +:+ String "=" value).
    rewrite split_on_snoc by exact He1.
    cbn [split_on app]. cbn. rewrite Hauth, Hvalue. reflexivity. }
  assert (Hstep' : forall obj,
    parseCookie_step decodeURIComponent obj ("auth=" +:+ value +:+ "=" +:+ more)
    = Some (<["auth" := decoded]> obj)).
  { intros obj. unfold parseCookie_step.
    rewrite trim_id by (rewrite !no_space_append, Hp1, Hp2; reflexivity).
    change ("auth=" +:+ value +:+ "=" +:+ more)
      with ("auth" +:+ String "=" (value +:+ String "=" more)).
    assert (E : split_on "=" ("auth" +:+ String "=" (value +:+ String "=" more))
                = ["auth"; value; more]).
    { rewrite split_on_app, (split_on_snoc "=" value more He2),
        (split_on_none "=" value He1).
      reflexivity. }
    rewrite E, Hauth, Hvalue. reflexivity. }
  assert (Hobj : forall entry,
    no_char ";" entry = true ->
    parseCookie_object decodeURIComponent (before +:+ String ";" entry)
    = parseCookie_object decodeURIComponent before
      ≫= fun obj => parseCookie_step decodeURIComponent obj entry).
  { intros entry Hentry. unfold parseCookie_object.
    rewrite (split_on_snoc ";" before entry Hentry), foldl_app. reflexivity. }
  assert (Hread : forall entry,
    no_char ";" entry = true ->
    (forall obj, parseCookie_step decodeURIComponent obj entry
                 = Some (<["auth" := decoded]> obj)) ->
    parseCookie decodeURIComponent JSON_parse (before +:+ String ";" entry)
    = match parseCookie_object decodeURIComponent before with
      | Some _ => default JNull (JSON_parse decoded)
      | None => JNull
      end).
  { intros entry Hentry Hs. unfold parseCookie. rewrite (Hobj entry Hentry).
    destruct (parseCookie_object decodeURIComponent before) as [obj|]; [|reflexivity].
    cbn [mbind option_bind]. rewrite Hs, lookup_insert_eq.
    destruct (String.eqb_spec decoded EmptyString); [contradiction | reflexivity]. }
  assert (Hsemi1 : no_char ";" ("auth=" +:+ value) = true).
  { unfold no_char in *. rewrite list_ascii_of_append, forallb_app, Hs1. reflexivity. }
  assert (Hsemi2 : no_char ";" ("auth=" +:+ value +:+ "=" +:+ more) = true).
  { unfold no_char in *. rewrite !list_ascii_of_append, !forallb_app, Hs1, Hs2.
    reflexivity. }
  change (before +:+ ";auth=" +:+ value)
    with (before +:+ String ";" ("auth=" +:+ value)).
  change (before +:+ ";auth=" +:+ value +:+ "=" +:+ more)
    with (before +:+ String ";" ("auth=" +:+ value +:+ "=" +:+ more)).
  rewrite (Hread _ Hsemi1 Hstep), (Hread _ Hsemi2 Hstep'). auto.
Qed.

End CookieFacts.

(** ** Stores in which every key holds the kind of its family *)

Section Typed.

Variable expects : string -> key_kind -> Prop.

Lemma well_typed_insert (w : world) (key : string) (x : rvalue) :
  may_hold expects key (kind_of x) -> well_typed expects w ->
  well_typed expects (with_kv (insert key x) w).
Proof.
  intros Hm Hw k t Ht. unfold holds_kind. rewrite kv_with_kv.
  destruct (decide (k = key)) as [-> | Hne].
  - rewrite lookup_insert_eq. symmetry. apply Hm, Ht.
  - rewrite lookup_insert_ne by congruence. apply (Hw k t Ht).
Qed.

Lemma well_typed_delete (w : world) (key : string) :
  well_typed expects w -> well_typed expects (with_kv (delete key) w).
Proof.
  intros Hw k t Ht. unfold holds_kind. rewrite kv_with_kv.
  destruct (decide (k = key)) as [-> | Hne].
  - rewrite lookup_delete_eq. exact I.
  - rewrite lookup_delete_ne by congruence. apply (Hw k t Ht).
Qed.

Lemma well_typed_deleted (w : world) (keys : list string) :
  well_typed expects w -> well_typed expects (deleted keys w).
Proof.
  intros Hw. induction keys as [|key keys IH]; [rewrite deleted_nil; exact Hw|].
  apply (well_typed_delete _ key) in IH. exact IH.
Qed.

Lemma holds_may_hold (w : world) (key : string) (x : rvalue) :
  well_typed expects w -> kv w !! key = Some x -> may_hold expects key (kind_of x).
Proof.
  intros Hw Hx t Ht. specialize (Hw key t Ht). unfold holds_kind in Hw.
  rewrite Hx in Hw. symmetry. exact Hw.
Qed.

Lemma well_typed_put_list (w : world) (key : string) (l0 l : list string) :
  kv w !! key = Some (RList l0) -> well_typed expects w ->
  well_typed expects (with_kv (put_list key l) w).
Proof.
  intros Hx Hw. destruct l as [|a l]; simpl.
  - apply well_typed_delete, Hw.
  - apply well_typed_insert; [|exact Hw]. apply (holds_may_hold w key _ Hw Hx).
Qed.

Lemma well_typed_put_set (w : world) (key : string) (s0 s : gset string) :
  kv w !! key = Some (RSet s0) -> well_typed expects w ->
  well_typed expects (with_kv (put_set key s) w).
Proof.
  intros Hx Hw. unfold put_set. case_decide.
  - apply well_typed_delete, Hw.
  - apply well_typed_insert; [|exact Hw]. apply (holds_may_hold w key _ Hw Hx).
Qed.

Lemma keeps_typed_ret {A} (a : A) : keeps_typed expects (ret a).
Proof. intros w Hw. exact Hw. Qed.

Lemma keeps_typed_bind {A B} (c : M world A) (k : A -> M world B) :
  keeps_typed expects c -> (forall a, keeps_typed expects (k a)) ->
  keeps_typed expects (bind c k).
Proof.
  intros Hc Hk w Hw. unfold bind. specialize (Hc w Hw).
  destruct (c w) as [[a|err] w1]; simpl in *; [apply Hk, Hc | exact Hc].
Qed.

Lemma keeps_typed_if {A} (b : bool) (c1 c2 : M world A) :
  keeps_typed expects c1 -> keeps_typed expects c2 ->
  keeps_typed expects (if b then c1 else c2).
Proof. destruct b; auto. Qed.

Lemma keeps_typed_retry {A} (c : M world A) :
  steady c -> keeps_typed expects c -> keeps_typed expects (retry c).
Proof. intros Hs Hc w Hw. rewrite retry_steady by exact Hs. apply Hc, Hw. Qed.

Lemma keeps_typed_reads {A} (c : M world A) :
  (forall w, snd (c w) = w) -> keeps_typed expects c.
Proof. intros Hc w Hw. rewrite Hc. exact Hw. Qed.

Lemma keeps_typed_get key : keeps_typed expects (client.get key).
Proof.
  apply keeps_typed_reads. intros w. unfold client.get.
  repeat case_match; reflexivity.
Qed.

Lemma keeps_typed_keys pattern : keeps_typed expects (client.keys pattern).
Proof. apply keeps_typed_reads. reflexivity. Qed.

Lemma keeps_typed_set key v :
  may_hold expects key KString -> keeps_typed expects (client.set key v).
Proof. intros Hm w Hw. apply (well_typed_insert w key (RString v) Hm Hw). Qed.

Lemma keeps_typed_del keys : keeps_typed expects (client.del keys).
Proof. intros w Hw. apply well_typed_deleted, Hw. Qed.

Lemma keeps_typed_lrem key n v : keeps_typed expects (client.lrem key n v).
Proof.
  intros w Hw. unfold client.lrem.
  destruct (kv w !! key) as [[x|l|s]|] eqn:E; simpl; try exact Hw.
  apply (well_typed_put_list w key l _ E Hw).
Qed.

Lemma keeps_typed_ltrim key a b : keeps_typed expects (client.ltrim key a b).
Proof.
  intros w Hw. unfold client.ltrim.
  destruct (kv w !! key) as [[x|l|s]|] eqn:E; simpl; try exact Hw.
  apply (well_typed_put_list w key l _ E Hw).
Qed.

Lemma keeps_typed_lpush key v :
  may_hold expects key KList -> keeps_typed expects (client.lpush key v).
Proof.
  intros Hm w Hw. unfold client.lpush.
  destruct (kv w !! key) as [[x|l|s]|] eqn:E; simpl; try exact Hw;
    apply (well_typed_insert w key (RList _) Hm Hw).
Qed.

Lemma keeps_typed_sadd key v :
  may_hold expects key KSet -> keeps_typed expects (client.sadd key v).
Proof.
  intros Hm w Hw. unfold client.sadd.
  destruct (kv w !! key) as [[x|l|s]|] eqn:E; simpl; try exact Hw;
    apply (well_typed_insert w key (RSet _) Hm Hw).
Qed.

Lemma keeps_typed_srem key v : keeps_typed expects (client.srem key v).
Proof.
  intros w Hw. unfold client.srem.
  destruct (kv w !! key) as [[x|l|s]|] eqn:E; simpl; try exact Hw.
  apply (well_typed_put_set w key s _ E Hw).
Qed.

Lemma keeps_typed_forEach {A} (l : list A) (body : A -> M world unit) :
  (forall x, keeps_typed expects (body x)) -> keeps_typed expects (forEach l body).
Proof.
  intros Hb. induction l as [|x l IH]; simpl.
  - apply keeps_typed_ret.
  - apply keeps_typed_bind; [apply Hb | intros _; exact IH].
Qed.

End Typed.

Ltac typed_step :=
  first
    [ apply keeps_typed_ret
    | apply keeps_typed_get
    | apply keeps_typed_keys
    | apply keeps_typed_del
    | apply keeps_typed_lrem
    | apply keeps_typed_ltrim
    | apply keeps_typed_srem
    | apply keeps_typed_bind; [|intros ?]
    | apply keeps_typed_if
    | apply keeps_typed_forEach; intros ?
    | apply keeps_typed_retry; [cbv zeta; eauto 30 with steady|]
    | apply keeps_typed_set
    | apply keeps_typed_lpush
    | apply keeps_typed_sadd ].

(** Keys of two families of one scheme never coincide. *)
Lemma user_key_clash (u v tu tv : string) :
  colon_free u = true -> colon_free v = true ->
  "u:" +:+ u +:+ String ":" tu = "u:" +:+ v +:+ String ":" tv ->
  u = v /\ tu = tv.
Proof.
  intros Hu Hv E. apply append_inj_r in E. apply (colon_split u v tu tv Hu Hv E).
Qed.

Ltac clash :=
  match goal with
  | E : _ = _ |- _ => solve [discriminate E]
  | E : RedisStorage.skipConfigKey _ _ = RedisStorage.skipConfigsKey _ |- _ =>
      solve [destruct (skipConfig_keys_differ _ _ _ E)]
  | E : RedisStorage.skipConfigsKey _ = RedisStorage.skipConfigKey _ _ |- _ =>
      solve [symmetry in E; destruct (skipConfig_keys_differ _ _ _ E)]
  | Hu : colon_free ?u = true, Hv : colon_free ?v = true, E : _ = _ |- _ =>
      solve [apply (user_key_clash u v _ _ Hu Hv) in E; destruct E as [_ E];
             discriminate E]
  | Hu : colon_free ?u = true, Hv : colon_free ?v = true, E : _ = _ |- _ =>
      solve [apply (user_key_clash v u _ _ Hv Hu) in E; destruct E as [_ E];
             discriminate E]
  end.

Ltac redis_family :=
  let t := fresh "t" in
  let H := fresh "H" in
  intros t H; destruct t; simpl in H; try reflexivity; exfalso;
  repeat match goal with
         | H : _ \/ _ |- _ => destruct H as [H | H]
         | H : exists _, _ |- _ => destruct H as [? H]
         | H : _ /\ _ |- _ => destruct H as [? H]
         end;
  clash.

Lemma redis_do_keeps_typed (c : redis_write) :
  (forall v, caller c = Some v -> colon_free v = true) ->
  keeps_typed redis_expects (redis_do c).
Proof.
  intros Hc.
  destruct c; simpl in Hc; try pose proof (Hc _ eq_refl) as Hu; simpl;
    unfold RedisStorage.setPlayRecord, RedisStorage.deletePlayRecord,
      RedisStorage.setFavorite, RedisStorage.deleteFavorite,
      RedisStorage.registerUser, RedisStorage.changePassword,
      RedisStorage.deleteUser,
      RedisStorage.updateUserSettings, RedisStorage.getUserSettings,
      RedisStorage.setUserSettings, RedisStorage.addSearchHistory,
      RedisStorage.deleteSearchHistory, RedisStorage.setAdminConfig,
      RedisStorage.setSkipConfig, RedisStorage.deleteSkipConfig; cbv zeta;
    repeat typed_step; redis_family.
Qed.

Lemma holds_string (w : world) (key : string) :
  holds_kind w key KString -> string_or_free w key.
Proof.
  unfold holds_kind, string_or_free.
  destruct (kv w !! key) as [[x|l|s]|]; simpl; intros H; try discriminate; exact I.
Qed.

Lemma holds_list (w : world) (key : string) :
  holds_kind w key KList -> list_or_free w key.
Proof.
  unfold holds_kind, list_or_free.
  destruct (kv w !! key) as [[x|l|s]|]; simpl; intros H; try discriminate; exact I.
Qed.

Lemma holds_set (w : world) (key : string) :
  holds_kind w key KSet -> set_or_free w key.
Proof.
  unfold holds_kind, set_or_free.
  destruct (kv w !! key) as [[x|l|s]|]; simpl; intros H; try discriminate; exact I.
Qed.

Lemma returns_read {B} (key : string) (f : jsval -> B) (w : world) :
  string_or_free w key ->
  returns (await val <- retry (client.get key) ;; ret (f val)) w.
Proof.
  intros Hs. unfold returns, value_of. rewrite bind_run. unretry.
  rewrite (get_string_or_free key w Hs). eexists. reflexivity.
Qed.

Lemma redis_do_returns (c : redis_write) (w : world) :
  (forall v, caller c = Some v -> colon_free v = true) ->
  well_typed redis_expects w ->
  value_of (redis_do c) w = Ok tt.
Proof.
  intros Hc Hw.
  destruct c; simpl in Hc; try pose proof (Hc _ eq_refl) as Hu; simpl;
    try reflexivity.
  - apply (redis_deleteUser_clears u w).
  - assert (Hs : string_or_free w (RedisStorage.userSettingsKey u))
      by (apply holds_string, Hw; do 3 right; left; eauto).
    unfold RedisStorage.updateUserSettings, RedisStorage.getUserSettings, value_of.
    rewrite !bind_run. unretry. rewrite (get_string_or_free _ w Hs). cbn beta iota.
    destruct (truthy (mget_value w (RedisStorage.userSettingsKey u)));
      rewrite ret_run; reflexivity.
  - assert (Hl : list_or_free w (RedisStorage.shKey u))
      by (apply holds_list, Hw; exists u; auto).
    unfold value_of. change (RedisStorage.addSearchHistory u q) with (redis_call u (Add q)).
    rewrite (redis_call_step u (Add q) w Hl). reflexivity.
  - assert (Hl : list_or_free w (RedisStorage.shKey u))
      by (apply holds_list, Hw; exists u; auto).
    unfold value_of.
    change (RedisStorage.deleteSearchHistory u q) with (redis_call u (Delete q)).
    rewrite (redis_call_step u (Delete q) w Hl). reflexivity.
  - assert (Hs : set_or_free w (RedisStorage.skipConfigsKey u))
      by (apply holds_set, Hw; exists u; reflexivity).
    unfold value_of. rewrite (redis_setSkipConfig_run u k c w Hs). reflexivity.
  - assert (Hs : set_or_free w (RedisStorage.skipConfigsKey u))
      by (apply holds_set, Hw; exists u; reflexivity).
    unfold value_of. rewrite (redis_deleteSkipConfig_run u k w Hs). reflexivity.
Qed.

Lemma well_typed_empty (expects : string -> key_kind -> Prop) :
  well_typed expects empty_world.
Proof. intros k t _. unfold holds_kind, empty_world. simpl. rewrite lookup_empty. exact I. Qed.

Lemma redis_store_well_typed (calls : list redis_write) :
  colon_free_calls calls -> well_typed redis_expects (redis_store calls).
Proof.
  induction calls as [|c calls IH] using rev_ind; intros Hcalls.
  - apply well_typed_empty.
  - apply Forall_app in Hcalls as [Hcalls Hc].
    apply (proj1 (Forall_singleton _ _)) in Hc.
    rewrite redis_store_snoc. apply (redis_do_keeps_typed c Hc), IH, Hcalls.
Qed.


(** With a separator in a user name the kinds can clash: a play record of
    one user lands on the history key of another, whose history calls then
    fail. *)
Example redis_wrong_type_colon_name :
  let w := redis_store [SetPlayRecord "a" "b:sh" sample_config] in
  value_of (RedisStorage.addSearchHistory "a:pr:b" "q") w = Throw WRONGTYPE
  /\ value_of (RedisStorage.getSearchHistory "a:pr:b") w = Throw WRONGTYPE.
Proof. split; vm_compute; reflexivity. Qed.

(** *** Backend A *)

Lemma keeps_typed_Date_now expects : keeps_typed expects Date_now.
Proof. apply keeps_typed_reads. reflexivity. Qed.

Lemma keeps_typed_assign_password expects v p :
  keeps_typed expects (assign_password v p).
Proof. apply keeps_typed_reads. intros w. destruct v; reflexivity. Qed.

Ltac kvrocks_family :=
  let t := fresh "t" in
  let H := fresh "H" in
  intros t H; destruct t; simpl in H; try reflexivity; exfalso;
  repeat match goal with
         | H : _ \/ _ |- _ => destruct H as [H | H]
         | H : exists _, _ |- _ => destruct H as [? H]
         | H : _ /\ _ |- _ => destruct H as [? H]
         end;
  clash.

Lemma kvrocks_do_keeps_typed (c : redis_write) :
  (forall v, caller c = Some v -> colon_free v = true) ->
  keeps_typed kvrocks_expects (kvrocks_do c).
Proof.
  intros Hc.
  destruct c; simpl in Hc; try pose proof (Hc _ eq_refl) as Hu; simpl;
    unfold KvrocksStorage.setPlayRecord, KvrocksStorage.deletePlayRecord,
      KvrocksStorage.setFavorite, KvrocksStorage.deleteFavorite,
      KvrocksStorage.registerUser, KvrocksStorage.changePassword,
      KvrocksStorage.setUser, KvrocksStorage.getUser, KvrocksStorage.deleteUser,
      KvrocksStorage.updateUserSettings, KvrocksStorage.getUserSettings,
      KvrocksStorage.setUserSettings, KvrocksStorage.addSearchHistory,
      KvrocksStorage.deleteSearchHistory, KvrocksStorage.setAdminConfig,
      KvrocksStorage.setSkipConfig, KvrocksStorage.deleteSkipConfig; cbv zeta;
    repeat first [ apply keeps_typed_Date_now
                 | apply keeps_typed_assign_password
                 | typed_step ];
    kvrocks_family.
Qed.

Lemma stored_frame (w w' : world) (key : string) :
  kv w' !! key = kv w !! key -> stored w' key = stored w key.
Proof. unfold stored. intros ->. reflexivity. Qed.

Lemma kvrocks_changePassword_account (u p : string) (w : world) :
  accounts_ok w ->
  forall x, stored (after (KvrocksStorage.changePassword u p) w) (KvrocksStorage.userKey u)
            = Some x ->
            exists d, x = VUserData d.
Proof.
  intros Hok x. unfold KvrocksStorage.changePassword, after.
  rewrite bind_run, getUser_run.
  destruct (kv w !! KvrocksStorage.userKey u) as [[v|l|s]|] eqn:E; cbn beta iota.
  - assert (Hv : exists d, v = VUserData d)
      by (apply (Hok u); unfold stored; rewrite E; reflexivity).
    destruct Hv as [d ->]. cbn [read_back truthy assign_password].
    rewrite bind_run, ret_run.
    cbn beta iota.
    intros Hst.
    match type of Hst with
    | stored (snd (KvrocksStorage.setUser u ?v w)) _ = _ =>
        pose proof (kvrocks_setUser_stored u v w) as Hset
    end.
    unfold after in Hset. rewrite Hset in Hst. injection Hst as <-. eauto.
  - simpl. unfold stored. rewrite E. discriminate.
  - simpl. unfold stored. rewrite E. discriminate.
  - simpl. unfold stored. rewrite E. discriminate.
Qed.

Lemma userKey_inj (u v : string) :
  KvrocksStorage.userKey u = KvrocksStorage.userKey v -> u = v.
Proof. unfold KvrocksStorage.userKey. apply append_inj_r. Qed.

Lemma kvrocks_cascade_spares_accounts (u v : string) :
  v <> u -> ~ kvrocks_cascade u (KvrocksStorage.userKey v).
Proof.
  intros Hne [E | [E | [H | [H | [H | H]]]]].
  - apply Hne, userKey_inj, E.
  - apply (kvrocks_user_keys_differ v E).
  - apply glob_u_colon in H as [sub E]. discriminate E.
  - apply glob_u_colon in H as [sub E]. discriminate E.
  - apply glob_u_colon in H as [sub E]. discriminate E.
  - apply glob_u_colon in H as [sub E]. discriminate E.
Qed.

Lemma kvrocks_do_keeps_accounts (c : redis_write) (w : world) :
  accounts_ok w -> accounts_ok (after (kvrocks_do c) w).
Proof.
  intros Hok v x Hst.
  assert (Hframe : ~ kvrocks_footprint c (KvrocksStorage.userKey v) ->
                   exists d, x = VUserData d).
  { intros Hfp. apply (Hok v). rewrite <- Hst. symmetry. apply stored_frame.
    apply kvrocks_footprint_sound, Hfp. }
  destruct c; simpl in Hst;
    try (apply Hframe; simpl; intros E; discriminate E).
  - destruct (decide (v = u)) as [-> | Hne].
    + rewrite (kvrocks_registerUser_stored u p w) in Hst. injection Hst as <-. eauto.
    + apply Hframe. simpl. intros [E | E];
        [apply Hne, userKey_inj, E | apply (kvrocks_user_keys_differ v E)].
  - destruct (decide (v = u)) as [-> | Hne].
    + apply (kvrocks_changePassword_account u p w Hok x Hst).
    + apply Hframe. simpl. intros [E | E];
        [apply Hne, userKey_inj, E | apply (kvrocks_user_keys_differ v E)].
  - destruct (decide (v = u)) as [-> | Hne].
    + unfold stored in Hst. change (KvrocksStorage.deleteUser u w).2
        with (after (KvrocksStorage.deleteUser u) w) in Hst.
      rewrite kvrocks_deleteUser_key_gone in Hst. discriminate.
    + apply Hframe. simpl. apply kvrocks_cascade_spares_accounts, Hne.
Qed.

Lemma kvrocks_setUser_returns (u : string) (d : jsval) (w : world) :
  set_or_free w KvrocksStorage.userListKey ->
  value_of (KvrocksStorage.setUser u d) w = Ok tt.
Proof.
  intros Hs. unfold KvrocksStorage.setUser, value_of. run. unfold client.sadd.
  rewrite kv_with_kv, lookup_insert_ne by apply kvrocks_user_keys_differ.
  unfold set_or_free in Hs.
  destruct (kv w !! KvrocksStorage.userListKey) as [[x|l|s]|]; try contradiction;
    run; reflexivity.
Qed.

Lemma kvrocks_do_returns (c : redis_write) (w : world) :
  (forall v, caller c = Some v -> colon_free v = true) ->
  well_typed kvrocks_expects w -> accounts_ok w ->
  value_of (kvrocks_do c) w = Ok tt.
Proof.
  intros Hc Hw Hok.
  assert (Hlist : set_or_free w KvrocksStorage.userListKey)
    by (apply holds_set, Hw; reflexivity).
  destruct c; simpl in Hc; try pose proof (Hc _ eq_refl) as Hu; simpl;
    try reflexivity.
  - unfold KvrocksStorage.registerUser, value_of. rewrite bind_run.
    unfold Date_now. cbn beta iota zeta. apply (kvrocks_setUser_returns u _ w Hlist).
  - unfold KvrocksStorage.changePassword, value_of. rewrite bind_run, getUser_run.
    assert (Hs : string_or_free w (KvrocksStorage.userKey u))
      by (apply holds_string, Hw; do 4 right; left; eauto).
    unfold string_or_free in Hs.
    destruct (kv w !! KvrocksStorage.userKey u) as [[v|l|s]|] eqn:E;
      try contradiction; cbn beta iota; [|reflexivity].
    assert (Hv : exists d, v = VUserData d)
      by (apply (Hok u); unfold stored; rewrite E; reflexivity).
    destruct Hv as [d ->]. cbn [read_back truthy assign_password].
    rewrite bind_run, ret_run.
    cbn beta iota. apply (kvrocks_setUser_returns u _ w Hlist).
  - apply (kvrocks_deleteUser_clears u w Hlist).
  - assert (Hs : string_or_free w (KvrocksStorage.userSettingsKey u))
      by (apply holds_string, Hw; do 3 right; left; eauto).
    unfold KvrocksStorage.updateUserSettings, KvrocksStorage.getUserSettings, value_of.
    rewrite !bind_run. unretry. rewrite (get_string_or_free _ w Hs). reflexivity.
  - assert (Hl : list_or_free w (KvrocksStorage.searchHistoryKey u))
      by (apply holds_list, Hw; exists u; auto).
    unfold value_of.
    change (KvrocksStorage.addSearchHistory u q) with (kvrocks_call u (Add q)).
    rewrite (kvrocks_call_step u (Add q) w Hl). reflexivity.
  - assert (Hl : list_or_free w (KvrocksStorage.searchHistoryKey u))
      by (apply holds_list, Hw; exists u; auto).
    unfold value_of.
    change (KvrocksStorage.deleteSearchHistory u q) with (kvrocks_call u (Delete q)).
    rewrite (kvrocks_call_step u (Delete q) w Hl). reflexivity.
Qed.

Lemma kvrocks_store_snoc (calls : list redis_write) (c : redis_write) :
  kvrocks_store (calls ++ [c]) = after (kvrocks_do c) (kvrocks_store calls).
Proof. unfold kvrocks_store. rewrite fold_left_app. reflexivity. Qed.

Lemma kvrocks_store_invariant (calls : list redis_write) :
  colon_free_calls calls ->
  well_typed kvrocks_expects (kvrocks_store calls) /\ accounts_ok (kvrocks_store calls).
Proof.
  induction calls as [|c calls IH] using rev_ind; intros Hcalls.
  - split; [apply well_typed_empty|].
    intros u v Hst. unfold stored, kvrocks_store, empty_world in Hst. simpl in Hst.
    rewrite lookup_empty in Hst. discriminate.
  - apply Forall_app in Hcalls as [Hcalls Hc].
    apply (proj1 (Forall_singleton _ _)) in Hc.
    destruct (IH Hcalls) as [Hw Hok]. rewrite kvrocks_store_snoc. split.
    + apply (kvrocks_do_keeps_typed c Hc), Hw.
    + apply kvrocks_do_keeps_accounts, Hok.
Qed.

Lemma returns_getUser {B} (u : string) (f : jsval -> B) (w : world) :
  string_or_free w (KvrocksStorage.userKey u) ->
  returns (await userData <- KvrocksStorage.getUser u ;; ret (f userData)) w.
Proof.
  intros Hs. unfold returns, value_of. rewrite bind_run, getUser_run.
  unfold string_or_free in Hs.
  destruct (kv w !! KvrocksStorage.userKey u) as [[v|l|s]|]; try contradiction;
    eexists; reflexivity.
Qed.


(** ** The exact effect of [deleteUser] on the store *)

Lemma gone_after_sweep (pattern : string) (w w' : world) :
  no_new_keys (deleted (matching_keys pattern (kv w)) w) w' -> gone pattern w'.
Proof. intros H. eapply gone_no_new; [apply deleted_matching_gone | exact H]. Qed.

Lemma redis_deleteUser_gone (u k : string) (w : world) :
  redis_cascade u k -> kv (after (RedisStorage.deleteUser u) w) !! k = None.
Proof.
  set (w1 := deleted [RedisStorage.userPwdKey u] w).
  set (w2 := deleted [RedisStorage.shKey u] w1).
  set (w3 := deleted (matching_keys ("u:" +:+ u +:+ ":pr:*") (kv w2)) w2).
  set (w4 := deleted (matching_keys ("u:" +:+ u +:+ ":fav:*") (kv w3)) w3).
  set (w5 := deleted [RedisStorage.userSettingsKey u] w4).
  assert (Hrun : RedisStorage.deleteUser u w = (Ok tt, w5)).
  { unfold RedisStorage.deleteUser. run. fold w1. run. fold w2.
    rewrite sweep_retry_run. fold w3. run.
    rewrite sweep_retry_run. fold w4. run. reflexivity. }
  assert (H12 : no_new_keys w1 w2) by apply deleted_no_new.
  assert (H23 : no_new_keys w2 w3) by apply deleted_no_new.
  assert (H34 : no_new_keys w3 w4) by apply deleted_no_new.
  assert (H45 : no_new_keys w4 w5) by apply deleted_no_new.
  unfold after. rewrite Hrun. cbn [snd].
  intros [-> | [-> | [H | [H | ->]]]].
  - apply H45, H34, H23, H12. apply deleted_lookup. left.
  - apply H45, H34, H23. apply deleted_lookup. left.
  - apply (gone_after_sweep ("u:" +:+ u +:+ ":pr:*") w2 w5); [|exact H].
    eapply no_new_keys_trans; [exact H34 | exact H45].
  - apply (gone_after_sweep ("u:" +:+ u +:+ ":fav:*") w3 w5); [exact H45 | exact H].
  - apply deleted_lookup. left.
Qed.

Lemma kvrocks_deleteUser_gone (u k : string) (w : world) :
  set_or_free w KvrocksStorage.userListKey ->
  kvrocks_cascade u k -> k <> KvrocksStorage.userListKey ->
  kv (after (KvrocksStorage.deleteUser u) w) !! k = None.
Proof.
  intros Hlist Hk Hne.
  set (w1 := deleted [KvrocksStorage.userKey u] w).
  assert (Hlist1 : set_or_free w1 KvrocksStorage.userListKey).
  { unfold set_or_free, w1. rewrite kv_deleted. simpl.
    rewrite lookup_delete_ne by apply kvrocks_user_keys_differ. exact Hlist. }
  destruct (srem_returns KvrocksStorage.userListKey u w1 Hlist1) as (n & w2 & Esrem).
  set (w3 := deleted (matching_keys ("u:" +:+ u +:+ ":pr:*") (kv w2)) w2).
  set (w4 := deleted (matching_keys ("u:" +:+ u +:+ ":fav:*") (kv w3)) w3).
  set (w5 := deleted (matching_keys ("u:" +:+ u +:+ ":search_history") (kv w4)) w4).
  set (w6 := deleted (matching_keys ("u:" +:+ u +:+ ":skip_config:*") (kv w5)) w5).
  assert (Hrun : KvrocksStorage.deleteUser u w = (Ok tt, w6)).
  { unfold KvrocksStorage.deleteUser. run. fold w1. rewrite Esrem.
    cbn [forEach]. run. rewrite sweep_run. fold w3. run.
    rewrite sweep_run. fold w4. run.
    rewrite sweep_run. fold w5. run.
    rewrite sweep_run. fold w6. run. reflexivity. }
  assert (H34 : no_new_keys w3 w4) by apply deleted_no_new.
  assert (H45 : no_new_keys w4 w5) by apply deleted_no_new.
  assert (H56 : no_new_keys w5 w6) by apply deleted_no_new.
  destruct Hk as [-> | [-> | [H | [H | [H | H]]]]].
  - apply kvrocks_deleteUser_key_gone.
  - contradiction.
  - unfold after. rewrite Hrun. cbn [snd].
    apply (gone_after_sweep ("u:" +:+ u +:+ ":pr:*") w2 w6); [|exact H].
    eauto using no_new_keys_trans.
  - unfold after. rewrite Hrun. cbn [snd].
    apply (gone_after_sweep ("u:" +:+ u +:+ ":fav:*") w3 w6); [|exact H].
    eauto using no_new_keys_trans.
  - unfold after. rewrite Hrun. cbn [snd].
    apply (gone_after_sweep ("u:" +:+ u +:+ ":search_history") w4 w6);
      [exact H56 | exact H].
  - unfold after. rewrite Hrun. cbn [snd].
    apply (gone_after_sweep ("u:" +:+ u +:+ ":skip_config:*") w5 w6);
      [apply no_new_keys_refl | exact H].
Qed.

(** Property X25.  The exact effect of [deleteUser] on the store, for every
    user name.  On backend B it returns, every key of the cascade (the
    password, search-history and settings keys, and the keys matching the
    play-record and favourite patterns) is absent afterwards, and every
    other key is as before.  On backend A, where the user list holds a set
    or nothing, it returns, the user list has lost exactly this user,
    every other key of the cascade (the account key and the keys matching
    its four patterns) is absent, and every key outside the cascade is as
    before. *)
Theorem deleteUser_exact (u : string) (w : world) :
  (value_of (RedisStorage.deleteUser u) w = Ok tt
   /\ forall k,
        (redis_cascade u k -> kv (after (RedisStorage.deleteUser u) w) !! k = None)
        /\ (~ redis_cascade u k ->
            kv (after (RedisStorage.deleteUser u) w) !! k = kv w !! k))
  /\ (set_or_free w KvrocksStorage.userListKey ->
      value_of (KvrocksStorage.deleteUser u) w = Ok tt
      /\ set_at (after (KvrocksStorage.deleteUser u) w) KvrocksStorage.userListKey
         = set_at w KvrocksStorage.userListKey ∖ {[u]}
      /\ forall k,
           (kvrocks_cascade u k -> k <> KvrocksStorage.userListKey ->
            kv (after (KvrocksStorage.deleteUser u) w) !! k = None)
           /\ (~ kvrocks_cascade u k ->
               kv (after (KvrocksStorage.deleteUser u) w) !! k = kv w !! k)).
Proof.
  split; [split|intros Hlist; split; [|split]].
  - apply (redis_deleteUser_clears u w).
  - intros k. split; [apply redis_deleteUser_gone | apply redis_deleteUser_within].
  - apply (kvrocks_deleteUser_clears u w Hlist).
  - apply (kvrocks_deleteUser_list u w Hlist).
  - intros k. split.
    + apply (kvrocks_deleteUser_gone u k w Hlist).
    + apply kvrocks_deleteUser_within.
Qed.

(** ** Enumerations follow the writes *)

Lemma option_eq_Some {A} (a b : option A) :
  (forall v, a = Some v <-> b = Some v) -> a = b.
Proof.
  intros H. destruct a as [x|], b as [y|]; try reflexivity.
  - apply H. reflexivity.
  - symmetry. apply H. reflexivity.
  - apply H. reflexivity.
Qed.

Lemma lists_exactly_unique (w : world) (key_of : string -> string)
    (m m' : gmap string jsval) :
  lists_exactly w key_of m -> lists_exactly w key_of m' -> m = m'.
Proof.
  intros H H'. apply map_eq. intros x. apply option_eq_Some. intros v.
  rewrite (H x v), (H' x v). reflexivity.
Qed.

Lemma assign_property_other (k x : string) (v : jsval) (m : gmap string jsval) :
  x <> k -> assign_property k v m !! x = m !! x.
Proof.
  intros Hne. unfold assign_property.
  destruct (String.eqb k "__proto__"); [reflexivity|].
  apply lookup_insert_ne. congruence.
Qed.

Lemma lists_exactly_insert (w : world) (key_of : string -> string)
    (m : gmap string jsval) (k : string) (r : JsonRecord) :
  (forall x y, key_of x = key_of y -> x = y) ->
  lists_exactly w key_of m ->
  lists_exactly (with_kv (insert (key_of k) (RString (VRecord r))) w) key_of
    (assign_property k (VRecord r) m).
Proof.
  intros Hinj Hm x y. unfold reads, stored. rewrite kv_with_kv.
  destruct (decide (x = k)) as [-> | Hne].
  - rewrite lookup_insert_eq. unfold assign_property.
    destruct (String.eqb k "__proto__") eqn:Ep.
    + apply String.eqb_eq in Ep. rewrite (Hm k y). split.
      * intros (Hk & _). contradiction.
      * intros (Hk & _). contradiction.
    + apply String.eqb_neq in Ep. rewrite lookup_insert_eq. split.
      * intros [= <-]. split; [exact Ep|]. split; [|reflexivity].
        exists (VRecord r). auto.
      * intros (_ & (written & [= <-] & ->) & _). reflexivity.
  - rewrite assign_property_other by exact Hne.
    rewrite lookup_insert_ne by (intros E; apply Hinj in E; congruence).
    apply Hm.
Qed.

Lemma lists_exactly_delete (w : world) (key_of : string -> string)
    (m : gmap string jsval) (k : string) :
  (forall x y, key_of x = key_of y -> x = y) ->
  lists_exactly w key_of m ->
  lists_exactly (deleted [key_of k] w) key_of (delete k m).
Proof.
  intros Hinj Hm x y. unfold reads, stored. rewrite kv_deleted. simpl.
  destruct (decide (x = k)) as [-> | Hne].
  - rewrite !lookup_delete_eq. split; [discriminate|].
    intros (_ & (written & E & _) & _). discriminate.
  - rewrite !lookup_delete_ne by (try intros E; try apply Hinj in E; congruence).
    apply Hm.
Qed.

Lemma prKey_inj (u x y : string) :
  KvrocksStorage.prKey u x = KvrocksStorage.prKey u y -> x = y.
Proof. unfold KvrocksStorage.prKey. intros E. do 3 apply append_inj_r in E. exact E. Qed.

Lemma favKey_inj (u x y : string) :
  KvrocksStorage.favKey u x = KvrocksStorage.favKey u y -> x = y.
Proof. unfold KvrocksStorage.favKey. intros E. do 3 apply append_inj_r in E. exact E. Qed.

Lemma kvrocks_skipConfigKey_inj (u x y : string) :
  KvrocksStorage.skipConfigKey u x = KvrocksStorage.skipConfigKey u y -> x = y.
Proof.
  unfold KvrocksStorage.skipConfigKey. intros E. do 3 apply append_inj_r in E. exact E.
Qed.

(** The common shape of the five enumerations, with the writes of its
    kind. *)
Lemma enumeration_follows (key_of : string -> string)
    (getAll : M world (gmap string jsval))
    (set_ : string -> JsonRecord -> M world unit) (delete_ : string -> M world unit)
    (w : world) (k : string) (r : JsonRecord) :
  (forall x y, key_of x = key_of y -> x = y) ->
  (forall w0, exists m, getAll w0 = (Ok m, w0) /\ lists_exactly w0 key_of m) ->
  after (set_ k r) w = with_kv (insert (key_of k) (RString (VRecord r))) w ->
  after (delete_ k) w = deleted [key_of k] w ->
  exists m,
    value_of getAll w = Ok m
    /\ value_of getAll (after (set_ k r) w) = Ok (assign_property k (VRecord r) m)
    /\ value_of getAll (after (delete_ k) w) = Ok (delete k m).
Proof.
  intros Hinj Hget Hset Hdel.
  destruct (Hget w) as (m & Hrun & Hm).
  destruct (Hget (after (set_ k r) w)) as (m1 & Hrun1 & Hm1).
  destruct (Hget (after (delete_ k) w)) as (m2 & Hrun2 & Hm2).
  exists m. unfold value_of. rewrite Hrun, Hrun1, Hrun2. cbn [fst].
  split; [reflexivity|]. split; f_equal.
  - apply (lists_exactly_unique (after (set_ k r) w) key_of); [exact Hm1|].
    rewrite Hset. apply lists_exactly_insert; auto.
  - apply (lists_exactly_unique (after (delete_ k) w) key_of); [exact Hm2|].
    rewrite Hdel. apply lists_exactly_delete; auto.
Qed.

(** Property X26.  The enumerations follow the writes.  For a user name
    with no pattern character, on every store, and for play records and
    favourites on both backends and skip configs on backend A: the
    enumeration after [set] of a content key is the enumeration before with
    the record written assigned to the property of that name (so it is
    mapped to the record, unless the name is [__proto__], which never
    becomes an entry), and the enumeration after [delete] is the
    enumeration before without that key. *)
Theorem getAll_follows_writes (u k : string) (r : JsonRecord) (w : world)
    (Hu : plain u = true) :
  (exists m,
     value_of (KvrocksStorage.getAllPlayRecords u) w = Ok m
     /\ value_of (KvrocksStorage.getAllPlayRecords u)
          (after (KvrocksStorage.setPlayRecord u k r) w) = Ok (assign_property k (VRecord r) m)
     /\ value_of (KvrocksStorage.getAllPlayRecords u)
          (after (KvrocksStorage.deletePlayRecord u k) w) = Ok (delete k m))
  /\ (exists m,
        value_of (KvrocksStorage.getAllFavorites u) w = Ok m
        /\ value_of (KvrocksStorage.getAllFavorites u)
             (after (KvrocksStorage.setFavorite u k r) w) = Ok (assign_property k (VRecord r) m)
        /\ value_of (KvrocksStorage.getAllFavorites u)
             (after (KvrocksStorage.deleteFavorite u k) w) = Ok (delete k m))
  /\ (exists m,
        value_of (KvrocksStorage.getAllSkipConfigs u) w = Ok m
        /\ value_of (KvrocksStorage.getAllSkipConfigs u)
             (after (KvrocksStorage.setSkipConfig u k r) w) = Ok (assign_property k (VRecord r) m)
        /\ value_of (KvrocksStorage.getAllSkipConfigs u)
             (after (KvrocksStorage.deleteSkipConfig u k) w) = Ok (delete k m))
  /\ (exists m,
        value_of (RedisStorage.getAllPlayRecords u) w = Ok m
        /\ value_of (RedisStorage.getAllPlayRecords u)
             (after (RedisStorage.setPlayRecord u k r) w) = Ok (assign_property k (VRecord r) m)
        /\ value_of (RedisStorage.getAllPlayRecords u)
             (after (RedisStorage.deletePlayRecord u k) w) = Ok (delete k m))
  /\ (exists m,
        value_of (RedisStorage.getAllFavorites u) w = Ok m
        /\ value_of (RedisStorage.getAllFavorites u)
             (after (RedisStorage.setFavorite u k r) w) = Ok (assign_property k (VRecord r) m)
        /\ value_of (RedisStorage.getAllFavorites u)
             (after (RedisStorage.deleteFavorite u k) w) = Ok (delete k m)).
Proof.
  split; [|split; [|split; [|split]]].
  - apply (enumeration_follows (KvrocksStorage.prKey u) _
             (KvrocksStorage.setPlayRecord u) (KvrocksStorage.deletePlayRecord u));
      [apply prKey_inj | | reflexivity | reflexivity].
    intros w0. unfold KvrocksStorage.getAllPlayRecords, KvrocksStorage.prKey.
    enumerate ":pr:".
  - apply (enumeration_follows (KvrocksStorage.favKey u) _
             (KvrocksStorage.setFavorite u) (KvrocksStorage.deleteFavorite u));
      [apply favKey_inj | | reflexivity | reflexivity].
    intros w0. unfold KvrocksStorage.getAllFavorites, KvrocksStorage.favKey.
    enumerate ":fav:".
  - apply (enumeration_follows (KvrocksStorage.skipConfigKey u) _
             (KvrocksStorage.setSkipConfig u) (KvrocksStorage.deleteSkipConfig u));
      [apply kvrocks_skipConfigKey_inj | | reflexivity | reflexivity].
    intros w0. unfold KvrocksStorage.getAllSkipConfigs, KvrocksStorage.skipConfigKey.
    enumerate ":skip_config:".
  - apply (enumeration_follows (RedisStorage.prKey u) _
             (RedisStorage.setPlayRecord u) (RedisStorage.deletePlayRecord u));
      [apply prKey_inj | | reflexivity | reflexivity].
    intros w0. unfold RedisStorage.getAllPlayRecords, RedisStorage.prKey.
    enumerate ":pr:".
  - apply (enumeration_follows (RedisStorage.favKey u) _
             (RedisStorage.setFavorite u) (RedisStorage.deleteFavorite u));
      [apply favKey_inj | | reflexivity | reflexivity].
    intros w0. unfold RedisStorage.getAllFavorites, RedisStorage.favKey.
    enumerate ":fav:".
Qed.

End Verification.
(** * Scenarios

    The theorems above at concrete inputs, on the client of the
    scenarios. *)
Section Scenarios.
#[local] Existing Instance scenario_client.

Lemma getUserSettings_nothing_stored_alice :
  kv empty_world !! RedisStorage.userSettingsKey "alice" = None
  /\ RedisStorage.getUserSettings "alice" empty_world
     = (Ok (VSettings RedisStorage.defaultSettings), empty_world)
  /\ KvrocksStorage.getUserSettings "alice" empty_world = (Ok VNull, empty_world).
Proof.
  split; [reflexivity|].
  apply (getUserSettings_nothing_stored "alice" empty_world). reflexivity.
Defined.



Lemma search_history_duplicates_ones :
  deserialize_json "1" = VNumber "1"
  /\ deserialize_json "[1]" = VArray [VNumber "1"]
  /\ value_of (KvrocksStorage.getSearchHistory "alice")
       (after (forEach [Add "1"; Add "[1]"] (kvrocks_call "alice")) empty_world)
     = Ok ["1"; "1"]
  /\ value_of (RedisStorage.getSearchHistory "alice")
       (after (forEach [Add "1"; Add "[1]"] (redis_call "alice")) empty_world)
     = Ok ["1"; "1"].
Proof.
  split; [reflexivity|]. split; [reflexivity|].
  exact (proj2 search_history_duplicates eq_refl eq_refl).
Defined.

(** Claim C3, as stated, fails on backend A, which has no index set: after
    [setSkipConfig] on the empty store the only key is the config itself. *)
Lemma kvrocks_setSkipConfig_no_index :
  let w := after (KvrocksStorage.setSkipConfig "bob" "ep1" sample_config) empty_world in
  kv w = {[ "u:bob:skip_config:ep1" := RString (VRecord sample_config) ]}
  /\ set_at w (RedisStorage.skipConfigsKey "bob") = ∅.
Proof. split; vm_compute; reflexivity. Qed.

Lemma redis_setSkipConfig_index_bob :
  index_exact empty_world "bob"
  /\ value_of (RedisStorage.setSkipConfig "bob" "ep1" sample_config) empty_world = Ok tt
  /\ stored (after (RedisStorage.setSkipConfig "bob" "ep1" sample_config) empty_world)
       (RedisStorage.skipConfigKey "bob" "ep1") = Some (VRecord sample_config)
  /\ set_at (after (RedisStorage.setSkipConfig "bob" "ep1" sample_config) empty_world)
       (RedisStorage.skipConfigsKey "bob")
     = {[ "ep1" ]} ∪ set_at empty_world (RedisStorage.skipConfigsKey "bob")
  /\ index_exact (after (RedisStorage.setSkipConfig "bob" "ep1" sample_config) empty_world)
       "bob".
Proof.
  split; [apply index_exact_empty|].
  apply (redis_setSkipConfig_index "bob" "ep1" sample_config empty_world).
  apply index_exact_empty.
Defined.

Lemma kvrocks_changePassword_existing_alice :
  let w := after (KvrocksStorage.registerUser "alice" "p1") empty_world in
  stored w (KvrocksStorage.userKey "alice")
  = Some (VUserData {| username := "alice"; password := "p1"; created_at := 0 |})
  /\ stored (after (KvrocksStorage.changePassword "alice" "p2") w)
       (KvrocksStorage.userKey "alice")
     = Some (VUserData {| username := "alice"; password := "p2"; created_at := 0 |})
  /\ value_of (KvrocksStorage.verifyUser "alice" "p1")
       (after (KvrocksStorage.changePassword "alice" "p2") w)
     = Ok (VBool false).
Proof.
  assert (H : stored (after (KvrocksStorage.registerUser "alice" "p1") empty_world)
                (KvrocksStorage.userKey "alice")
              = Some (VUserData {| username := "alice"; password := "p1";
                                   created_at := 0 |}))
    by (vm_compute; reflexivity).
  split; [exact H|].
  exact (kvrocks_changePassword_existing "alice" "p2" "p1" _ _ H).
Defined.

Lemma updateUserSettings_first_alice :
  kv empty_world !! RedisStorage.userSettingsKey "alice" = None
  /\ exists sa sb,
       value_of (KvrocksStorage.getUserSettings "alice")
         (after (KvrocksStorage.updateUserSettings "alice" (only_theme "dark")) empty_world)
       = Ok (VSettings sa)
       /\ value_of (RedisStorage.getUserSettings "alice")
            (after (RedisStorage.updateUserSettings "alice" (only_theme "dark")) empty_world)
          = Ok (VSettings sb)
       /\ (forall f, field_of f sa
                     = updated_field f KvrocksStorage.defaultSettings (only_theme "dark"))
       /\ (forall f, field_of f sb
                     = updated_field f RedisStorage.defaultSettings (only_theme "dark"))
       /\ (sa = sb <-> is_Some (p_auto_play (only_theme "dark"))).
Proof.
  split; [reflexivity|].
  apply (updateUserSettings_first "alice" (only_theme "dark") empty_world).
  reflexivity.
Defined.

Lemma redis_calls_isolated_bob :
  let w := after (RedisStorage.registerUser "bob" "pw") empty_world in
  let k := RedisStorage.userPwdKey "bob" in
  pattern_safe (DeleteUser "alice")
  /\ (forall u, caller (DeleteUser "alice") = Some u -> colon_free u = true /\ u <> "bob")
  /\ colon_free "bob" = true
  /\ redis_owned "bob" k
  /\ kv (after (redis_do (DeleteUser "alice")) w) !! k = kv w !! k.
Proof.
  assert (Hsafe : pattern_safe (DeleteUser "alice")) by reflexivity.
  assert (Hcaller : forall u, caller (DeleteUser "alice") = Some u ->
                              colon_free u = true /\ u <> "bob")
    by (intros u [= <-]; split; [reflexivity | discriminate]).
  assert (Hv : colon_free "bob" = true) by reflexivity.
  assert (Hk : redis_owned "bob" (RedisStorage.userPwdKey "bob"))
    by (left; exists "pwd"; reflexivity).
  split; [exact Hsafe|]. split; [exact Hcaller|]. split; [exact Hv|].
  split; [exact Hk|].
  exact (redis_calls_isolated (DeleteUser "alice") "bob" (RedisStorage.userPwdKey "bob")
           (after (RedisStorage.registerUser "bob" "pw") empty_world)
           Hsafe Hcaller Hv Hk).
Defined.

Lemma kvrocks_calls_isolated_bob :
  let w := after (KvrocksStorage.registerUser "bob" "pw") empty_world in
  pattern_safe (DeleteUser "alice")
  /\ caller (DeleteUser "alice") = Some "alice"
  /\ colon_free "alice" = true
  /\ colon_free "bob" = true
  /\ "alice" <> "bob"
  /\ (forall k, kvrocks_owned "bob" k ->
                kv (after (kvrocks_do (DeleteUser "alice")) w) !! k = kv w !! k)
  /\ ("bob" ∈ set_at (after (kvrocks_do (DeleteUser "alice")) w) KvrocksStorage.userListKey
      <-> "bob" ∈ set_at w KvrocksStorage.userListKey).
Proof.
  assert (Hne : "alice" <> "bob") by discriminate.
  split; [reflexivity|]. split; [reflexivity|]. split; [reflexivity|].
  split; [reflexivity|]. split; [exact Hne|].
  exact (kvrocks_calls_isolated (DeleteUser "alice") "alice" "bob"
           (after (KvrocksStorage.registerUser "bob" "pw") empty_world)
           eq_refl eq_refl eq_refl eq_refl Hne).
Defined.

Lemma getAll_lists_exactly_alice :
  let w := after (KvrocksStorage.setPlayRecord "alice" "ep1" sample_config) empty_world in
  plain "alice" = true
  /\ (exists m, KvrocksStorage.getAllPlayRecords "alice" w = (Ok m, w)
                /\ lists_exactly w (KvrocksStorage.prKey "alice") m)
  /\ (exists m, KvrocksStorage.getAllFavorites "alice" w = (Ok m, w)
                /\ lists_exactly w (KvrocksStorage.favKey "alice") m)
  /\ (exists m, KvrocksStorage.getAllSkipConfigs "alice" w = (Ok m, w)
                /\ lists_exactly w (KvrocksStorage.skipConfigKey "alice") m)
  /\ (exists m, RedisStorage.getAllPlayRecords "alice" w = (Ok m, w)
                /\ lists_exactly w (RedisStorage.prKey "alice") m)
  /\ (exists m, RedisStorage.getAllFavorites "alice" w = (Ok m, w)
                /\ lists_exactly w (RedisStorage.favKey "alice") m)
  /\ (forall v x y,
        colon_free "alice" = true -> colon_free v = true -> v <> "alice" ->
        KvrocksStorage.prKey "alice" x <> KvrocksStorage.prKey v y
        /\ KvrocksStorage.favKey "alice" x <> KvrocksStorage.favKey v y
        /\ KvrocksStorage.skipConfigKey "alice" x <> KvrocksStorage.skipConfigKey v y
        /\ RedisStorage.prKey "alice" x <> RedisStorage.prKey v y
        /\ RedisStorage.favKey "alice" x <> RedisStorage.favKey v y).
Proof.
  split; [reflexivity|].
  apply (getAll_lists_exactly "alice"
           (after (KvrocksStorage.setPlayRecord "alice" "ep1" sample_config) empty_world)).
  reflexivity.
Defined.



Lemma kvrocks_getAllUsers_tracks_bob :
  let w := after (KvrocksStorage.registerUser "alice" "pw") empty_world in
  let iso := fun _ : json => Some "1970-01-01T00:00:00.000Z" in
  set_or_free w KvrocksStorage.userListKey
  /\ (exists users,
        value_of (kvrocks_getAllUsers iso None)
          (after (KvrocksStorage.registerUser "bob" "pw2") w) = Ok users
        /\ forall v, v ∈ user_username <$> users
                     <-> exists k, (k = "bob" \/ k ∈ set_at w KvrocksStorage.userListKey)
                                   /\ parseResponse k = v)
  /\ (exists users,
        value_of (kvrocks_getAllUsers iso None)
          (after (KvrocksStorage.deleteUser "bob") w) = Ok users
        /\ forall v, v ∈ user_username <$> users
                     <-> exists k, (k <> "bob" /\ k ∈ set_at w KvrocksStorage.userListKey)
                                   /\ parseResponse k = v).
Proof.
  assert (Hlist : set_or_free (after (KvrocksStorage.registerUser "alice" "pw") empty_world)
                    KvrocksStorage.userListKey) by (vm_compute; exact I).
  split; [exact Hlist|].
  exact (kvrocks_getAllUsers_tracks (fun _ => Some "1970-01-01T00:00:00.000Z")
           None "bob" "pw2" _ Hlist).
Defined.

Lemma deleteUser_and_settings_alice :
  let s := {| filter_adult_content := false; theme := "dark"; language := "en";
              auto_play := true; video_quality := "720p" |} in
  let w := after (KvrocksStorage.setUserSettings "alice" s) empty_world in
  plain "alice" = true
  /\ value_of (KvrocksStorage.getUserSettings "alice") w = Ok (VSettings s)
  /\ value_of (RedisStorage.getUserSettings "alice")
       (after (RedisStorage.deleteUser "alice") w)
     = Ok (VSettings RedisStorage.defaultSettings)
  /\ value_of (KvrocksStorage.getUserSettings "alice")
       (after (KvrocksStorage.deleteUser "alice") w)
     = value_of (KvrocksStorage.getUserSettings "alice") w.
Proof.
  split; [reflexivity|]. split; [vm_compute; reflexivity|].
  split.
  - exact (proj1 (deleteUser_and_settings "alice" _)).
  - exact (proj2 (deleteUser_and_settings "alice" _) eq_refl).
Defined.


Lemma middleware_without_cookie_library :
  let decode := fun s : string => Some s in
  let parse := fun s : string =>
                 if String.eqb s "{}" then Some (JObject []) else None in
  let request := {| request_origin := "https://tv.example";
                    nextUrl_pathname := "/api/favorites";
                    nextUrl_search := EmptyString;
                    headers_cookie := None |} in
  decode EmptyString = Some EmptyString
  /\ parse "{}" = Some (JObject [])
  /\ shouldSkipAuth (nextUrl_pathname request) = false
  /\ unset (Some "secret") = false
  /\ env_or (headers_cookie request) EmptyString = EmptyString
  /\ middleware decode parse (fun _ _ _ => true) (Some "secret") (Some "redis") request
     = Ok (handleAuthFailure request (nextUrl_pathname request)).
Proof.
  repeat (split; [reflexivity|]).
  exact (middleware_without_cookie (fun s => Some s)
           (fun s => if String.eqb s "{}" then Some (JObject []) else None)
           (fun _ _ _ => true) (Some "secret") (Some "redis")
           {| request_origin := "https://tv.example";
              nextUrl_pathname := "/api/favorites";
              nextUrl_search := EmptyString;
              headers_cookie := None |}
           eq_refl eq_refl eq_refl eq_refl eq_refl).
Defined.

Lemma parseCookie_last_auth_library :
  let decode := fun s : string => Some s in
  let parse := fun s : string =>
                 if String.eqb s "{}" then Some (JObject []) else None in
  decode "auth" = Some "auth"
  /\ decode "{}" = Some "{}"
  /\ "{}" <> EmptyString
  /\ (no_char ";" "{}" = true /\ no_char ";" "pad" = true)
  /\ (no_char "=" "{}" = true /\ no_char "=" "pad" = true)
  /\ (no_space "{}" = true /\ no_space "pad" = true)
  /\ parseCookie decode parse ("theme=dark" +:+ ";auth=" +:+ "{}")
     = match parseCookie_object decode "theme=dark" with
       | Some _ => default JNull (parse "{}")
       | None => JNull
       end
  /\ parseCookie decode parse ("theme=dark" +:+ ";auth=" +:+ "{}" +:+ "=" +:+ "pad")
     = parseCookie decode parse ("theme=dark" +:+ ";auth=" +:+ "{}").
Proof.
  assert (Hne : "{}" <> EmptyString) by discriminate.
  split; [reflexivity|]. split; [reflexivity|]. split; [exact Hne|].
  split; [split; reflexivity|]. split; [split; reflexivity|].
  split; [split; reflexivity|].
  exact (parseCookie_last_auth (fun s => Some s)
           (fun s => if String.eqb s "{}" then Some (JObject []) else None)
           "theme=dark" "{}" "{}" "pad" eq_refl eq_refl Hne
           (conj eq_refl eq_refl) (conj eq_refl eq_refl) (conj eq_refl eq_refl)).
Defined.



Lemma deleteUser_exact_bob :
  let w := redis_store [SetPlayRecord "bob" "ep1" sample_config;
                        SetPlayRecord "alice" "ep1" sample_config] in
  set_or_free w KvrocksStorage.userListKey
  /\ (value_of (RedisStorage.deleteUser "bob") w = Ok tt
      /\ forall k,
           (redis_cascade "bob" k ->
            kv (after (RedisStorage.deleteUser "bob") w) !! k = None)
           /\ (~ redis_cascade "bob" k ->
               kv (after (RedisStorage.deleteUser "bob") w) !! k = kv w !! k))
  /\ (set_or_free w KvrocksStorage.userListKey ->
      value_of (KvrocksStorage.deleteUser "bob") w = Ok tt
      /\ set_at (after (KvrocksStorage.deleteUser "bob") w) KvrocksStorage.userListKey
         = set_at w KvrocksStorage.userListKey ∖ {[ "bob" ]}
      /\ forall k,
           (kvrocks_cascade "bob" k -> k <> KvrocksStorage.userListKey ->
            kv (after (KvrocksStorage.deleteUser "bob") w) !! k = None)
           /\ (~ kvrocks_cascade "bob" k ->
               kv (after (KvrocksStorage.deleteUser "bob") w) !! k = kv w !! k)).
Proof.
  assert (Hlist : set_or_free
            (redis_store [SetPlayRecord "bob" "ep1" sample_config;
                          SetPlayRecord "alice" "ep1" sample_config])
            KvrocksStorage.userListKey) by (vm_compute; exact I).
  split; [exact Hlist|].
  exact (deleteUser_exact "bob" _).
Defined.

Lemma getAll_follows_writes_alice :
  plain "alice" = true
  /\ (exists m,
        value_of (KvrocksStorage.getAllPlayRecords "alice") empty_world = Ok m
        /\ value_of (KvrocksStorage.getAllPlayRecords "alice")
             (after (KvrocksStorage.setPlayRecord "alice" "ep1" sample_config) empty_world)
           = Ok (assign_property "ep1" (VRecord sample_config) m)
        /\ value_of (KvrocksStorage.getAllPlayRecords "alice")
             (after (KvrocksStorage.deletePlayRecord "alice" "ep1") empty_world)
           = Ok (delete "ep1" m)).
Proof.
  split; [reflexivity|].
  exact (proj1 (getAll_follows_writes "alice" "ep1" sample_config empty_world eq_refl)).
Defined.

End Scenarios.
